(** * A shallow embedding of the PLY reader (reader.go) and its properties

    The Go package [ply] reads a PLY geometry file: a text header that
    declares elements and their typed properties, followed by a body in
    ASCII or in binary form.  This development embeds the reader as Rocq
    functions and states the properties of the decoder over them.

    Conventions of the embedding:
    - a Go [string] and a Go [[]byte] are both sequences of bytes and are
      both modelled by [list byte];
    - a Go [int], [int64], [uint32], ... is a [Z]; a conversion that can wrap
      is written out with [mod];
    - a Go function that returns [(v, error)] returns an [outcome]: a value,
      an [error], or a run-time panic (index out of range, negative length);
    - the document [*PLY] and its [*bufio.Reader] are threaded explicitly;
      a function that fails returns the error alone, the state the Go code
      leaves behind in that case is not kept;
    - the functions of the Go library that the reader calls ([strconv],
      [regexp], [strings], [bufio], [io], [encoding/binary], [bytes]) are
      modelled from their documented behaviour; the file that is read is a
      regular file, and memory is not limited. *)

From Stdlib Require Import ZArith List Lia Bool Arith.
From Stdlib Require Import Strings.Byte Floats.SpecFloat.
Import ListNotations.

Set Implicit Arguments.

(** ** Bytes and byte strings *)

Definition bytes := list byte.

Inductive bytes_lit := BLnil | BLcons (b : byte) (l : bytes_lit).

Fixpoint bytes_lit_of (l : list byte) : bytes_lit :=
  match l with
  | [] => BLnil
  | b :: t => BLcons b (bytes_lit_of t)
  end.

Fixpoint bytes_lit_to (l : bytes_lit) : list byte :=
  match l with
  | BLnil => []
  | BLcons b t => b :: bytes_lit_to t
  end.

Declare Scope bytes_scope.
Delimit Scope bytes_scope with bytes.
Bind Scope bytes_scope with bytes.

#[warnings="-via-type-remapping,-via-type-mismatch"]
String Notation bytes bytes_lit_of bytes_lit_to
  (via bytes_lit mapping [[nil] => BLnil, [cons] => BLcons]) : bytes_scope.

Open Scope Z_scope.
Open Scope bytes_scope.

(** The numeric value of a byte, and the byte of a number (taken modulo 256,
    as a Go conversion [byte(x)] does). *)
Definition bz (b : byte) : Z := Z.of_N (Byte.to_N b).

Definition zb (z : Z) : byte :=
  match Byte.of_N (Z.to_N (z mod 256)) with
  | Some b => b
  | None => x00
  end.

Fixpoint bytes_eqb (a b : bytes) : bool :=
  match a, b with
  | [], [] => true
  | x :: a', y :: b' => Byte.eqb x y && bytes_eqb a' b'
  | _, _ => false
  end.

Infix "==" := bytes_eqb (at level 70) : bytes_scope.

Definition zeros (n : nat) : bytes := repeat x00 n.

(** ** Errors, panics and outcomes *)

(** The [Err] field of a [*strconv.NumError]. *)
Inductive numErr := ErrSyntax | ErrRange.

Inductive error :=
| EOF                                         (* io.EOF *)
| ErrUnexpectedEOF                            (* io.ErrUnexpectedEOF *)
| NumError (fn num : bytes) (err : numErr)    (* *strconv.NumError *)
| PathError (op path : bytes)                 (* *fs.PathError of os.Open *)
| errorString (msg : bytes).                  (* errors.New(msg) *)

(** Run-time panics of the Go runtime that the reader can raise. *)
Inductive panic :=
| IndexOutOfRange (i len : Z)   (* index i out of range for length len *)
| MakeSliceLen (n : Z)          (* makeslice: len out of range *)
| NilByteOrder.                 (* method call on a nil binary.ByteOrder *)

(** [OutOfFuel] is the answer of a loop of the model that was not given
    enough iterations; no Go execution corresponds to it. *)
Inductive outcome (A : Type) :=
| Ok (a : A)
| Err (e : error)
| Panic (p : panic)
| OutOfFuel.

Arguments Ok {A} a.
Arguments Err {A} e.
Arguments Panic {A} p.
Arguments OutOfFuel {A}.

Definition obind {A B} (m : outcome A) (f : A -> outcome B) : outcome B :=
  match m with
  | Ok a => f a
  | Err e => Err e
  | Panic p => Panic p
  | OutOfFuel => OutOfFuel
  end.

(** Indexing [s[i]] of a Go slice: panics out of range. *)
Definition index {A} (s : list A) (i : Z) : outcome A :=
  if (i <? 0) || (Z.of_nat (length s) <=? i) then
    Panic (IndexOutOfRange i (Z.of_nat (length s)))
  else
    match nth_error s (Z.to_nat i) with
    | Some a => Ok a
    | None => Panic (IndexOutOfRange i (Z.of_nat (length s)))
    end.

(** [s[i] = v]. *)
Fixpoint set_nth {A} (s : list A) (n : nat) (v : A) : list A :=
  match s, n with
  | [], _ => []
  | _ :: t, O => v :: t
  | a :: t, S k => a :: set_nth t k v
  end.

Definition store {A} (s : list A) (i : Z) (v : A) : outcome (list A) :=
  if (i <? 0) || (Z.of_nat (length s) <=? i) then
    Panic (IndexOutOfRange i (Z.of_nat (length s)))
  else Ok (set_nth s (Z.to_nat i) v).

(** ** The type registry *)

Definition Types : list bytes :=
  ["invalid"; "int8"; "int16"; "int32"; "uint8"; "uint16"; "uint32";
   "float32"; "float64"].

Definition OldTypes : list bytes :=
  ["invalid"; "char"; "short"; "int"; "uchar"; "ushort"; "uint";
   "float"; "double"].

(** [SizeOfType] is a Go map; a missing key reads as 0. *)
Definition SizeOfType_table : list (bytes * Z) :=
  [("invalid", 0); ("int8", 1); ("int16", 2); ("int32", 4); ("uint8", 1);
   ("uint16", 2); ("uint32", 4); ("float32", 4); ("float64", 8);
   ("char", 1); ("short", 2); ("int", 4); ("uchar", 1); ("ushort", 2);
   ("uint", 4); ("float", 4); ("double", 8)].

Fixpoint map_lookup (m : list (bytes * Z)) (k : bytes) : Z :=
  match m with
  | [] => 0
  | (k', v) :: m' => if k' == k then v else map_lookup m' k
  end.

Definition SizeOfType (t : bytes) : Z := map_lookup SizeOfType_table t.

(** [typeName == Types[i] || typeName == OldTypes[i]] *)
Definition is_type (i : nat) (typeName : bytes) : bool :=
  (typeName == nth i Types "") || (typeName == nth i OldTypes "").

(** The scalar types the codecs know: entries 1 to 8 of the two tables. *)
Definition recognized (typeName : bytes) : bool :=
  existsb (fun i => is_type i typeName) (seq 1 8).

(** ** The library functions the reader calls: [strconv]

    [ParseUint], [ParseInt] and [Itoa] follow the Go standard library.  The
    machine integers of the Go code are 64 bits wide. *)

Module strconv.

Definition maxUint64 : Z := 2 ^ 64 - 1.

(** [lower(c)]: [c | ('x' - 'X')]. *)
Definition lower (c : byte) : Z := Z.lor (bz c) 32.

Definition is_digit (c : byte) : bool := (48 <=? bz c) && (bz c <=? 57).

(** [underscoreOK]: underscores only between digits, or between a base
    prefix and a digit.  [saw] is the last character class seen:
    0 for a digit, 1 for an underscore, 2 for anything else, 3 at the
    beginning. *)
Fixpoint underscoreOK_loop (hex : bool) (saw : Z) (s : bytes) : bool :=
  match s with
  | [] => negb (saw =? 1)
  | c :: t =>
      if is_digit c || (hex && (97 <=? lower c) && (lower c <=? 102)) then
        underscoreOK_loop hex 0 t
      else if Byte.eqb c "_" then
        if saw =? 0 then underscoreOK_loop hex 1 t else false
      else if saw =? 1 then false
      else underscoreOK_loop hex 2 t
  end.

Definition underscoreOK (s : bytes) : bool :=
  let s :=
    match s with
    | c :: t => if Byte.eqb c "-" || Byte.eqb c "+" then t else s
    | [] => s
    end in
  match s with
  | c0 :: c1 :: t =>
      if Byte.eqb c0 "0" &&
         ((lower c1 =? 98) || (lower c1 =? 111) || (lower c1 =? 120))
      then underscoreOK_loop (lower c1 =? 120) 0 t
      else underscoreOK_loop false 3 s
  | _ => underscoreOK_loop false 3 s
  end.

(** The digit loop of [ParseUint]; the result is the number read and
    whether an underscore was seen. *)
Fixpoint ParseUint_loop (base0 : bool) (base cutoff maxVal : Z)
    (s : bytes) (n : Z) (underscores : bool) : (Z * bool) + numErr :=
  match s with
  | [] => inl (n, underscores)
  | c :: t =>
      if Byte.eqb c "_" && base0 then
        ParseUint_loop base0 base cutoff maxVal t n true
      else
        let d :=
          if is_digit c then Some (bz c - 48)
          else if (97 <=? lower c) && (lower c <=? 122)
               then Some (lower c - 97 + 10)
               else None in
        match d with
        | None => inr ErrSyntax
        | Some d =>
            if base <=? d then inr ErrSyntax
            else if cutoff <=? n then inr ErrRange
            else
              let n := n * base in
              let n1 := (n + d) mod 2 ^ 64 in
              if (n1 <? n) || (maxVal <? n1) then inr ErrRange
              else ParseUint_loop base0 base cutoff maxVal t n1 underscores
        end
  end.

(** [ParseUint(s, base, bitSize)] for [base] 0 or in 2..36 and [bitSize]
    in 1..64.  On a range error Go also returns the largest value, which
    [ParseInt] inspects; the model returns the error kind. *)
Definition ParseUint_kind (s : bytes) (base : Z) (bitSize : Z)
  : Z + numErr :=
  match s with
  | [] => inr ErrSyntax
  | c0 :: rest =>
      let base0 := base =? 0 in
      let '(base, s') :=
        if base0 then
          if Byte.eqb c0 "0" then
            match rest with
            | c1 :: ((_ :: _) as r2) =>
                if lower c1 =? 98 then (2, r2)
                else if lower c1 =? 111 then (8, r2)
                else if lower c1 =? 120 then (16, r2)
                else (8, rest)
            | _ => (8, rest)
            end
          else (10, s)
        else (base, s) in
      let cutoff := maxUint64 / base + 1 in
      let maxVal := 2 ^ bitSize - 1 in
      match ParseUint_loop base0 base cutoff maxVal s' 0 false with
      | inr k => inr k
      | inl (n, underscores) =>
          if underscores && negb (underscoreOK s) then inr ErrSyntax
          else inl n
      end
  end.

Definition ParseUint (s : bytes) (base bitSize : Z) : outcome Z :=
  match ParseUint_kind s base bitSize with
  | inl n => Ok n
  | inr k => Err (NumError "ParseUint" s k)
  end.

Definition ParseInt (s0 : bytes) (base bitSize : Z) : outcome Z :=
  match s0 with
  | [] => Err (NumError "ParseInt" s0 ErrSyntax)
  | c :: t =>
      let '(neg, s) :=
        if Byte.eqb c "+" then (false, t)
        else if Byte.eqb c "-" then (true, t)
        else (false, s0) in
      match ParseUint_kind s base 64 with
      | inr ErrSyntax => Err (NumError "ParseInt" s0 ErrSyntax)
      | r =>
          let un := match r with inl n => n | inr _ => maxUint64 end in
          let cutoff := 2 ^ (bitSize - 1) in
          if negb neg && (cutoff <=? un) then
            Err (NumError "ParseInt" s0 ErrRange)
          else if neg && (cutoff <? un) then
            Err (NumError "ParseInt" s0 ErrRange)
          else Ok (if neg then - un else un)
      end
  end.

(** [Itoa]: the decimal digits of an [int]. *)
Fixpoint utoa (fuel : nat) (n : Z) (acc : bytes) : bytes :=
  match fuel with
  | O => acc
  | S f =>
      let acc := zb (48 + n mod 10) :: acc in
      if n / 10 =? 0 then acc else utoa f (n / 10) acc
  end.

Definition Itoa (n : Z) : bytes :=
  if n <? 0 then "-" ++ utoa 20 (- n) [] else utoa 20 n [].

End strconv.

(** ** Floating-point values

    A [float32] or [float64] is an IEEE-754 value, [SpecFloat.spec_float]
    of the standard library (NaN payloads are not represented).  Only the
    bit-level encodings the reader uses are defined here. *)

Module math.

Record format := { prec : Z; emax : Z; ebits : Z }.

Definition binary32 : format := {| prec := 24; emax := 128; ebits := 8 |}.
Definition binary64 : format := {| prec := 53; emax := 1024; ebits := 11 |}.

(** [Float32bits] / [Float64bits]. *)
Definition bits (f : format) (x : spec_float) : Z :=
  let mw := prec f - 1 in
  let sign (s : bool) := if s then 2 ^ (mw + ebits f) else 0 in
  match x with
  | S754_zero s => sign s
  | S754_infinity s => sign s + Z.shiftl (2 ^ ebits f - 1) mw
  | S754_nan => Z.shiftl (2 ^ ebits f - 1) mw + 2 ^ (mw - 1)
  | S754_finite s m e =>
      if Z.pos (digits2_pos m) =? prec f then
        sign s + Z.shiftl (e + mw + (emax f - 1)) mw + (Z.pos m - 2 ^ mw)
      else sign s + Z.pos m
  end.

(** [Float32frombits] / [Float64frombits]. *)
Definition frombits (f : format) (b : Z) : spec_float :=
  let mw := prec f - 1 in
  let s := Z.testbit b (mw + ebits f) in
  let e := Z.land (Z.shiftr b mw) (2 ^ ebits f - 1) in
  let m := Z.land b (2 ^ mw - 1) in
  if e =? 2 ^ ebits f - 1 then
    if m =? 0 then S754_infinity s else S754_nan
  else if e =? 0 then
    match m with
    | Z.pos p => S754_finite s p (3 - emax f - prec f)
    | _ => S754_zero s
    end
  else
    match m + 2 ^ mw with
    | Z.pos p => S754_finite s p (e - (emax f - 1) - mw)
    | _ => S754_nan
    end.

(** The value [n] as a float of format [f], for a small integer [n]. *)
Definition of_Z (f : format) (n : Z) : spec_float :=
  binary_normalize (prec f) (emax f) n 0 false.

End math.


(** ** [strconv.ParseFloat]

    The accepted syntax follows [readFloat] and [special] of the Go
    library: decimal and hexadecimal literals, [inf], [infinity] and [nan].
    The value is the literal's exact value rounded to the nearest float of
    the requested size, ties to even; a value too large is a range error. *)

Module strconv_float.

Import strconv.

Record mant_state := {
  mantissa : Z;       (* all digits after the leading zeros *)
  nd : Z;             (* how many digits they are *)
  dp : Z;             (* position of the point *)
  sawdot : bool;
  sawdigits : bool;
  underscores : bool
}.

(** The digit loop of [readFloat]; returns the state and the unread rest. *)
Fixpoint mant_loop (base : Z) (s : bytes) (st : mant_state)
  : mant_state * bytes :=
  match s with
  | [] => (st, s)
  | c :: t =>
      if Byte.eqb c "_" then
        mant_loop base t
          {| mantissa := mantissa st; nd := nd st; dp := dp st;
             sawdot := sawdot st; sawdigits := sawdigits st;
             underscores := true |}
      else if Byte.eqb c "." then
        if sawdot st then (st, s)
        else
          mant_loop base t
            {| mantissa := mantissa st; nd := nd st; dp := nd st;
               sawdot := true; sawdigits := sawdigits st;
               underscores := underscores st |}
      else if is_digit c then
        if Byte.eqb c "0" && (nd st =? 0) then
          mant_loop base t
            {| mantissa := mantissa st; nd := nd st; dp := dp st - 1;
               sawdot := sawdot st; sawdigits := true;
               underscores := underscores st |}
        else
          mant_loop base t
            {| mantissa := mantissa st * base + (bz c - 48);
               nd := nd st + 1; dp := dp st;
               sawdot := sawdot st; sawdigits := true;
               underscores := underscores st |}
      else if (base =? 16) && (97 <=? lower c) && (lower c <=? 102) then
        mant_loop base t
          {| mantissa := mantissa st * 16 + (lower c - 97 + 10);
             nd := nd st + 1; dp := dp st;
             sawdot := sawdot st; sawdigits := true;
             underscores := underscores st |}
      else (st, s)
  end.

(** The digits of the exponent; Go stops accumulating at 10000. *)
Fixpoint exp_loop (s : bytes) (e : Z) (us : bool) : Z * bool * bytes :=
  match s with
  | [] => (e, us, s)
  | c :: t =>
      if Byte.eqb c "_" then exp_loop t e true
      else if is_digit c then
        exp_loop t (if e <? 10000 then e * 10 + (bz c - 48) else e) us
      else (e, us, s)
  end.

(** A literal that was read: sign, digits, exponent, and whether the
    exponent is a power of two (hexadecimal) or of ten. *)
Record literal := { neg : bool; mant : Z; exp : Z; hex : bool }.

(** [readFloat], for a literal that must extend to the end of [s]. *)
Definition readFloat (s : bytes) : option literal :=
  let '(neg, s1) :=
    match s with
    | c :: t =>
        if Byte.eqb c "+" then (false, t)
        else if Byte.eqb c "-" then (true, t)
        else (false, s)
    | [] => (false, s)
    end in
  match s1 with
  | [] => None
  | _ =>
      let '(base, s2) :=
        match s1 with
        | c0 :: c1 :: ((_ :: _) as r) =>
            if Byte.eqb c0 "0" && (lower c1 =? 120) then (16, r) else (10, s1)
        | _ => (10, s1)
        end in
      let '(st, s3) :=
        mant_loop base s2
          {| mantissa := 0; nd := 0; dp := 0; sawdot := false;
             sawdigits := false; underscores := false |} in
      if negb (sawdigits st) then None
      else
        let dp0 := if sawdot st then dp st else nd st in
        let '(dp1, ndm) :=
          if base =? 16 then (dp0 * 4, nd st * 4) else (dp0, nd st) in
        let expChar := if base =? 16 then 112 else 101 in
        let finish (dp2 : Z) (us : bool) (rest : bytes) : option literal :=
          match rest with
          | _ :: _ => None
          | [] =>
              if us && negb (underscoreOK s) then None
              else Some {| neg := neg; mant := mantissa st;
                           exp := if mantissa st =? 0 then 0 else dp2 - ndm;
                           hex := base =? 16 |}
          end in
        match s3 with
        | c :: t =>
            if lower c =? expChar then
              match t with
              | [] => None
              | d :: t' =>
                  let '(esign, t1) :=
                    if Byte.eqb d "+" then (1, t')
                    else if Byte.eqb d "-" then (-1, t')
                    else (1, t) in
                  match t1 with
                  | d1 :: _ =>
                      if is_digit d1 then
                        let '(e, us, rest) := exp_loop t1 0 (underscores st) in
                        finish (dp1 + e * esign) us rest
                      else None
                  | [] => None
                  end
              end
            else if base =? 16 then None
            else finish dp1 (underscores st) s3
        | [] =>
            if base =? 16 then None else finish dp1 (underscores st) s3
        end
  end.

(** The value [±mant * 10^exp] (or [* 2^exp]) rounded to format [f]. *)
Definition round_literal (f : math.format) (l : literal) : spec_float :=
  let p := math.prec f in
  let em := math.emax f in
  match mant l with
  | Z.pos m =>
      if hex l then binary_round p em (neg l) m (exp l)
      else if 0 <=? exp l then
        binary_normalize p em
          (if neg l then - (Z.pos m * 10 ^ exp l) else Z.pos m * 10 ^ exp l)
          0 false
      else
        let '(q, e, loc) :=
          SFdiv_core_binary p em (Z.pos m) 0 (10 ^ (- exp l)) 0 in
        binary_round_aux p em (neg l) q e loc
  | _ => S754_zero (neg l)
  end.

Definition lower_eqb (s : bytes) (word : bytes) : bool :=
  map (fun c => zb (lower c)) s == word.

(** [special]: the signed infinities and NaN, ignoring case. *)
Definition special (s : bytes) : option spec_float :=
  let '(neg, s1, signed) :=
    match s with
    | c :: t =>
        if Byte.eqb c "+" then (false, t, true)
        else if Byte.eqb c "-" then (true, t, true)
        else (false, s, false)
    | [] => (false, s, false)
    end in
  if lower_eqb s1 "inf" || lower_eqb s1 "infinity" then Some (S754_infinity neg)
  else if negb signed && lower_eqb s1 "nan" then Some S754_nan
  else None.

(** [ParseFloat(s, bitSize)]: the result is a [float64] that holds a value
    of the requested size. *)
Definition ParseFloat (s : bytes) (bitSize : Z) : outcome spec_float :=
  let f := if bitSize =? 32 then math.binary32 else math.binary64 in
  match special s with
  | Some x => Ok x
  | None =>
      match readFloat s with
      | None => Err (NumError "ParseFloat" s ErrSyntax)
      | Some l =>
          match round_literal f l with
          | S754_infinity _ => Err (NumError "ParseFloat" s ErrRange)
          | x => Ok x
          end
      end
  end.

End strconv_float.

(** ** [regexp]

    A backtracking matcher with the leftmost-first preference of Go's
    [regexp] package.  [rmatch r s] lists, in order of preference, the
    rests of [s] that remain after a match of [r] at the start of [s]; the
    match that the package reports is the first of them. *)

Module regexp.

Inductive regex :=
| Cls (p : byte -> bool)      (* a character class *)
| Seq (r1 r2 : regex)
| Alt (r1 r2 : regex)
| Star (r : regex)            (* greedy repetition *)
| Plus (r : regex).

(** Greedy iteration of [step]; an iteration that consumes nothing ends
    the repetition.  Every further iteration starts from a shorter string,
    so a [fuel] above the length of [s] is never used up. *)
Fixpoint star_loop (step : bytes -> list bytes) (fuel : nat) (s : bytes)
  : list bytes :=
  match fuel with
  | O => [s]
  | S f =>
      flat_map
        (fun s' =>
           if (length s' <? length s)%nat then star_loop step f s' else [s'])
        (step s) ++ [s]
  end.

Fixpoint rmatch (r : regex) (s : bytes) : list bytes :=
  match r with
  | Cls p =>
      match s with
      | c :: t => if p c then [t] else []
      | [] => []
      end
  | Seq r1 r2 => flat_map (rmatch r2) (rmatch r1 s)
  | Alt r1 r2 => rmatch r1 s ++ rmatch r2 s
  | Star r1 => star_loop (rmatch r1) (S (length s)) s
  | Plus r1 =>
      flat_map (fun s' => star_loop (rmatch r1) (S (length s')) s')
        (rmatch r1 s)
  end.

(** The successive non-overlapping matches, scanning from the left.
    [skip] counts the characters of the current match still to pass. *)
Fixpoint find_loop (r : regex) (skip : nat) (s : bytes) : list bytes :=
  match s with
  | [] => []
  | _ :: t =>
      match skip with
      | S k => find_loop r k t
      | O =>
          match rmatch r s with
          | rest :: _ =>
              let m := (length s - length rest)%nat in
              firstn m s :: find_loop r (m - 1) t
          | [] => find_loop r 0 t
          end
      end
  end.

(** [re.FindAllStringSubmatch(s, -1)], reduced to the text [m[0]] of each
    match [m]: the reader uses nothing else.  The empty list is Go's [nil].
    (Neither pattern of the reader matches the empty string.) *)
Definition FindAllStringSubmatch (r : regex) (s : bytes) : list bytes :=
  find_loop r 0 s.

Definition digit (c : byte) : bool := (48 <=? bz c) && (bz c <=? 57).

Definition word (c : byte) : bool :=
  digit c || ((65 <=? bz c) && (bz c <=? 90)) ||
  ((97 <=? bz c) && (bz c <=? 122)) || Byte.eqb c "_".

Definition dot (c : byte) : bool := Byte.eqb c ".".

Definition sign (c : byte) : bool := Byte.eqb c "+" || Byte.eqb c "-".

End regexp.

(** ** [strings.TrimSpace] *)

Module strings.

(** The UTF-8 encodings of the characters with Unicode's White_Space
    property. *)
Definition spaces : list bytes :=
  [[x09]; [x0a]; [x0b]; [x0c]; [x0d]; [x20]; [xc2; x85]; [xc2; xa0];
   [xe1; x9a; x80];
   [xe2; x80; x80]; [xe2; x80; x81]; [xe2; x80; x82]; [xe2; x80; x83];
   [xe2; x80; x84]; [xe2; x80; x85]; [xe2; x80; x86]; [xe2; x80; x87];
   [xe2; x80; x88]; [xe2; x80; x89]; [xe2; x80; x8a];
   [xe2; x80; xa8]; [xe2; x80; xa9]; [xe2; x80; xaf]; [xe2; x81; x9f];
   [xe3; x80; x80]].

Fixpoint strip_prefix (p s : bytes) : option bytes :=
  match p, s with
  | [], _ => Some s
  | a :: p', b :: s' => if Byte.eqb a b then strip_prefix p' s' else None
  | _ :: _, [] => None
  end.

(** The rest of [s] after one leading space of the list, if there is one. *)
Fixpoint strip_space (sp : list bytes) (s : bytes) : option bytes :=
  match sp with
  | [] => None
  | p :: sp' =>
      match strip_prefix p s with
      | Some t => Some t
      | None => strip_space sp' s
      end
  end.

Fixpoint trim_left (sp : list bytes) (fuel : nat) (s : bytes) : bytes :=
  match fuel with
  | O => s
  | S f =>
      match strip_space sp s with
      | Some t => trim_left sp f t
      | None => s
      end
  end.

Definition TrimLeftSpace (s : bytes) : bytes := trim_left spaces (length s) s.

Definition TrimRightSpace (s : bytes) : bytes :=
  rev (trim_left (map (@rev byte) spaces) (length s) (rev s)).

Definition TrimSpace (s : bytes) : bytes := TrimRightSpace (TrimLeftSpace s).

End strings.

(** ** [os.File] and [bufio.Reader]

    A file is the sequence of its unread bytes; a [Read] of a regular file
    fills the buffer it is given as far as the file reaches.  The
    [bufio.Reader] holds the bytes it has read ahead ([rbuf], the slice
    [b.buf[b.r:b.w]]) in a buffer of 4096 bytes. *)

Module bufio.

Record Reader := { rbuf : bytes; rsrc : bytes }.

Definition NewReader (file : bytes) : Reader := {| rbuf := []; rsrc := file |}.

Definition defaultBufSize : nat := 4096.

(** The bytes not yet delivered, buffered or not. *)
Definition pending (r : Reader) : bytes := rbuf r ++ rsrc r.

Fixpoint index_byte (c : byte) (s : bytes) : option nat :=
  match s with
  | [] => None
  | b :: t =>
      if Byte.eqb b c then Some O
      else match index_byte c t with Some i => Some (S i) | None => None end
  end.

(** [ReadString]: one round of the loop of [ReadSlice] and
    [collectFragments] per unit of fuel.  At the end of the file before a
    delimiter the error is [io.EOF]; the partial line Go returns with it is
    dropped, no caller looks at it. *)
Fixpoint ReadString_loop (fuel : nat) (delim : byte) (acc : bytes)
    (r : Reader) : outcome (bytes * Reader) :=
  match fuel with
  | O => OutOfFuel
  | S f =>
      match index_byte delim (rbuf r) with
      | Some i =>
          Ok (acc ++ firstn (S i) (rbuf r),
              {| rbuf := skipn (S i) (rbuf r); rsrc := rsrc r |})
      | None =>
          if (defaultBufSize <=? length (rbuf r))%nat then
            (* ErrBufferFull: the fragment is kept, the buffer emptied *)
            ReadString_loop f delim (acc ++ rbuf r)
              {| rbuf := []; rsrc := rsrc r |}
          else
            match rsrc r with
            | [] => Err EOF
            | _ =>
                (* fill *)
                let n := (defaultBufSize - length (rbuf r))%nat in
                ReadString_loop f delim acc
                  {| rbuf := rbuf r ++ firstn n (rsrc r);
                     rsrc := skipn n (rsrc r) |}
            end
      end
  end.

Definition ReadString (delim : byte) (r : Reader)
  : outcome (bytes * Reader) :=
  ReadString_loop (2 * length (rsrc r) + 2) delim [] r.

(** [Read(p)] with [n = len(p)]: the bytes copied into [p], the error, and
    the reader afterwards.  At most one read of the file is made, so fewer
    than [n] bytes may be returned. *)
Definition Read (n : nat) (r : Reader) : bytes * option error * Reader :=
  match n with
  | O => ([], None, r)
  | _ =>
      match rbuf r with
      | [] =>
          match rsrc r with
          | [] => ([], Some EOF, r)
          | _ =>
              if (defaultBufSize <=? n)%nat then
                (firstn n (rsrc r), None,
                 {| rbuf := []; rsrc := skipn n (rsrc r) |})
              else
                let b := firstn defaultBufSize (rsrc r) in
                (firstn n b, None,
                 {| rbuf := skipn n b;
                    rsrc := skipn defaultBufSize (rsrc r) |})
          end
      | b => (firstn n b, None, {| rbuf := skipn n b; rsrc := rsrc r |})
      end
  end.

End bufio.

(** ** [io.ReadFull] and [encoding/binary] *)

Module io.

(** [ReadFull(r, buf)] with [len(buf) = need + length acc]: reads until the
    buffer is full; [io.EOF] if nothing could be read, and
    [io.ErrUnexpectedEOF] after a partial read. *)
Fixpoint ReadFull_loop (fuel need : nat) (acc : bytes) (r : bufio.Reader)
  : outcome (bytes * bufio.Reader) :=
  match need with
  | O => Ok (acc, r)
  | _ =>
      match fuel with
      | O => OutOfFuel
      | S f =>
          let '(got, e, r') := bufio.Read need r in
          match e with
          | Some _ =>
              match acc ++ got with
              | [] => Err EOF
              | _ => Err ErrUnexpectedEOF
              end
          | None =>
              ReadFull_loop f (need - length got) (acc ++ got) r'
          end
      end
  end.

Definition ReadFull (n : nat) (r : bufio.Reader)
  : outcome (bytes * bufio.Reader) :=
  ReadFull_loop (S n) n [] r.

End io.

Module binary.

Inductive ByteOrder := LittleEndian | BigEndian.

(** [order.Uint32(b)] *)
Definition Uint32 (o : ByteOrder) (b : bytes) : Z :=
  match b with
  | [b0; b1; b2; b3] =>
      match o with
      | LittleEndian =>
          Z.lor (Z.lor (Z.lor (bz b0) (Z.shiftl (bz b1) 8))
                   (Z.shiftl (bz b2) 16)) (Z.shiftl (bz b3) 24)
      | BigEndian =>
          Z.lor (Z.lor (Z.lor (bz b3) (Z.shiftl (bz b2) 8))
                   (Z.shiftl (bz b1) 16)) (Z.shiftl (bz b0) 24)
      end
  | _ => 0
  end.

(** The [w] bytes that [binary.Write(buf, binary.LittleEndian, &t)] writes
    for a fixed-size value with bit pattern [v]. *)
Definition le_bytes (w : nat) (v : Z) : bytes :=
  map (fun i => zb (Z.shiftr (v mod 2 ^ (8 * Z.of_nat w)) (8 * Z.of_nat i)))
      (seq 0 w).

(** [binary.Read(r, order, &num)] for [num uint32].  The four bytes are
    read first; a nil [order] panics when they are decoded. *)
Definition Read_uint32 (order : option ByteOrder) (r : bufio.Reader)
  : outcome (Z * bufio.Reader) :=
  match io.ReadFull 4 r with
  | Ok (bs, r') =>
      match order with
      | Some o => Ok (Uint32 o bs, r')
      | None => Panic NilByteOrder
      end
  | Err e => Err e
  | Panic p => Panic p
  | OutOfFuel => OutOfFuel
  end.

End binary.

(** ** Slices with capacity, and [bytes.Buffer]

    A [[]byte] that the code appends to is modelled with its backing array:
    [arr] is the array from the first element of the slice to its capacity,
    [len] the length of the slice. *)

Record slice := { arr : bytes; len : nat }.

Definition cap (s : slice) : nat := length (arr s).

(** The elements of the slice. *)
Definition contents (s : slice) : bytes := firstn (len s) (arr s).

(** [make([]byte, n)] *)
Definition make (n : nat) : slice := {| arr := zeros n; len := n |}.

Definition make_Z (n : Z) : outcome slice :=
  if n <? 0 then Panic (MakeSliceLen n) else Ok (make (Z.to_nat n)).

(** The elements of a possibly nil slice. *)
Definition elems (s : option slice) : bytes :=
  match s with
  | Some s => contents s
  | None => []
  end.

Module bytes_Buffer.

(** [bytes.NewBuffer(b)]: the buffer takes [b] as its contents and shares
    its backing array. *)
Definition NewBuffer (b : slice) : slice := b.

(** [buf.Write(p)] appends [p] after the contents of the buffer.  If the
    capacity suffices the backing array is written in place, otherwise the
    buffer moves to a new array and the old one is left as it was.  The
    result is the slice of the buffer and the state of the array it had on
    entry. *)
Definition Write (buf : slice) (p : bytes) : slice * bytes :=
  let l := len buf in
  let n := length p in
  if (n <=? cap buf - l)%nat then
    let a := firstn l (arr buf) ++ p ++ skipn (l + n) (arr buf) in
    ({| arr := a; len := (l + n)%nat |}, a)
  else
    let c := Nat.max (l + n) (2 * cap buf) in
    ({| arr := contents buf ++ p ++ zeros (c - (l + n)); len := (l + n)%nat |},
     arr buf).

End bytes_Buffer.

(** ** The data model of reader.go *)

Record Property := {
  Name : bytes;
  IsList : bool;
  Data : list (option slice);   (* [][]byte; [None] is a nil row *)
  Type_ : bytes;
  ListSizeType : bytes;
  pos : Z
}.

Record Element := {
  Element_Name : bytes;
  Properties : list Property;
  Size : Z
}.

Definition BinaryBigEndian : Z := 0.
Definition BinaryLittleEndian : Z := 1.
Definition Ascii : Z := 2.

Record PLY := {
  Elements : list Element;
  FileType : Z;
  ObjInfoItems : option (list (bytes * bytes));   (* a map, nil at first *)
  currentLine : Z;
  filename : bytes;
  reader : bufio.Reader;
  byteOrder : option binary.ByteOrder
}.

(** The zero value [PLY{}] (its nil reader has nothing to read). *)
Definition new_PLY : PLY :=
  {| Elements := []; FileType := 0; ObjInfoItems := None; currentLine := 0;
     filename := ""; reader := bufio.NewReader []; byteOrder := None |}.

(** [new(Property)] and [new(Element)] *)
Definition new_Property : Property :=
  {| Name := ""; IsList := false; Data := []; Type_ := "";
     ListSizeType := ""; pos := 0 |}.

Definition new_Element : Element :=
  {| Element_Name := ""; Properties := []; Size := 0 |}.

Definition set_Data (p : Property) (d : list (option slice)) : Property :=
  {| Name := Name p; IsList := IsList p; Data := d; Type_ := Type_ p;
     ListSizeType := ListSizeType p; pos := pos p |}.

Definition set_Properties (e : Element) (ps : list Property) : Element :=
  {| Element_Name := Element_Name e; Properties := ps; Size := Size e |}.

Definition set_reader (p : PLY) (r : bufio.Reader) : PLY :=
  {| Elements := Elements p; FileType := FileType p;
     ObjInfoItems := ObjInfoItems p; currentLine := currentLine p;
     filename := filename p; reader := r; byteOrder := byteOrder p |}.

Definition set_Elements (p : PLY) (es : list Element) : PLY :=
  {| Elements := es; FileType := FileType p;
     ObjInfoItems := ObjInfoItems p; currentLine := currentLine p;
     filename := filename p; reader := reader p; byteOrder := byteOrder p |}.

Definition set_byteOrder (p : PLY) (o : binary.ByteOrder) : PLY :=
  {| Elements := Elements p; FileType := FileType p;
     ObjInfoItems := ObjInfoItems p; currentLine := currentLine p;
     filename := filename p; reader := reader p; byteOrder := Some o |}.

(** [m[k] = v] on a Go map kept as an association list. *)
Fixpoint map_set (m : list (bytes * bytes)) (k v : bytes)
  : list (bytes * bytes) :=
  match m with
  | [] => [(k, v)]
  | (k', v') :: m' =>
      if k' == k then (k, v) :: m' else (k', v') :: map_set m' k v
  end.

(** [e.Error()] *)
Definition Error (e : error) : bytes :=
  match e with
  | EOF => "EOF"
  | ErrUnexpectedEOF => "unexpected EOF"
  | NumError fn num k =>
      "strconv." ++ fn ++ ": parsing " ++ [x22] ++ num ++ [x22] ++ ": " ++
      match k with
      | ErrSyntax => "invalid syntax"
      | ErrRange => "value out of range"
      end
  | PathError op path => op ++ " " ++ path ++ ": no such file or directory"
  | errorString msg => msg
  end.

Notation "x <- m ;; k" := (obind m (fun x => k))
  (at level 61, m at next level, right associativity).
Notation "' pat <- m ;; k" := (obind m (fun x => let 'pat := x in k))
  (at level 61, pat pattern, m at next level, right associativity).

(** ** The text codec: [toType] *)

Definition strip (s : bytes) : bytes := strings.TrimSpace s.

Definition readLine (r : bufio.Reader) : outcome (bytes * bufio.Reader) :=
  '(line, r') <- bufio.ReadString x0a r ;;
  Ok (strip line, r').

(** The common tail of every case of [toType], for a value with bit
    pattern [t] and width [w]:
    [b := make([]byte, w); buf := bytes.NewBuffer(b);
     binary.Write(buf, binary.LittleEndian, &t); return b, nil].
    The buffer starts with the [w] bytes of [b] as its contents, so the
    write appends after them; [b] is returned with its own length. *)
Definition write_value (w : nat) (t : Z) : outcome (option slice) :=
  let b := make w in
  let buf := bytes_Buffer.NewBuffer b in
  let '(_, a) := bytes_Buffer.Write buf (binary.le_bytes w t) in
  Ok (Some {| arr := a; len := len b |}).

Definition toType (data typeName : bytes) : outcome (option slice) :=
  if is_type 1 typeName then
    n <- strconv.ParseInt data 0 8 ;; write_value 1 n
  else if is_type 2 typeName then
    n <- strconv.ParseInt data 0 16 ;; write_value 2 n
  else if is_type 3 typeName then
    n <- strconv.ParseInt data 0 32 ;; write_value 4 n
  else if is_type 4 typeName then
    u <- strconv.ParseUint data 0 8 ;; write_value 1 u
  else if is_type 5 typeName then
    u <- strconv.ParseUint data 0 16 ;; write_value 2 u
  else if is_type 6 typeName then
    u <- strconv.ParseUint data 0 32 ;; write_value 4 u
  else if is_type 7 typeName then
    f <- strconv_float.ParseFloat data 32 ;;
    write_value 4 (math.bits math.binary32 f)
  else if is_type 8 typeName then
    f <- strconv_float.ParseFloat data 64 ;;
    write_value 8 (math.bits math.binary64 f)
  else Ok None.

Definition itoa (n : Z) : bytes := strconv.Itoa n.

(** ** The header grammar: [parseHeader] *)

Import regexp.

(** The pattern of [wordMatcher]: a number, (\d+)* \.* \d+ , or else a
    word, \w+ . *)
Definition wordMatcher : regex :=
  Alt (Seq (Star (Plus (Cls digit))) (Seq (Star (Cls dot)) (Plus (Cls digit))))
      (Plus (Cls word)).

(** The pattern of [numMatcher]: signs [+-]* , then ([0-9]* )+ , dots \.* ,
    and digits [0-9]+ . *)
Definition numMatcher : regex :=
  Seq (Star (Cls sign))
    (Seq (Plus (Star (Cls digit)))
       (Seq (Star (Cls dot)) (Plus (Cls digit)))).

Definition incorrect_format (p : PLY) : error :=
  errorString ("Incorrect format in " ++ filename p ++ " at line " ++
               itoa (currentLine p)).

(** The state of the loop of [parseHeader]: the document, [currentElem]
    and [propPos]. *)
Record header_state := {
  hs_ply : PLY;
  currentElem : Z;
  propPos : Z
}.

Definition next_line (p : PLY) (r : bufio.Reader) : PLY :=
  {| Elements := Elements p; FileType := FileType p;
     ObjInfoItems := ObjInfoItems p; currentLine := currentLine p + 1;
     filename := filename p; reader := r; byteOrder := byteOrder p |}.

(** One header line after the format line: [None] when the line is
    [end_header], otherwise the next state. *)
Definition header_line (words : list bytes) (st : header_state)
  : outcome (option header_state) :=
  let p := hs_ply st in
  w0 <- index words 0 ;;
  if w0 == "comment" then Ok (Some st)
  else if w0 == "element" then
    elemName <- index words 1 ;;
    w2 <- index words 2 ;;
    match strconv.ParseInt w2 0 32 with
    | Ok num =>
        let elem :=
          {| Element_Name := elemName; Properties := []; Size := num |} in
        Ok (Some {| hs_ply := set_Elements p (Elements p ++ [elem]);
                    currentElem := currentElem st + 1;
                    propPos := 0 |})
    | Err e =>
        Err (errorString (Error e ++ filename p ++ " at line " ++
                          itoa (currentLine p)))
    | Panic x => Panic x
    | OutOfFuel => OutOfFuel
    end
  else if w0 == "property" then
    currWord <- index words 1 ;;
    '(isList, listSizeType, currWord, cnt) <-
      (if currWord == "list" then
         lst <- index words 2 ;;
         w <- index words 3 ;;
         Ok (true, lst, w, 3)
       else Ok (false, "", currWord, 1)) ;;
    propName <- index words (cnt + 1) ;;
    let prop :=
      {| Name := propName; IsList := isList; Data := []; Type_ := currWord;
         ListSizeType := listSizeType; pos := propPos st |} in
    elem <- index (Elements p) (currentElem st) ;;
    es <- store (Elements p) (currentElem st)
            (set_Properties elem (Properties elem ++ [prop])) ;;
    Ok (Some {| hs_ply := set_Elements p es;
                currentElem := currentElem st;
                propPos := propPos st + 1 |})
  else if w0 == "obj_info" then
    k <- index words 1 ;;
    v <- index words 2 ;;
    let m := match ObjInfoItems p with Some m => m | None => [] end in
    Ok (Some {| hs_ply :=
                  {| Elements := Elements p; FileType := FileType p;
                     ObjInfoItems := Some (map_set m k v);
                     currentLine := currentLine p; filename := filename p;
                     reader := reader p; byteOrder := byteOrder p |};
                currentElem := currentElem st;
                propPos := propPos st |})
  else if w0 == "end_header" then Ok None
  else Ok (Some st).

(** The [for] loop of [parseHeader]; every round reads a line. *)
Fixpoint header_loop (fuel : nat) (st : header_state) : outcome PLY :=
  match fuel with
  | O => OutOfFuel
  | S f =>
      let p := hs_ply st in
      '(line, r) <- readLine (reader p) ;;
      let st1 := {| hs_ply := next_line p r;
                    currentElem := currentElem st;
                    propPos := propPos st |} in
      let words := FindAllStringSubmatch wordMatcher line in
      o <- header_line words st1 ;;
      match o with
      | None => Ok (hs_ply st1)
      | Some st2 => header_loop f st2
      end
  end.

Definition set_FileType (p : PLY) (t : Z) : PLY :=
  {| Elements := Elements p; FileType := t;
     ObjInfoItems := ObjInfoItems p; currentLine := currentLine p;
     filename := filename p; reader := reader p; byteOrder := byteOrder p |}.

(** [parseHeader(p)]: the document after the header, or the error. *)
Definition parseHeader (p : PLY) : outcome PLY :=
  '(line, r) <- readLine (reader p) ;;
  if negb (line == "ply") then
    Err (errorString (filename p ++ " is not a ply file."))
  else
    let p := next_line p r in
    '(line, r) <- readLine (reader p) ;;
    let p := next_line p r in
    let words := FindAllStringSubmatch wordMatcher line in
    if negb (length words =? 3)%nat then Err (incorrect_format p)
    else
      w0 <- index words 0 ;;
      if negb (w0 == "format") then Err (incorrect_format p)
      else
        w1 <- index words 1 ;;
        p <- (if w1 == "ascii" then Ok (set_FileType p Ascii)
              else if w1 == "binary_big_endian"
                   then Ok (set_FileType p BinaryBigEndian)
              else if w1 == "binary_little_endian"
                   then Ok (set_FileType p BinaryLittleEndian)
              else Err (incorrect_format p)) ;;
        header_loop (S (length (bufio.pending (reader p))))
          {| hs_ply := p; currentElem := -1; propPos := 0 |}.

(** ** [appendBytes] *)

Definition appendBytes (s : slice) (data : bytes) : slice :=
  let l := len s in
  let n := length data in
  let s1 :=
    if (cap s <? l + n)%nat then
      (* newSlice := make([]byte, (l+len(data))*2), filled from slice *)
      {| arr := contents s ++ zeros ((l + n) * 2 - l);
         len := ((l + n) * 2)%nat |}
    else s in
  (* slice = slice[0 : l+len(data)], then data is copied in at l *)
  {| arr := firstn l (arr s1) ++ data ++ skipn (l + n) (arr s1);
     len := (l + n)%nat |}.

(** ** The binary codec: [toBType] *)

(** [b = make([]byte, n); rd.Read(b); return b, nil]: what the read
    delivers overwrites the start of [b]; its count and its error are
    dropped. *)
Definition read_value (n : nat) (rd : bufio.Reader)
  : outcome (option slice * bufio.Reader) :=
  let b := make n in
  let '(got, _, rd') := bufio.Read n rd in
  Ok (Some {| arr := got ++ skipn (length got) (arr b); len := len b |}, rd').

Definition toBType (rd : bufio.Reader) (typeName : bytes)
  : outcome (option slice * bufio.Reader) :=
  if is_type 1 typeName then read_value 1 rd
  else if is_type 2 typeName then read_value 2 rd
  else if is_type 3 typeName then read_value 4 rd
  else if is_type 4 typeName then read_value 1 rd
  else if is_type 5 typeName then read_value 2 rd
  else if is_type 6 typeName then read_value 4 rd
  else if is_type 7 typeName then read_value 4 rd
  else if is_type 8 typeName then read_value 8 rd
  else Ok (None, rd).

(** ** The body decoder, binary: [parseBinary] *)

(** [prop.Data = make([][]byte, elem.Size)] for every property. *)
Fixpoint alloc_Data (size : Z) (props : list Property)
  : outcome (list Property) :=
  match props with
  | [] => Ok []
  | prop :: rest =>
      if size <? 0 then Panic (MakeSliceLen size)
      else
        rest' <- alloc_Data size rest ;;
        Ok (set_Data prop (repeat None (Z.to_nat size)) :: rest')
  end.

(** [for j := 0; j < numSize; j++ { b, e := toBType(r, prop.Type); ...;
    l = appendBytes(l, b) }] *)
Fixpoint binary_list_values (n : nat) (typeName : bytes) (l : slice)
    (r : bufio.Reader) : outcome (slice * bufio.Reader) :=
  match n with
  | O => Ok (l, r)
  | S n' =>
      '(b, r1) <- toBType r typeName ;;
      binary_list_values n' typeName (appendBytes l (elems b)) r1
  end.

(** The values of a list once its count [numSize] is known. *)
Definition binary_list (numSize : Z) (typeName : bytes) (r : bufio.Reader)
  : outcome (option slice * bufio.Reader) :=
  l <- make_Z (numSize * SizeOfType typeName) ;;
  '(l, r1) <- binary_list_values (Z.to_nat numSize) typeName l r ;;
  Ok (Some l, r1).

(** The value of one property of one row. *)
Definition binary_prop (order : option binary.ByteOrder) (prop : Property)
    (r : bufio.Reader) : outcome (option slice * bufio.Reader) :=
  if IsList prop then
    '(num, r1) <- binary.Read_uint32 order r ;;
    binary_list num (Type_ prop) r1
  else toBType r (Type_ prop).

(** [for _, prop := range elem.Properties { ...; prop.Data[i] = ... }] *)
Fixpoint binary_row (order : option binary.ByteOrder) (i : Z)
    (props : list Property) (r : bufio.Reader)
  : outcome (list Property * bufio.Reader) :=
  match props with
  | [] => Ok ([], r)
  | prop :: rest =>
      '(v, r1) <- binary_prop order prop r ;;
      d <- store (Data prop) i v ;;
      '(rest', r2) <- binary_row order i rest r1 ;;
      Ok (set_Data prop d :: rest', r2)
  end.

(** [for i := 0; i < elem.Size; i++], with [n] rows left from row [i]. *)
Fixpoint binary_rows (order : option binary.ByteOrder) (n : nat) (i : Z)
    (props : list Property) (r : bufio.Reader)
  : outcome (list Property * bufio.Reader) :=
  match n with
  | O => Ok (props, r)
  | S n' =>
      '(props', r1) <- binary_row order i props r ;;
      binary_rows order n' (i + 1) props' r1
  end.

Fixpoint binary_elements (order : option binary.ByteOrder)
    (es : list Element) (r : bufio.Reader)
  : outcome (list Element * bufio.Reader) :=
  match es with
  | [] => Ok ([], r)
  | elem :: rest =>
      props <- alloc_Data (Size elem) (Properties elem) ;;
      '(props', r1) <- binary_rows order (Z.to_nat (Size elem)) 0 props r ;;
      '(rest', r2) <- binary_elements order rest r1 ;;
      Ok (set_Properties elem props' :: rest', r2)
  end.

Definition parseBinary (p : PLY) : outcome PLY :=
  '(es, r) <- binary_elements (byteOrder p) (Elements p) (reader p) ;;
  Ok (set_reader (set_Elements p es) r).

Definition parseBinaryBigEndian (p : PLY) : outcome PLY :=
  parseBinary (set_byteOrder p binary.BigEndian).

Definition parseBinaryLittleEndian (p : PLY) : outcome PLY :=
  parseBinary (set_byteOrder p binary.LittleEndian).

(** ** The body decoder, text: [parseASCII] *)

(** [for j := 0; j < numSize; j++ { b, e := toType(words[currWord][0],
    prop.Type); ...; l = appendBytes(l, b); currWord++ }] *)
Fixpoint ascii_list_values (n : nat) (words : list bytes) (currWord : Z)
    (typeName : bytes) (l : slice) : outcome (slice * Z) :=
  match n with
  | O => Ok (l, currWord)
  | S n' =>
      w <- index words currWord ;;
      b <- toType w typeName ;;
      ascii_list_values n' words (currWord + 1) typeName
        (appendBytes l (elems b))
  end.

(** The value of one property of one row, and [currWord] afterwards.  A
    scalar property reads [words[currWord]] and leaves [currWord] as it
    is. *)
Definition ascii_prop (words : list bytes) (currWord : Z) (prop : Property)
  : outcome (option slice * Z) :=
  if IsList prop then
    w <- index words currWord ;;
    num <- strconv.ParseInt w 10 32 ;;
    let numSize := num in
    let currWord := currWord + 1 in
    l <- make_Z (numSize * SizeOfType (Type_ prop)) ;;
    '(l, currWord) <-
      ascii_list_values (Z.to_nat numSize) words currWord (Type_ prop) l ;;
    Ok (Some l, currWord)
  else
    w <- index words currWord ;;
    b <- toType w (Type_ prop) ;;
    Ok (b, currWord).

Fixpoint ascii_props (words : list bytes) (currWord : Z) (i : Z)
    (props : list Property) : outcome (list Property) :=
  match props with
  | [] => Ok []
  | prop :: rest =>
      '(v, currWord) <- ascii_prop words currWord prop ;;
      d <- store (Data prop) i v ;;
      rest' <- ascii_props words currWord i rest ;;
      Ok (set_Data prop d :: rest')
  end.

(** One row: a line is read and its numeric tokens are handed to the
    properties; a line without tokens is passed over. *)
Definition ascii_row (i : Z) (props : list Property) (r : bufio.Reader)
  : outcome (list Property * bufio.Reader) :=
  '(line, r1) <- readLine r ;;
  let words := FindAllStringSubmatch numMatcher line in
  match words with
  | [] => Ok (props, r1)
  | _ =>
      props' <- ascii_props words 0 i props ;;
      Ok (props', r1)
  end.

Fixpoint ascii_rows (n : nat) (i : Z) (props : list Property)
    (r : bufio.Reader) : outcome (list Property * bufio.Reader) :=
  match n with
  | O => Ok (props, r)
  | S n' =>
      '(props', r1) <- ascii_row i props r ;;
      ascii_rows n' (i + 1) props' r1
  end.

Fixpoint ascii_elements (es : list Element) (r : bufio.Reader)
  : outcome (list Element * bufio.Reader) :=
  match es with
  | [] => Ok ([], r)
  | elem :: rest =>
      props <- alloc_Data (Size elem) (Properties elem) ;;
      '(props', r1) <- ascii_rows (Z.to_nat (Size elem)) 0 props r ;;
      '(rest', r2) <- ascii_elements rest r1 ;;
      Ok (set_Properties elem props' :: rest', r2)
  end.

Definition parseASCII (p : PLY) : outcome PLY :=
  let p := set_byteOrder p binary.LittleEndian in
  '(es, r) <- ascii_elements (Elements p) (reader p) ;;
  Ok (set_reader (set_Elements p es) r).

(** ** [Load] *)

(** The file system: the contents of the files that can be opened. *)
Definition file_system := bytes -> option bytes.

Definition Load (fs : file_system) (fname : bytes) (p : PLY) : outcome PLY :=
  let file := fs fname in
  let p :=
    {| Elements := Elements p; FileType := FileType p;
       ObjInfoItems := ObjInfoItems p; currentLine := currentLine p;
       filename := fname;
       reader := bufio.NewReader (match file with Some c => c | None => [] end);
       byteOrder := byteOrder p |} in
  match file with
  | None => Err (PathError "open" fname)
  | Some _ =>
      p <- parseHeader p ;;
      if FileType p =? BinaryBigEndian then parseBinaryBigEndian p
      else if FileType p =? BinaryLittleEndian then parseBinaryLittleEndian p
      else if FileType p =? Ascii then parseASCII p
      else Err (errorString "File type error")
  end.

(** ** Accessors *)

Definition VerticesCount (p : PLY) : Z :=
  match find (fun e => Element_Name e == "vertex") (Elements p) with
  | Some elem => Size elem
  | None => 0
  end.

Definition GetVertices (p : PLY) : option Element :=
  find (fun e => Element_Name e == "vertex") (Elements p).

(** [binary.Read(bytes.NewBuffer(v), order, &x)] for [x float32]: the new
    value of [x].  A row of fewer than four bytes leaves [x] as it is; the
    error is dropped. *)
Definition read_float32 (order : option binary.ByteOrder) (v : option slice)
    (x : spec_float) : outcome spec_float :=
  match elems v with
  | b0 :: b1 :: b2 :: b3 :: _ =>
      match order with
      | Some o =>
          Ok (math.frombits math.binary32 (binary.Uint32 o [b0; b1; b2; b3]))
      | None => Panic NilByteOrder
      end
  | _ => Ok x
  end.

(** [for _, v := range b { binary.Read(..., &data[j][i]); i++ }] *)
Fixpoint read_column (order : option binary.ByteOrder)
    (b : list (option slice)) (i : Z) (col : list spec_float)
  : outcome (list spec_float) :=
  match b with
  | [] => Ok col
  | v :: b' =>
      x <- index col i ;;
      y <- read_float32 order v x ;;
      col' <- store col i y ;;
      read_column order b' (i + 1) col'
  end.

Fixpoint read_columns (p : PLY) (elem : Element) (js : list Z)
  : outcome (list (list spec_float)) :=
  match js with
  | [] => Ok []
  | j :: js' =>
      prop <- index (Properties elem) j ;;
      col <- (if Size elem <? 0 then Panic (MakeSliceLen (Size elem))
              else Ok (repeat (S754_zero false) (Z.to_nat (Size elem)))) ;;
      col' <- read_column (byteOrder p) (Data prop) 0 col ;;
      cols <- read_columns p elem js' ;;
      Ok (col' :: cols)
  end.

(** [ReadVertices]: [None] is the nil result. *)
Definition ReadVertices (p : PLY) : outcome (option (list (list spec_float))) :=
  match find (fun e => Element_Name e == "vertex") (Elements p) with
  | Some elem =>
      data <- read_columns p elem [0; 1; 2] ;;
      Ok (Some data)
  | None => Ok None
  end.


(** ** Sample documents *)

Definition nl : bytes := [x0a].

(** A file system that holds the one file [a.ply]. *)
Definition one_file (content : bytes) : file_system :=
  fun name => if name == "a.ply" then Some content else None.

(** The minimal ASCII document: one vertex with x, y and z. *)
Definition minimal_ascii : bytes :=
  "ply" ++ nl ++
  "format ascii 1.0" ++ nl ++
  "element vertex 1" ++ nl ++
  "property float32 x" ++ nl ++
  "property float32 y" ++ nl ++
  "property float32 z" ++ nl ++
  "end_header" ++ nl ++
  "1.0 2.0 3.0" ++ nl.

(** One face with a list property; the body holds the count 3 in four
    bytes and the values 1, 2 and 3, all little-endian. *)
Definition list_header : bytes :=
  "ply" ++ nl ++
  "format binary_little_endian 1.0" ++ nl ++
  "element face 1" ++ nl ++
  "property list uint8 int32 ids" ++ nl ++
  "end_header" ++ nl.

Definition three_values : bytes :=
  [x01; x00; x00; x00; x02; x00; x00; x00; x03; x00; x00; x00].

Definition list_binary : bytes :=
  list_header ++ [x03; x00; x00; x00] ++ three_values.

(** The same, with the count in the one byte that [uint8] announces. *)
Definition list_binary_uint8 : bytes :=
  list_header ++ [x03] ++ three_values.

(** Two vertices of one [float32] each are declared; the body holds seven
    bytes instead of eight. *)
Definition truncated_binary : bytes :=
  "ply" ++ nl ++
  "format binary_little_endian 1.0" ++ nl ++
  "element vertex 2" ++ nl ++
  "property float32 x" ++ nl ++
  "end_header" ++ nl ++
  [x00; x00; x80; x3f; x00; x00; x80].

(** A vertex with a [uint8] and an [int8]; 200 fits the first only. *)
Definition two_scalars : bytes :=
  "ply" ++ nl ++
  "format ascii 1.0" ++ nl ++
  "element vertex 1" ++ nl ++
  "property uint8 x" ++ nl ++
  "property int8 y" ++ nl ++
  "end_header" ++ nl ++
  "200 -5" ++ nl.

(** A header with a [property] line before any [element] line. *)
Definition property_first : bytes :=
  "ply" ++ nl ++
  "format ascii 1.0" ++ nl ++
  "property float32 x" ++ nl ++
  "element vertex 1" ++ nl ++
  "end_header" ++ nl ++
  "1.0" ++ nl.

(** The rows of the property [j] of the element [i] of a document, as
    byte strings. *)
Definition rows_of (p : PLY) (i j : nat) : list (option bytes) :=
  match nth_error (Elements p) i with
  | Some elem =>
      match nth_error (Properties elem) j with
      | Some prop => map (option_map contents) (Data prop)
      | None => []
      end
  | None => []
  end.

Definition float32_of (n : Z) : spec_float := math.of_Z math.binary32 n.

Unset Implicit Arguments.

(** ** Notions used to state the properties *)

(** The width in bytes of the scalar type number [i] of the tables. *)
Definition width (i : nat) : nat := nth i [0; 1; 2; 4; 1; 2; 4; 4; 8]%nat 0%nat.

Definition type_names : list bytes := Types ++ OldTypes.

(** A slice is well formed when its length is within its capacity. *)
Definition wf_slice (s : slice) : Prop := (len s <= length (arr s))%nat.

(** A row is sound for a width when its length is a multiple of it. *)
Definition row_sound (w : Z) (row : option slice) : Prop :=
  forall s, row = Some s -> (w | Z.of_nat (length (contents s))).

(** A property is sound when, if it is a list of a recognized scalar type,
    all its rows are sound for the width of the type. *)
Definition prop_sound (prop : Property) : Prop :=
  IsList prop = true -> recognized (Type_ prop) = true ->
  Forall (row_sound (SizeOfType (Type_ prop))) (Data prop).

Definition elem_sound (elem : Element) : Prop :=
  Forall prop_sound (Properties elem).

(** The document that loading [list_binary] produces. *)
Definition loaded_list : PLY :=
  Eval vm_compute in
    match Load (one_file list_binary) "a.ply" new_PLY with
    | Ok p => p
    | _ => new_PLY
    end.


(** Row [i] of every property is unset: present, and nil. *)
Definition row_unset (i : Z) (props : list Property) : Prop :=
  Forall (fun prop => nth_error (Data prop) (Z.to_nat i) = Some None) props.

(** A list property, of any count type [lst]. *)
Definition list_property (name ty lst : bytes) (data : list (option slice))
    (ps : Z) : Property :=
  {| Name := name; IsList := true; Data := data; Type_ := ty;
     ListSizeType := lst; pos := ps |}.

(** The unsigned number that four bytes denote in a byte order. *)
Definition uint32_of (o : binary.ByteOrder) (b0 b1 b2 b3 : byte) : Z :=
  match o with
  | binary.LittleEndian =>
      bz b0 + bz b1 * 2 ^ 8 + bz b2 * 2 ^ 16 + bz b3 * 2 ^ 24
  | binary.BigEndian =>
      bz b3 + bz b2 * 2 ^ 8 + bz b1 * 2 ^ 16 + bz b0 * 2 ^ 24
  end.

(** One [float32] property [x] with a single unset row, and a body whose
    first line is empty. *)
Definition one_unset_row : list Property :=
  [{| Name := "x"; IsList := false; Data := [None; None]; Type_ := "float32";
      ListSizeType := ""; pos := 0 |}].

Definition empty_line_body : bufio.Reader :=
  bufio.NewReader (nl ++ "1.0" ++ nl).

(** ** Well-formed headers *)

(** A character that no class of the pattern accepts. *)
Fixpoint rejects (r : regex) (c : byte) : bool :=
  match r with
  | Cls p => negb (p c)
  | Seq r1 r2 | Alt r1 r2 => rejects r1 c && rejects r2 c
  | Star r1 | Plus r1 => rejects r1 c
  end.

(** The tokens of a header line. *)
Definition tokens (s : bytes) : list bytes :=
  FindAllStringSubmatch wordMatcher s.

(** Blank space inside a line: space, tab and carriage return. *)
Definition blank (c : byte) : bool :=
  Byte.eqb c " " || Byte.eqb c x09 || Byte.eqb c x0d.

Definition gap (g : bytes) : Prop := Forall (fun c => blank c = true) g.

(** An identifier: word characters, the first of them not a digit. *)
Definition is_ident (w : bytes) : bool :=
  match w with
  | c :: t => word c && negb (digit c) && forallb word t
  | [] => false
  end.

(** A decimal numeral without a leading zero, and its value. *)
Definition is_numeral (w : bytes) : bool :=
  match w with
  | [] => false
  | [c] => digit c
  | c :: t => digit c && negb (Byte.eqb c "0") && forallb digit t
  end.

Fixpoint decimal (w : bytes) (acc : Z) : Z :=
  match w with
  | [] => acc
  | c :: t => decimal t (acc * 10 + (bz c - 48))
  end.

(** The words a well-formed header line is made of. *)
Definition is_token (w : bytes) : bool :=
  is_ident w || is_numeral w || (w == "1.0").

(** [spaced ws l]: the line [l] (without its newline) holds the words [ws],
    with blank space between them and possibly around them. *)
Inductive spaced : list bytes -> bytes -> Prop :=
| spaced_nil g : gap g -> spaced [] g
| spaced_last g w : gap g -> spaced [w] (g ++ w)
| spaced_cons g w c ws t :
    gap g -> blank c = true -> spaced ws t ->
    spaced (w :: ws) (g ++ w ++ c :: t).

(** [x] is an end of [s]. *)
Definition is_suffix (x s : bytes) : Prop := exists pre, s = pre ++ x.

(** A character that cannot be part of a token of the header. *)
Definition rejected (c : byte) : Prop := rejects wordMatcher c = true.

(** The declarations of a header: elements with their properties.  The
    count of an element is the numeral that stands in the header. *)
Record PropDecl := {
  pd_list : option bytes;   (* the count type, for a list property *)
  pd_type : bytes;
  pd_name : bytes
}.

Record ElemDecl := {
  ed_name : bytes;
  ed_count : bytes;
  ed_props : list PropDecl
}.

Definition prop_words (d : PropDecl) : list bytes :=
  match pd_list d with
  | Some ct => ["property"; "list"; ct; pd_type d; pd_name d]
  | None => ["property"; pd_type d; pd_name d]
  end.

Definition elem_words (e : ElemDecl) : list bytes :=
  ["element"; ed_name e; ed_count e].

Definition wf_prop (d : PropDecl) : bool :=
  is_ident (pd_type d) && is_ident (pd_name d) &&
  match pd_list d with
  | Some ct => is_ident ct
  | None => negb (pd_type d == "list")
  end.

Definition wf_elem (e : ElemDecl) : bool :=
  is_ident (ed_name e) && is_numeral (ed_count e) &&
  (decimal (ed_count e) 0 <? 2 ^ 31) && forallb wf_prop (ed_props e).

(** A line that declares nothing: a comment, or an [obj_info] entry. *)
Inductive noise_line : bytes -> Prop :=
| comment_bare g : gap g -> noise_line (g ++ "comment")
| comment_text g c t :
    gap g -> blank c = true -> ~ In x0a t ->
    noise_line (g ++ "comment" ++ c :: t)
| obj_info_line k v l :
    is_token k = true -> is_token v = true ->
    spaced ["obj_info"; k; v] l -> noise_line l.

(** [props_text ds t]: the lines [t] declare the properties [ds]. *)
Inductive props_text : list PropDecl -> bytes -> Prop :=
| props_nil : props_text [] []
| props_noise l ds t :
    noise_line l -> props_text ds t -> props_text ds (l ++ x0a :: t)
| props_cons d ds l t :
    spaced (prop_words d) l -> props_text ds t ->
    props_text (d :: ds) (l ++ x0a :: t).

(** [elems_text es t]: the lines [t] declare the elements [es]. *)
Inductive elems_text : list ElemDecl -> bytes -> Prop :=
| elems_nil : elems_text [] []
| elems_noise l es t :
    noise_line l -> elems_text es t -> elems_text es (l ++ x0a :: t)
| elems_cons e es l tp t :
    spaced (elem_words e) l -> props_text (ed_props e) tp ->
    elems_text es t -> elems_text (e :: es) (l ++ x0a :: tp ++ t).

Definition mode_name (ft : Z) : bytes :=
  if ft =? Ascii then "ascii"
  else if ft =? BinaryBigEndian then "binary_big_endian"
  else "binary_little_endian".

Definition is_mode (ft : Z) : Prop :=
  ft = Ascii \/ ft = BinaryBigEndian \/ ft = BinaryLittleEndian.

(** [header_text ft es text]: [text] is a well-formed header of the
    encoding [ft] that declares the elements [es]. *)
Definition header_text (ft : Z) (es : list ElemDecl) (text : bytes) : Prop :=
  exists lf te le,
    spaced ["format"; mode_name ft; "1.0"] lf /\
    elems_text es te /\
    spaced ["end_header"] le /\
    text = "ply" ++ x0a :: lf ++ x0a :: te ++ le ++ [x0a].

(** The schema that the declarations describe. *)
Definition schema_prop (k : Z) (d : PropDecl) : Property :=
  {| Name := pd_name d;
     IsList := match pd_list d with Some _ => true | None => false end;
     Data := [];
     Type_ := pd_type d;
     ListSizeType := match pd_list d with Some ct => ct | None => "" end;
     pos := k |}.

Fixpoint schema_props (k : Z) (ds : list PropDecl) : list Property :=
  match ds with
  | [] => []
  | d :: ds' => schema_prop k d :: schema_props (k + 1) ds'
  end.

Definition schema_elem (e : ElemDecl) : Element :=
  {| Element_Name := ed_name e;
     Properties := schema_props 0 (ed_props e);
     Size := decimal (ed_count e) 0 |}.

(** Where the loop of [parseHeader] stands. *)
Definition at_state (st : header_state) (es : list Element) (ce pp ft : Z)
    (pend : bytes) : Prop :=
  Elements (hs_ply st) = es /\ currentElem st = ce /\ propPos st = pp /\
  FileType (hs_ply st) = ft /\ bufio.pending (reader (hs_ply st)) = pend.

(** The declarations of the header of [minimal_ascii], and its text. *)
Definition minimal_decls : list ElemDecl :=
  [{| ed_name := "vertex"; ed_count := "1";
      ed_props :=
        [{| pd_list := None; pd_type := "float32"; pd_name := "x" |};
         {| pd_list := None; pd_type := "float32"; pd_name := "y" |};
         {| pd_list := None; pd_type := "float32"; pd_name := "z" |}] |}].

Definition minimal_header : bytes :=
  "ply" ++ nl ++
  "format ascii 1.0" ++ nl ++
  "element vertex 1" ++ nl ++
  "property float32 x" ++ nl ++
  "property float32 y" ++ nl ++
  "property float32 z" ++ nl ++
  "end_header" ++ nl.

(** ** Further functions of reader.go *)

(** [Save] is a stub: it writes nothing and returns nil. *)
Definition Save (p : PLY) (fname : bytes) : option error := None.

Definition GetByteOrder (p : PLY) : option binary.ByteOrder := byteOrder p.

(** What [print] writes to the standard output. *)
Definition Property_print (p : Property) : bytes :=
  if IsList p then
    [x09] ++ "property list " ++ ListSizeType p ++ " " ++ Type_ p ++ " " ++
    Name p ++ [x0a]
  else [x09] ++ "property " ++ Type_ p ++ " " ++ Name p ++ [x0a].

Definition Element_print (e : Element) : bytes :=
  "element " ++ Element_Name e ++ [x0a].

(** ** Notions used to state further properties *)

(** The width in bytes of a recognized scalar type. *)
Definition type_width (t : bytes) : nat := Z.to_nat (SizeOfType t).

(** A scalar property of a recognized type that has a row [i]. *)
Definition scalar_at (i : Z) (prop : Property) : Prop :=
  IsList prop = false /\ recognized (Type_ prop) = true /\
  0 <= i < Z.of_nat (length (Data prop)).

(** The bytes one row of scalar properties takes. *)
Fixpoint row_width (props : list Property) : nat :=
  match props with
  | [] => 0
  | prop :: rest => type_width (Type_ prop) + row_width rest
  end.

(** The properties after row [i] was filled from the bytes [bs], each
    property taking the next bytes of its width. *)
Fixpoint scalar_row (i : Z) (props : list Property) (bs : bytes)
  : list Property :=
  match props with
  | [] => []
  | prop :: rest =>
      let w := type_width (Type_ prop) in
      set_Data prop
        (set_nth (Data prop) (Z.to_nat i)
           (Some {| arr := firstn w bs; len := w |}))
      :: scalar_row i rest (skipn w bs)
  end.

(** All bytes of a row are zero. *)
Definition row_zero (row : option slice) : Prop :=
  Forall (fun b => b = x00) (elems row).

(** Sample inputs. *)
Definition half_buffered : bufio.Reader :=
  {| bufio.rbuf := [x01; x02]; bufio.rsrc := [x03; x04; x05] |}.

Definition two_floats : list Property :=
  [{| Name := "x"; IsList := false; Data := [None]; Type_ := "float32";
      ListSizeType := ""; pos := 0 |};
   {| Name := "n"; IsList := false; Data := [None]; Type_ := "uchar";
      ListSizeType := ""; pos := 1 |}].

Definition five_buffered : bufio.Reader :=
  {| bufio.rbuf := [x00; x00; x80; x3f; x07; x09]; bufio.rsrc := [] |}.

(** The words of a format line that [parseHeader] accepts. *)
Definition format_ok (ws : list bytes) : bool :=
  match ws with
  | [w0; w1; _] =>
      (w0 == "format") &&
      ((w1 == "ascii") || (w1 == "binary_big_endian") ||
       (w1 == "binary_little_endian"))
  | _ => false
  end.

(** Every property of the element has one row for each of its instances. *)
Definition rows_complete (elem : Element) : Prop :=
  Forall (fun prop => Z.of_nat (length (Data prop)) = Size elem)
    (Properties elem).

(** Every row of every property of the element holds zero bytes only. *)
Definition rows_zero (elem : Element) : Prop :=
  Forall (fun prop => Forall row_zero (Data prop)) (Properties elem).

(** A property [Q] of the rows of a property, given the size of its
    element, whether it is a list, and its type; and the elements all of
    whose properties have it. *)
Definition prop_inv (Q : Z -> bool -> bytes -> list (option slice) -> Prop)
    (size : Z) (prop : Property) : Prop :=
  Q size (IsList prop) (Type_ prop) (Data prop).

Definition elem_inv (Q : Z -> bool -> bytes -> list (option slice) -> Prop)
    (elem : Element) : Prop :=
  Forall (prop_inv Q (Size elem)) (Properties elem).

(** Octal digits, and the value of a string of them. *)
Definition octal_digit (c : byte) : bool := (48 <=? bz c) && (bz c <=? 55).

Fixpoint octal (w : bytes) (acc : Z) : Z :=
  match w with
  | [] => acc
  | c :: t => octal t (acc * 8 + (bz c - 48))
  end.

Opaque bufio.defaultBufSize.

(** * Properties *)

(** ** The library models at work *)

Example ParseInt_dec : strconv.ParseInt "123" 0 32 = Ok 123.
Proof. reflexivity. Qed.

Example ParseInt_hex : strconv.ParseInt "-0x1F" 0 32 = Ok (-31).
Proof. reflexivity. Qed.

Example ParseInt_octal : strconv.ParseInt "010" 0 32 = Ok 8.
Proof. reflexivity. Qed.

Example ParseInt_range :
  strconv.ParseInt "128" 0 8 = Err (NumError "ParseInt" "128" ErrRange).
Proof. reflexivity. Qed.

Example ParseInt_min : strconv.ParseInt "-128" 0 8 = Ok (-128).
Proof. reflexivity. Qed.

Example ParseUint_neg :
  strconv.ParseUint "-1" 0 8 = Err (NumError "ParseUint" "-1" ErrSyntax).
Proof. reflexivity. Qed.

Example Itoa_2 : strconv.Itoa 2 = "2" /\ strconv.Itoa 4096 = "4096".
Proof. split; reflexivity. Qed.

Example bits_one : math.bits math.binary32 (math.of_Z math.binary32 1) = 0x3F800000.
Proof. reflexivity. Qed.

Example frombits_three :
  math.frombits math.binary32 0x40400000 = math.of_Z math.binary32 3.
Proof. reflexivity. Qed.

Example frombits_zero : math.frombits math.binary32 0 = S754_zero false.
Proof. reflexivity. Qed.

Example ParseFloat_1 : strconv_float.ParseFloat "1.0" 32 = Ok (math.of_Z math.binary32 1).
Proof. reflexivity. Qed.

Example ParseFloat_2 : strconv_float.ParseFloat "0.1" 32 = Ok (math.frombits math.binary32 0x3DCCCCCD).
Proof. reflexivity. Qed.

Example ParseFloat_3 : strconv_float.ParseFloat "0.1" 64 = Ok (math.frombits math.binary64 0x3FB999999999999A).
Proof. reflexivity. Qed.

Example ParseFloat_4 : strconv_float.ParseFloat "1e39" 32 = Err (NumError "ParseFloat" "1e39" ErrRange).
Proof. reflexivity. Qed.

Example ParseFloat_5 : strconv_float.ParseFloat "-2.5e-3" 64 = Ok (math.frombits math.binary64 0xBF647AE147AE147B).
Proof. reflexivity. Qed.

Example ParseFloat_6 : strconv_float.ParseFloat "0x1p-2" 64 = Ok (math.frombits math.binary64 0x3FD0000000000000).
Proof. reflexivity. Qed.

Example ParseFloat_7 : strconv_float.ParseFloat "abc" 64 = Err (NumError "ParseFloat" "abc" ErrSyntax).
Proof. reflexivity. Qed.

Example ParseFloat_8 : strconv_float.ParseFloat "1e-50" 32 = Ok (S754_zero false).
Proof. reflexivity. Qed.

Example ParseFloat_9 : strconv_float.ParseFloat "3.4028235e38" 32 = Ok (math.frombits math.binary32 0x7F7FFFFF).
Proof. reflexivity. Qed.

Example ParseFloat_10 : strconv_float.ParseFloat "1." 32 = Ok (math.of_Z math.binary32 1) /\ strconv_float.ParseFloat "." 32 = Err (NumError "ParseFloat" "." ErrSyntax) /\ strconv_float.ParseFloat "+Inf" 32 = Ok (S754_infinity false).
Proof. repeat split; reflexivity. Qed.

Example wordMatcher_format :
  FindAllStringSubmatch wordMatcher "format ascii 1.0" =
    ["format"; "ascii"; "1.0"].
Proof. vm_compute. reflexivity. Qed.

Example wordMatcher_mixed :
  FindAllStringSubmatch wordMatcher "  3abc x1.5 1.0.5 .. 12. _a" =
    ["3"; "abc"; "x1"; ".5"; "1.0"; ".5"; "12"; "_a"].
Proof. vm_compute. reflexivity. Qed.

Example numMatcher_mixed :
  FindAllStringSubmatch numMatcher "1.0 -2.0 +-3 .5 1e5 - 1..5 abc12" =
    ["1.0"; "-2.0"; "+-3"; ".5"; "1"; "5"; "1..5"; "12"].
Proof. vm_compute. reflexivity. Qed.

Example numMatcher_none : FindAllStringSubmatch numMatcher "abc - ." = [].
Proof. vm_compute. reflexivity. Qed.

Example TrimSpace_line :
  strings.TrimSpace (" ply" ++ [x09; x0d; x0a]) = "ply".
Proof. vm_compute. reflexivity. Qed.

Example TrimSpace_nbsp :
  strings.TrimSpace ([xc2; xa0] ++ "a b" ++ [xe2; x80; x89]) = "a b".
Proof. vm_compute. reflexivity. Qed.

Example ReadString_two_lines :
  bufio.ReadString x0a (bufio.NewReader ("ab" ++ nl ++ "cd")) =
    Ok ("ab" ++ nl, {| bufio.rbuf := "cd"; bufio.rsrc := [] |}) /\
  bufio.ReadString x0a {| bufio.rbuf := "cd"; bufio.rsrc := [] |} = Err EOF.
Proof. split; vm_compute; reflexivity. Qed.

Example appendBytes_grows :
  appendBytes (make 2) [x01] = {| arr := [x00; x00; x01; x00; x00; x00]; len := 3 |}.
Proof. vm_compute. reflexivity. Qed.


(** ** Byte strings *)

Lemma bytes_eqb_refl (a : bytes) : (a == a) = true.
Proof.
  induction a as [|x a IH]; simpl; [reflexivity|].
  rewrite IH, andb_true_r. apply byte_dec_lb. reflexivity.
Qed.

Lemma bytes_eqb_eq (a b : bytes) : (a == b) = true <-> a = b.
Proof.
  split.
  - revert b. induction a as [|x a IH]; intros [|y b] H; simpl in H;
      try discriminate; [reflexivity|].
    apply andb_true_iff in H. destruct H as [H1 H2].
    apply byte_dec_bl in H1. apply IH in H2. congruence.
  - intros ->. apply bytes_eqb_refl.
Qed.


Lemma bytes_eqb_sym (a b : bytes) : (a == b) = (b == a).
Proof.
  destruct (a == b) eqn:E1, (b == a) eqn:E2; try reflexivity.
  - apply bytes_eqb_eq in E1. subst. rewrite bytes_eqb_refl in E2. discriminate.
  - apply bytes_eqb_eq in E2. subst. rewrite bytes_eqb_refl in E1. discriminate.
Qed.

(** ** The type registry *)

Lemma type_name_cases (t : bytes) :
  In t type_names \/ Forall (fun n => (t == n) = false) type_names.
Proof.
  induction type_names as [|n ns IH].
  - right. constructor.
  - destruct (t == n) eqn:E.
    + left. left. apply bytes_eqb_eq in E. congruence.
    + destruct IH as [IH|IH]; [left; right; exact IH|right; constructor; assumption].
Qed.

Ltac type_cases t :=
  let H := fresh "H" in
  destruct (type_name_cases t) as [H|H];
  [ cbv [type_names Types OldTypes app In] in H;
    repeat (destruct H as [H|H]; [subst t|]); [..|contradiction]
  | cbv [type_names Types OldTypes app] in H;
    repeat match goal with
           | H : Forall _ (_ :: _) |- _ => inversion H; clear H; subst
           end ].

Lemma unrecognized_size (t : bytes) :
  recognized t = false -> SizeOfType t = 0.
Proof.
  intros R. type_cases t; try (vm_compute in R; discriminate);
    try reflexivity.
  unfold SizeOfType, SizeOfType_table, map_lookup.
  repeat match goal with
         | H : (t == ?n) = false |- _ =>
             rewrite (bytes_eqb_sym t n) in H; rewrite ?H; clear H
         end.
  reflexivity.
Qed.

Lemma recognized_size (t : bytes) :
  recognized t = true -> 0 < SizeOfType t.
Proof.
  intros R. type_cases t; try (vm_compute in R; discriminate);
    try reflexivity.
  exfalso. unfold recognized, is_type in R. simpl in R.
  repeat match goal with
         | H : (t == ?n) = false |- _ => rewrite ?H in R; clear H
         end.
  discriminate.
Qed.

(** ** Slices *)

Lemma length_zeros n : length (zeros n) = n.
Proof. apply repeat_length. Qed.

Lemma wf_make n : wf_slice (make n).
Proof. unfold wf_slice, make; simpl. rewrite length_zeros. lia. Qed.

Lemma contents_make n : contents (make n) = zeros n.
Proof.
  unfold contents, make; simpl. apply firstn_all2. rewrite length_zeros. lia.
Qed.

Lemma length_contents s : wf_slice s -> length (contents s) = len s.
Proof. unfold wf_slice, contents. intros H. rewrite length_firstn. lia. Qed.

Lemma firstn_exact {A} (a b : list A) : firstn (length a) (a ++ b) = a.
Proof.
  rewrite <- (Nat.add_0_r (length a)), firstn_app_2. simpl.
  apply app_nil_r.
Qed.

Lemma appendBytes_contents s data :
  wf_slice s ->
  contents (appendBytes s data) = contents s ++ data /\
  wf_slice (appendBytes s data).
Proof.
  intros W. pose proof (length_contents s W) as L.
  unfold appendBytes.
  set (l := len s) in *. set (n := length data).
  set (s1 := if (cap s <? l + n)%nat then _ else s).
  assert (A : firstn l (arr s1) = contents s /\ (l + n <= length (arr s1))%nat).
  { subst s1. destruct (cap s <? l + n)%nat eqn:E; simpl.
    - rewrite <- L at 1. rewrite firstn_exact. split; [reflexivity|].
      rewrite length_app, length_zeros, L. lia.
    - split; [reflexivity|]. apply Nat.ltb_ge in E. exact E. }
  destruct A as [A1 A2]. rewrite A1.
  unfold contents at 1, wf_slice; simpl. split.
  - replace (l + n)%nat with (length (contents s ++ data))
      by (rewrite length_app, L; reflexivity).
    rewrite app_assoc. apply firstn_exact.
  - rewrite !length_app, L, length_skipn. fold n. lia.
Qed.

Lemma length_elems_appendBytes s data :
  wf_slice s ->
  length (contents (appendBytes s data)) =
    (length (contents s) + length data)%nat.
Proof.
  intros W. destruct (appendBytes_contents s data W) as [E _].
  rewrite E, length_app. reflexivity.
Qed.

(** ** The codecs *)

Lemma length_le_bytes w v : length (binary.le_bytes w v) = w.
Proof. unfold binary.le_bytes. rewrite length_map, length_seq. reflexivity. Qed.

(** The value never reaches the bytes that [toType] returns. *)
Lemma write_value_zeros w t :
  (0 < w)%nat -> write_value w t = Ok (Some (make w)).
Proof.
  intros W. unfold write_value, bytes_Buffer.Write, bytes_Buffer.NewBuffer.
  rewrite length_le_bytes. unfold cap. simpl. rewrite length_zeros.
  replace (w <=? w - w)%nat with false
    by (symmetry; apply Nat.leb_gt; lia).
  reflexivity.
Qed.

Lemma is_type_size i t :
  is_type i t = true -> (1 <= i <= 8)%nat ->
  SizeOfType t = Z.of_nat (width i) /\ recognized t = true.
Proof.
  intros H R. unfold is_type in H. apply orb_true_iff in H.
  assert (C : (i = 1 \/ i = 2 \/ i = 3 \/ i = 4 \/ i = 5 \/ i = 6 \/ i = 7 \/ i = 8)%nat) by lia.
  repeat (destruct C as [C|C]; [subst i|]); try subst i;
    destruct H as [H|H]; apply bytes_eqb_eq in H; subst t;
    split; reflexivity.
Qed.

(** What [toType] returns when it returns: no bytes for a type it does not
    know, and [width] zero bytes for a type it knows. *)
Lemma toType_result data t b :
  toType data t = Ok b ->
  b = if recognized t
      then Some (make (Z.to_nat (SizeOfType t)))
      else None.
Proof.
  unfold toType. intros H.
  repeat match type of H with
  | (if is_type ?i t then _ else _) = _ =>
      let E := fresh "E" in
      destruct (is_type i t) eqn:E;
      [ destruct (is_type_size i t E ltac:(lia)) as [-> ->];
        match type of H with
        | obind ?m _ = _ => destruct m; simpl in H; try discriminate
        end;
        rewrite write_value_zeros in H by (simpl; lia);
        injection H as <-; reflexivity
      | ]
  end.
  injection H as <-.
  replace (recognized t) with false; [reflexivity|].
  unfold recognized. simpl. rewrite E, E0, E1, E2, E3, E4, E5, E6. reflexivity.
Qed.

Lemma toType_length data t b :
  toType data t = Ok b -> Z.of_nat (length (elems b)) = SizeOfType t.
Proof.
  intros H. apply toType_result in H. subst b.
  destruct (recognized t) eqn:R.
  - simpl. rewrite contents_make, length_zeros.
    apply recognized_size in R. lia.
  - simpl. symmetry. apply unrecognized_size. exact R.
Qed.

Lemma Read_length n rd : (length (fst (fst (bufio.Read n rd))) <= n)%nat.
Proof.
  unfold bufio.Read. destruct n; [simpl; lia|].
  destruct (bufio.rbuf rd) eqn:B.
  - destruct (bufio.rsrc rd); [simpl; lia|].
    destruct (bufio.defaultBufSize <=? S n)%nat; cbn [fst];
      apply firstn_le_length.
  - cbn [fst]. apply firstn_le_length.
Qed.

Lemma read_value_length n rd b rd' :
  read_value n rd = Ok (b, rd') ->
  length (elems b) = n /\ exists s, b = Some s /\ wf_slice s.
Proof.
  unfold read_value. pose proof (Read_length n rd) as G.
  destruct (bufio.Read n rd) as [[got e] r]. cbn [fst] in G.
  intros H. injection H as <- <-.
  cbn [make arr len].
  assert (L : length (got ++ skipn (length got) (zeros n)) = n).
  { rewrite length_app, length_skipn, length_zeros. lia. }
  split.
  - unfold elems, contents. cbn [arr len]. rewrite firstn_all2; lia.
  - eexists; split; [reflexivity|]. unfold wf_slice. cbn [arr len]. lia.
Qed.

Lemma toBType_length rd t b rd' :
  toBType rd t = Ok (b, rd') -> Z.of_nat (length (elems b)) = SizeOfType t.
Proof.
  unfold toBType. intros H.
  repeat match type of H with
  | (if is_type ?i t then _ else _) = _ =>
      let E := fresh "E" in
      destruct (is_type i t) eqn:E;
      [ destruct (is_type_size i t E ltac:(lia)) as [-> _];
        apply read_value_length in H; destruct H as [-> _]; reflexivity
      | ]
  end.
  injection H as <- _. simpl. symmetry. apply unrecognized_size.
  unfold recognized. simpl. rewrite E, E0, E1, E2, E3, E4, E5, E6. reflexivity.
Qed.

(** ** Outcomes *)

Lemma obind_Ok {A B} (m : outcome A) (f : A -> outcome B) (b : B) :
  obind m f = Ok b -> exists a, m = Ok a /\ f a = Ok b.
Proof. destruct m; simpl; intros H; try discriminate. eauto. Qed.

(** Splits a hypothesis [x <- m ;; k = Ok b] into [m = Ok x] and
    [k = Ok b]. *)
Ltac inv_bind H :=
  let a := fresh "a" in
  let E := fresh "E" in
  apply obind_Ok in H; destruct H as (a & E & H).

(** ** The lengths of the rows *)

Lemma Forall_set_nth {A} (P : A -> Prop) (l : list A) n v :
  Forall P l -> P v -> Forall P (set_nth l n v).
Proof.
  intros H. revert n. induction H; intros [|n] Hv; simpl; auto.
Qed.

Lemma store_sound {A} (P : A -> Prop) (l l' : list A) i v :
  store l i v = Ok l' -> Forall P l -> P v -> Forall P l'.
Proof.
  unfold store. destruct (_ || _); [discriminate|].
  intros H; injection H as <-. apply Forall_set_nth.
Qed.

Lemma alloc_Data_sound size props props' :
  alloc_Data size props = Ok props' -> Forall prop_sound props'.
Proof.
  revert props'. induction props as [|prop rest IH]; simpl; intros props' H.
  - injection H as <-. constructor.
  - destruct (size <? 0); [discriminate|].
    inv_bind H. injection H as <-. constructor; [|apply IH; assumption].
    intros _ _. simpl. apply Forall_forall. intros x Hx.
    apply repeat_spec in Hx. subst x. intros s Hs. discriminate.
Qed.

Lemma make_Z_spec n l :
  make_Z n = Ok l ->
  wf_slice l /\ Z.of_nat (length (contents l)) = n.
Proof.
  unfold make_Z. destruct (n <? 0) eqn:E; [discriminate|].
  intros H; injection H as <-. split; [apply wf_make|].
  rewrite contents_make, length_zeros. apply Z.ltb_ge in E. lia.
Qed.

Lemma binary_list_values_length n t l r l' r' :
  binary_list_values n t l r = Ok (l', r') -> wf_slice l ->
  Z.of_nat (length (contents l')) =
    Z.of_nat (length (contents l)) + Z.of_nat n * SizeOfType t.
Proof.
  revert l r. induction n as [|n IH]; intros l r H W.
  - simpl in H. injection H as <- _. lia.
  - cbn [binary_list_values] in H. inv_bind H. destruct a as [b r1].
    apply toBType_length in E.
    apply IH in H; [|apply appendBytes_contents; assumption].
    rewrite H, length_elems_appendBytes by assumption. lia.
Qed.

Lemma binary_prop_sound order prop r v r' :
  binary_prop order prop r = Ok (v, r') ->
  IsList prop = true -> row_sound (SizeOfType (Type_ prop)) v.
Proof.
  unfold binary_prop. intros H L. rewrite L in H.
  inv_bind H. destruct a as [num r1]. unfold binary_list in H.
  inv_bind H. inv_bind H. destruct a0 as [l r2]. injection H as <- _.
  apply make_Z_spec in E0. destruct E0 as [W E0].
  apply binary_list_values_length in E1; [|assumption].
  intros s Hs. injection Hs as <-. rewrite E1, E0.
  exists (num + Z.of_nat (Z.to_nat num)). lia.
Qed.

Lemma binary_row_sound order i props r props' r' :
  binary_row order i props r = Ok (props', r') ->
  Forall prop_sound props -> Forall prop_sound props'.
Proof.
  revert r props' r'. induction props as [|prop rest IH];
    intros r props' r' H S.
  - simpl in H. injection H as <- _. constructor.
  - cbn [binary_row] in H. inv_bind H. destruct a as [v r1].
    inv_bind H. inv_bind H. destruct a0 as [rest' r2]. injection H as <- _.
    inversion S as [|? ? Sp Sr]; subst. constructor.
    + intros L R. simpl in *. eapply store_sound; eauto.
      eapply binary_prop_sound; eauto.
    + eapply IH; eauto.
Qed.

Lemma binary_rows_sound order n i props r props' r' :
  binary_rows order n i props r = Ok (props', r') ->
  Forall prop_sound props -> Forall prop_sound props'.
Proof.
  revert i props r. induction n as [|n IH]; intros i props r H S.
  - simpl in H. injection H as <- _. exact S.
  - cbn [binary_rows] in H. inv_bind H. destruct a as [props1 r1].
    eapply IH; eauto. eapply binary_row_sound; eauto.
Qed.

Lemma binary_elements_sound order es r es' r' :
  binary_elements order es r = Ok (es', r') -> Forall elem_sound es'.
Proof.
  revert r es' r'. induction es as [|elem rest IH]; intros r es' r' H.
  - simpl in H. injection H as <- _. constructor.
  - cbn [binary_elements] in H. inv_bind H. inv_bind H.
    destruct a0 as [props' r1]. inv_bind H. destruct a0 as [rest' r2].
    injection H as <- _. constructor; [|eapply IH; eauto].
    unfold elem_sound; simpl. eapply binary_rows_sound; eauto.
    eapply alloc_Data_sound; eauto.
Qed.

Lemma ascii_list_values_length n words cw t l l' cw' :
  ascii_list_values n words cw t l = Ok (l', cw') -> wf_slice l ->
  Z.of_nat (length (contents l')) =
    Z.of_nat (length (contents l)) + Z.of_nat n * SizeOfType t.
Proof.
  revert cw l. induction n as [|n IH]; intros cw l H W.
  - simpl in H. injection H as <- _. lia.
  - cbn [ascii_list_values] in H. inv_bind H. inv_bind H.
    apply toType_length in E0.
    apply IH in H; [|apply appendBytes_contents; assumption].
    rewrite H, length_elems_appendBytes by assumption. lia.
Qed.

Lemma ascii_prop_sound words cw prop v cw' :
  ascii_prop words cw prop = Ok (v, cw') ->
  IsList prop = true -> row_sound (SizeOfType (Type_ prop)) v.
Proof.
  unfold ascii_prop. intros H L. rewrite L in H.
  inv_bind H. inv_bind H. inv_bind H. inv_bind H.
  destruct a2 as [l cw1]. injection H as <- _.
  apply make_Z_spec in E1. destruct E1 as [W E1].
  apply ascii_list_values_length in E2; [|assumption].
  intros s Hs. injection Hs as <-. rewrite E2, E1.
  exists (a0 + Z.of_nat (Z.to_nat a0)). lia.
Qed.

Lemma ascii_props_sound words cw i props props' :
  ascii_props words cw i props = Ok props' ->
  Forall prop_sound props -> Forall prop_sound props'.
Proof.
  revert cw props'. induction props as [|prop rest IH];
    intros cw props' H S.
  - simpl in H. injection H as <-. constructor.
  - cbn [ascii_props] in H. inv_bind H. destruct a as [v cw1].
    inv_bind H. inv_bind H. injection H as <-.
    inversion S as [|? ? Sp Sr]; subst. constructor.
    + intros L R. simpl in *. eapply store_sound; eauto.
      eapply ascii_prop_sound; eauto.
    + eapply IH; eauto.
Qed.

Lemma ascii_row_sound i props r props' r' :
  ascii_row i props r = Ok (props', r') ->
  Forall prop_sound props -> Forall prop_sound props'.
Proof.
  unfold ascii_row. intros H S. inv_bind H. destruct a as [line r1].
  destruct (FindAllStringSubmatch numMatcher line) eqn:W.
  - injection H as <- _. exact S.
  - inv_bind H. injection H as <- _. eapply ascii_props_sound; eauto.
Qed.

Lemma ascii_rows_sound n i props r props' r' :
  ascii_rows n i props r = Ok (props', r') ->
  Forall prop_sound props -> Forall prop_sound props'.
Proof.
  revert i props r. induction n as [|n IH]; intros i props r H S.
  - simpl in H. injection H as <- _. exact S.
  - cbn [ascii_rows] in H. inv_bind H. destruct a as [props1 r1].
    eapply IH; eauto. eapply ascii_row_sound; eauto.
Qed.

Lemma ascii_elements_sound es r es' r' :
  ascii_elements es r = Ok (es', r') -> Forall elem_sound es'.
Proof.
  revert r es' r'. induction es as [|elem rest IH]; intros r es' r' H.
  - simpl in H. injection H as <- _. constructor.
  - cbn [ascii_elements] in H. inv_bind H. inv_bind H.
    destruct a0 as [props' r1]. inv_bind H. destruct a0 as [rest' r2].
    injection H as <- _. constructor; [|eapply IH; eauto].
    unfold elem_sound; simpl. eapply ascii_rows_sound; eauto.
    eapply alloc_Data_sound; eauto.
Qed.

Lemma Load_sound fs fname p0 p :
  Load fs fname p0 = Ok p -> Forall elem_sound (Elements p).
Proof.
  unfold Load. destruct (fs fname); [|discriminate].
  intros H. inv_bind H.
  destruct (FileType a =? BinaryBigEndian);
    [|destruct (FileType a =? BinaryLittleEndian);
      [|destruct (FileType a =? Ascii); [|discriminate]]].
  - unfold parseBinaryBigEndian, parseBinary in H. inv_bind H.
    destruct a0 as [es r]. injection H as <-. simpl.
    eapply binary_elements_sound; eauto.
  - unfold parseBinaryLittleEndian, parseBinary in H. inv_bind H.
    destruct a0 as [es r]. injection H as <-. simpl.
    eapply binary_elements_sound; eauto.
  - unfold parseASCII in H. inv_bind H.
    destruct a0 as [es r]. injection H as <-. simpl.
    eapply ascii_elements_sound; eauto.
Qed.

(** ** Reading lines *)

Lemma byte_eqb_refl (c : byte) : Byte.eqb c c = true.
Proof. apply byte_dec_lb. reflexivity. Qed.

Lemma byte_eqb_neq (a b : byte) : a <> b -> Byte.eqb a b = false.
Proof.
  intros H. destruct (Byte.eqb a b) eqn:E; [|reflexivity].
  apply byte_dec_bl in E. contradiction.
Qed.

Lemma index_byte_None c s : ~ In c s -> bufio.index_byte c s = None.
Proof.
  induction s as [|b s IH]; simpl; intros H; [reflexivity|].
  rewrite byte_eqb_neq by (intros ->; apply H; left; reflexivity).
  rewrite IH; [reflexivity|]. intros X. apply H. right. exact X.
Qed.

Lemma index_byte_first c l rest :
  ~ In c l -> bufio.index_byte c (l ++ c :: rest) = Some (length l).
Proof.
  induction l as [|b l IH]; simpl; intros H.
  - rewrite byte_eqb_refl. reflexivity.
  - rewrite byte_eqb_neq by (intros ->; apply H; left; reflexivity).
    rewrite IH; [reflexivity|]. intros X. apply H. right. exact X.
Qed.

(** A buffer without the delimiter that starts a text with one is a
    prefix of the text before the delimiter. *)
Lemma prefix_before_delim c (b src l rest : bytes) :
  ~ In c b -> ~ In c l -> b ++ src = l ++ c :: rest ->
  exists l2, l = b ++ l2 /\ src = l2 ++ c :: rest.
Proof.
  revert l. induction b as [|x b IH]; intros l Hb Hl E.
  - exists l. split; [reflexivity|exact E].
  - destruct l as [|y l]; simpl in E.
    + injection E as -> _. exfalso. apply Hb. left. reflexivity.
    + injection E as -> E.
      destruct (IH l) as (l2 & -> & ->); auto.
      * intros X. apply Hb. right. exact X.
      * intros X. apply Hl. right. exact X.
      * exists l2. split; reflexivity.
Qed.

(** The delimiter found in the buffer is the first one of the text. *)
Lemma delim_in_buffer c (b src l rest : bytes) :
  In c b -> ~ In c l -> b ++ src = l ++ c :: rest ->
  exists b2, b = l ++ c :: b2 /\ rest = b2 ++ src.
Proof.
  revert l. induction b as [|x b IH]; intros l Hb Hl E; [contradiction|].
  destruct l as [|y l]; simpl in E.
  - injection E as -> <-. exists b. split; reflexivity.
  - injection E as -> E. destruct Hb as [->|Hb].
    + exfalso. apply Hl. left. reflexivity.
    + destruct (IH l) as (b2 & -> & ->); auto.
      * intros X. apply Hl. right. exact X.
      * exists b2. split; reflexivity.
Qed.

Lemma index_byte_In c s : bufio.index_byte c s = None -> ~ In c s.
Proof.
  induction s as [|b s IH]; simpl; intros H; [tauto|].
  destruct (Byte.eqb b c) eqn:E; [discriminate|].
  destruct (bufio.index_byte c s); [discriminate|].
  intros [->|X]; [rewrite byte_eqb_refl in E; discriminate|].
  apply IH; auto.
Qed.

Lemma index_byte_Some c s i : bufio.index_byte c s = Some i -> In c s.
Proof.
  revert i. induction s as [|b s IH]; simpl; intros i H; [discriminate|].
  destruct (Byte.eqb b c) eqn:E.
  - left. apply byte_dec_bl. exact E.
  - destruct (bufio.index_byte c s); [|discriminate]. right. eapply IH; eauto.
Qed.

Lemma firstn_S_app {A} (l : list A) c rest :
  firstn (S (length l)) (l ++ c :: rest) = l ++ [c].
Proof.
  replace (l ++ c :: rest) with ((l ++ [c]) ++ rest)
    by (rewrite <- app_assoc; reflexivity).
  replace (S (length l)) with (length (l ++ [c]))
    by (rewrite length_app; simpl; lia).
  apply firstn_exact.
Qed.

Lemma skipn_S_app {A} (l : list A) c rest :
  skipn (S (length l)) (l ++ c :: rest) = rest.
Proof.
  replace (l ++ c :: rest) with ((l ++ [c]) ++ rest)
    by (rewrite <- app_assoc; reflexivity).
  replace (S (length l)) with (length (l ++ [c]))
    by (rewrite length_app; simpl; lia).
  rewrite skipn_app, skipn_all, Nat.sub_diag. reflexivity.
Qed.

Lemma defaultBufSize_pos : (bufio.defaultBufSize <=? 0)%nat = false.
Proof. vm_compute. reflexivity. Qed.

(** [ReadString] delivers the text up to and with the first delimiter of
    what is pending, whatever part of it is buffered, and leaves the rest
    pending. *)
Lemma ReadString_loop_line delim fuel acc r l rest :
  bufio.pending r = l ++ delim :: rest ->
  ~ In delim l ->
  (2 * length (bufio.rsrc r) +
   (if (bufio.defaultBufSize <=? length (bufio.rbuf r))%nat then 1 else 0)
   < fuel)%nat ->
  exists r',
    bufio.ReadString_loop fuel delim acc r = Ok (acc ++ l ++ [delim], r') /\
    bufio.pending r' = rest.
Proof.
  revert acc r l. induction fuel as [|fuel IH]; intros acc r l P N F; [lia|].
  destruct r as [b src]. unfold bufio.pending in P.
  cbn [bufio.rbuf bufio.rsrc] in *.
  cbn [bufio.ReadString_loop bufio.rbuf bufio.rsrc].
  destruct (bufio.index_byte delim b) as [i|] eqn:I.
  - pose proof (index_byte_Some _ _ _ I) as Hin.
    destruct (delim_in_buffer _ _ _ _ _ Hin N P) as (b2 & -> & ->).
    rewrite index_byte_first in I by assumption. injection I as <-.
    rewrite firstn_S_app, skipn_S_app.
    eexists. split; [reflexivity|]. reflexivity.
  - pose proof (index_byte_In _ _ I) as Hb.
    destruct (prefix_before_delim _ _ _ _ _ Hb N P) as (l2 & -> & ->).
    destruct (bufio.defaultBufSize <=? length b)%nat eqn:Full;
      rewrite ?Full in F.
    + destruct (IH (acc ++ b) {| bufio.rbuf := []; bufio.rsrc := l2 ++ delim :: rest |} l2)
        as (r' & E & P').
      * reflexivity.
      * intros X. apply N. apply in_or_app. right. exact X.
      * cbn [bufio.rbuf bufio.rsrc length].
        rewrite defaultBufSize_pos. lia.
      * exists r'. split; [|exact P'].
        rewrite E. rewrite <- !app_assoc. reflexivity.
    + destruct (l2 ++ delim :: rest) as [|x src] eqn:S.
      { destruct l2; discriminate. }
      rewrite <- S in *. clear S x src.
      set (n := (bufio.defaultBufSize - length b)%nat).
      assert (Hn : (0 < n)%nat).
      { apply Nat.leb_gt in Full. subst n. lia. }
      assert (Hs : (0 < length (l2 ++ delim :: rest))%nat).
      { rewrite length_app. simpl. lia. }
      destruct (IH acc
                  {| bufio.rbuf := b ++ firstn n (l2 ++ delim :: rest);
                     bufio.rsrc := skipn n (l2 ++ delim :: rest) |}
                  (b ++ l2)) as (r' & E & P').
      * unfold bufio.pending. cbn [bufio.rbuf bufio.rsrc].
        rewrite <- !app_assoc, firstn_skipn. reflexivity.
      * exact N.
      * cbn [bufio.rbuf bufio.rsrc]. rewrite length_skipn.
        clearbody n.
        match goal with
        | |- context [if ?c then _ else _] => destruct c
        end; lia.
      * exists r'. split; [exact E|exact P'].
Qed.

Lemma ReadString_line delim r l rest :
  bufio.pending r = l ++ delim :: rest ->
  ~ In delim l ->
  exists r',
    bufio.ReadString delim r = Ok (l ++ [delim], r') /\
    bufio.pending r' = rest.
Proof.
  intros P N. unfold bufio.ReadString.
  apply (ReadString_loop_line delim _ [] r l rest P N).
  match goal with
  | |- context [if ?c then _ else _] => destruct c
  end; lia.
Qed.

Lemma readLine_line r l rest :
  bufio.pending r = l ++ x0a :: rest ->
  ~ In x0a l ->
  exists r',
    readLine r = Ok (strip (l ++ [x0a]), r') /\ bufio.pending r' = rest.
Proof.
  intros P N. destruct (ReadString_line x0a r l rest P N) as (r' & E & P').
  exists r'. split; [|exact P']. unfold readLine. rewrite E. reflexivity.
Qed.

(** ** Binary reads *)

(** A [Read] for at least one byte delivers a non-empty prefix of what is
    pending, unless nothing is pending. *)
Lemma Read_prefix n r :
  (0 < n)%nat -> bufio.pending r <> [] ->
  exists got r',
    bufio.Read n r = (got, None, r') /\
    got <> [] /\ (length got <= n)%nat /\
    bufio.pending r = got ++ bufio.pending r'.
Proof.
  intros Hn P. destruct r as [b src]. unfold bufio.pending in *.
  unfold bufio.Read. cbn [bufio.rbuf bufio.rsrc] in *.
  destruct n as [|n]; [lia|].
  destruct b as [|x b].
  - destruct src as [|y src]; [contradiction|].
    destruct (bufio.defaultBufSize <=? S n)%nat eqn:E.
    + do 2 eexists. split; [reflexivity|].
      cbn [bufio.rbuf bufio.rsrc app].
      split; [cbn [firstn]; discriminate|].
      split; [apply firstn_le_length|].
      symmetry. apply firstn_skipn.
    + do 2 eexists. split; [reflexivity|].
      cbn [bufio.rbuf bufio.rsrc app].
      assert (B : (0 < bufio.defaultBufSize)%nat).
      { pose proof defaultBufSize_pos as Q. apply Nat.leb_gt in Q. exact Q. }
      destruct bufio.defaultBufSize as [|k]; [lia|].
      split; [cbn [firstn]; discriminate|].
      split; [apply firstn_le_length|].
      rewrite app_assoc, firstn_skipn, firstn_skipn. reflexivity.
  - do 2 eexists. split; [reflexivity|].
    cbn [bufio.rbuf bufio.rsrc].
    split; [cbn [firstn]; discriminate|].
    split; [apply firstn_le_length|].
    rewrite app_assoc, firstn_skipn. reflexivity.
Qed.

Lemma Read_nothing n r :
  (0 < n)%nat -> bufio.pending r = [] -> bufio.Read n r = ([], Some EOF, r).
Proof.
  intros Hn P. destruct r as [b src]. unfold bufio.pending in P.
  cbn [bufio.rbuf bufio.rsrc] in P. apply app_eq_nil in P.
  destruct P as [-> ->]. destruct n; [lia|]. reflexivity.
Qed.

(** [ReadFull] delivers exactly the bytes asked for when that many are
    pending. *)
Lemma ReadFull_loop_enough fuel need acc r bs rest :
  bufio.pending r = bs ++ rest -> length bs = need -> (need < fuel)%nat ->
  exists r',
    io.ReadFull_loop fuel need acc r = Ok (acc ++ bs, r') /\
    bufio.pending r' = rest.
Proof.
  revert need acc r bs. induction fuel as [|fuel IH];
    intros need acc r bs P L F; [lia|].
  destruct need as [|need].
  - destruct bs; [|discriminate]. exists r. split; [|exact P].
    simpl. rewrite app_nil_r. reflexivity.
  - cbn [io.ReadFull_loop].
    destruct (Read_prefix (S need) r) as (got & r1 & E & G & Lg & Pg);
      [lia| rewrite P; destruct bs; [discriminate|discriminate] |].
    rewrite E.
    assert (X : exists bs2, bs = got ++ bs2 /\ bufio.pending r1 = bs2 ++ rest).
    { rewrite P in Pg. clear - Pg Lg L.
      revert bs need L Lg Pg. induction got as [|g got IHg];
        intros bs need L Lg Pg.
      - exists bs. split; [reflexivity|]. symmetry. exact Pg.
      - destruct bs as [|b bs]; [discriminate|].
        simpl in Pg. injection Pg as -> Pg. simpl in L, Lg.
        destruct need as [|need].
        + destruct bs; [|discriminate]. destruct got; [|simpl in Lg; lia].
          exists []. split; [reflexivity|]. symmetry. exact Pg.
        + destruct (IHg bs need) as (bs2 & -> & Q); [lia|lia|exact Pg|].
          exists bs2. split; [reflexivity|exact Q]. }
    destruct X as (bs2 & -> & P1).
    destruct (IH (S need - length got)%nat (acc ++ got) r1 bs2)
      as (r' & E' & P'); [exact P1 | rewrite length_app in L; lia | |].
    { destruct got; [contradiction|]. simpl. lia. }
    exists r'. split; [|exact P']. rewrite E', <- app_assoc. reflexivity.
Qed.

(** With fewer bytes pending than asked for, [ReadFull] fails with one of
    the two end-of-file errors. *)
Lemma ReadFull_loop_short fuel need acc r :
  (length (bufio.pending r) < need)%nat ->
  (length (bufio.pending r) < fuel)%nat ->
  io.ReadFull_loop fuel need acc r = Err EOF \/
  io.ReadFull_loop fuel need acc r = Err ErrUnexpectedEOF.
Proof.
  revert need acc r. induction fuel as [|fuel IH]; intros need acc r Hs F;
    [lia|].
  destruct need as [|need]; [lia|]. cbn [io.ReadFull_loop].
  destruct (bufio.pending r) as [|x p] eqn:P.
  - rewrite Read_nothing by (assumption || lia).
    rewrite app_nil_r. destruct acc; [left|right]; reflexivity.
  - destruct (Read_prefix (S need) r) as (got & r1 & E & G & Lg & Pg);
      [lia| rewrite P; discriminate |].
    rewrite E. rewrite P in Pg.
    assert (Lp : length (x :: p) = (length got + length (bufio.pending r1))%nat)
      by (rewrite Pg, length_app; reflexivity).
    destruct got as [|g got]; [contradiction|]. simpl in Lp, Hs, F, Lg.
    apply IH; simpl; lia.
Qed.

Lemma bz_range (b : byte) : 0 <= bz b < 256.
Proof. destruct b; vm_compute; split; congruence. Qed.

Lemma lor_shiftl_add a b k :
  0 <= a < 2 ^ k -> 0 <= b -> 0 <= k ->
  Z.lor a (Z.shiftl b k) = a + b * 2 ^ k.
Proof.
  intros Ha Hb Hk.
  rewrite <- Z.lxor_lor, <- Z.add_nocarry_lxor, Z.shiftl_mul_pow2;
    try reflexivity; try assumption.
  - apply Z.bits_inj'. intros n Hn. rewrite Z.land_spec, Z.bits_0.
    destruct (Z.lt_ge_cases n k) as [Lt|Ge].
    + rewrite Z.shiftl_spec_low by assumption. apply andb_false_r.
    + destruct (Z.eq_dec a 0) as [->|Na].
      * rewrite Z.bits_0. reflexivity.
      * rewrite (Z.bits_above_log2 a n); [reflexivity|lia|].
        apply Z.log2_lt_pow2; [lia|].
        apply Z.lt_le_trans with (2 ^ k); [lia|].
        apply Z.pow_le_mono_r; lia.
  - apply Z.bits_inj'. intros n Hn. rewrite Z.land_spec, Z.bits_0.
    destruct (Z.lt_ge_cases n k) as [Lt|Ge].
    + rewrite Z.shiftl_spec_low by assumption. apply andb_false_r.
    + destruct (Z.eq_dec a 0) as [->|Na].
      * rewrite Z.bits_0. reflexivity.
      * rewrite (Z.bits_above_log2 a n); [reflexivity|lia|].
        apply Z.log2_lt_pow2; [lia|].
        apply Z.lt_le_trans with (2 ^ k); [lia|].
        apply Z.pow_le_mono_r; lia.
Qed.

(** The four bytes as an unsigned number, in either order. *)
Lemma Uint32_value o b0 b1 b2 b3 :
  binary.Uint32 o [b0; b1; b2; b3] =
    match o with
    | binary.LittleEndian =>
        bz b0 + bz b1 * 2 ^ 8 + bz b2 * 2 ^ 16 + bz b3 * 2 ^ 24
    | binary.BigEndian =>
        bz b3 + bz b2 * 2 ^ 8 + bz b1 * 2 ^ 16 + bz b0 * 2 ^ 24
    end.
Proof.
  pose proof (bz_range b0). pose proof (bz_range b1).
  pose proof (bz_range b2). pose proof (bz_range b3).
  change (2 ^ 8) with 256. change (2 ^ 16) with 65536.
  change (2 ^ 24) with 16777216.
  destruct o; unfold binary.Uint32.
  - rewrite (lor_shiftl_add (bz b0) (bz b1) 8) by (simpl; lia).
    change (2 ^ 8) with 256.
    rewrite (lor_shiftl_add _ (bz b2) 16) by (simpl; lia).
    change (2 ^ 16) with 65536.
    rewrite (lor_shiftl_add _ (bz b3) 24) by (simpl; lia).
    reflexivity.
  - rewrite (lor_shiftl_add (bz b3) (bz b2) 8) by (simpl; lia).
    change (2 ^ 8) with 256.
    rewrite (lor_shiftl_add _ (bz b1) 16) by (simpl; lia).
    change (2 ^ 16) with 65536.
    rewrite (lor_shiftl_add _ (bz b0) 24) by (simpl; lia).
    reflexivity.
Qed.

(** The binary codec reports no error, whatever is left to read. *)
Lemma toBType_never_fails rd t :
  exists b rd', toBType rd t = Ok (b, rd').
Proof.
  unfold toBType, read_value.
  destruct (bufio.Read 1 rd) as [[g1 e1] r1].
  destruct (bufio.Read 2 rd) as [[g2 e2] r2].
  destruct (bufio.Read 4 rd) as [[g4 e4] r4].
  destruct (bufio.Read 8 rd) as [[g8 e8] r8].
  repeat match goal with
         | |- context [if ?c then _ else _] => destruct c
         end; eauto.
Qed.

(** ** Rows that later rows leave alone *)

Lemma nth_error_set_nth_other {A} (l : list A) n m v :
  n <> m -> nth_error (set_nth l n v) m = nth_error l m.
Proof.
  revert n m. induction l as [|a l IH]; intros [|n] [|m] H; simpl;
    try reflexivity; try contradiction.
  apply IH. congruence.
Qed.

Lemma store_other {A} (l l' : list A) j v (m : nat) :
  store l j v = Ok l' -> Z.to_nat j <> m -> nth_error l' m = nth_error l m.
Proof.
  unfold store. destruct (_ || _); [discriminate|].
  intros H; injection H as <-. apply nth_error_set_nth_other.
Qed.

Lemma ascii_props_frame words cw j props props' i :
  ascii_props words cw j props = Ok props' ->
  Z.to_nat j <> Z.to_nat i -> row_unset i props -> row_unset i props'.
Proof.
  revert cw props'. induction props as [|prop rest IH];
    intros cw props' H N U.
  - simpl in H. injection H as <-. constructor.
  - cbn [ascii_props] in H. inv_bind H. destruct a as [v cw1].
    inv_bind H. inv_bind H. injection H as <-.
    inversion U as [|? ? Up Ur]; subst. constructor.
    + simpl. rewrite (store_other _ _ _ _ _ E0 N). exact Up.
    + eapply IH; eauto.
Qed.

Lemma ascii_rows_frame n j props r props' r' i :
  ascii_rows n j props r = Ok (props', r') ->
  0 <= i < j -> row_unset i props -> row_unset i props'.
Proof.
  revert j props r. induction n as [|n IH]; intros j props r H L U.
  - simpl in H. injection H as <- _. exact U.
  - cbn [ascii_rows] in H. inv_bind H. destruct a as [props1 r1].
    apply (IH (j + 1) props1 r1 H); [lia|].
    unfold ascii_row in E. inv_bind E. destruct a as [line r2].
    destruct (FindAllStringSubmatch numMatcher line).
    + injection E as <- _. exact U.
    + inv_bind E. injection E as <- _.
      eapply ascii_props_frame; eauto. lia.
Qed.

(** ** The matcher and separators *)

Lemma flat_map_map {A B C} (f : B -> list C) (g : A -> B) (l : list A) :
  flat_map f (map g l) = flat_map (fun x => f (g x)) l.
Proof. induction l; simpl; congruence. Qed.

Lemma map_flat_map {A B C} (g : B -> C) (f : A -> list B) (l : list A) :
  map g (flat_map f l) = flat_map (fun x => map g (f x)) l.
Proof.
  induction l; simpl; [reflexivity|]. rewrite map_app. congruence.
Qed.

Section Separator.

Variable c : byte.
Variable t : bytes.

(** What follows a match when the text goes on with [c :: t]. *)
Let ext (x : bytes) : bytes := x ++ c :: t.

Lemma star_loop_sep (step : bytes -> list bytes) :
  (forall s, step (ext s) = map ext (step s)) ->
  forall n m s,
    (length (ext s) < n)%nat -> (length s < m)%nat ->
    star_loop step n (ext s) = map ext (star_loop step m s).
Proof.
  intros Hstep. induction n as [|n IH]; intros m s Hn Hm; [lia|].
  destruct m as [|m]; [lia|].
  cbn [star_loop]. rewrite Hstep, map_app, flat_map_map, map_flat_map.
  f_equal. apply flat_map_ext. intros x.
  replace (length (ext x) <? length (ext s))%nat
    with (length x <? length s)%nat
    by (unfold ext; rewrite !length_app; simpl;
        destruct (Nat.ltb_spec (length x) (length s));
        symmetry; [apply Nat.ltb_lt|apply Nat.ltb_ge]; lia).
  destruct (Nat.ltb_spec (length x) (length s)) as [L|L];
    [|reflexivity].
  apply IH; [|lia].
  unfold ext in *. rewrite length_app in *. simpl in *. lia.
Qed.

(** A character that the pattern rejects ends every match before it: the
    matches of a text that goes on with it are those of the text alone. *)
Lemma rmatch_sep r :
  rejects r c = true ->
  forall s, rmatch r (ext s) = map ext (rmatch r s).
Proof.
  induction r as [p|r1 IH1 r2 IH2|r1 IH1 r2 IH2|r1 IH1|r1 IH1];
    cbn [rejects]; intros R s.
  - destruct s as [|a s]; unfold ext; simpl.
    + apply negb_true_iff in R. rewrite R. reflexivity.
    + destruct (p a); reflexivity.
  - apply andb_true_iff in R. destruct R as [R1 R2].
    cbn [rmatch]. rewrite IH1 by assumption.
    rewrite flat_map_map, map_flat_map. apply flat_map_ext.
    intros x. apply IH2. assumption.
  - apply andb_true_iff in R. destruct R as [R1 R2].
    cbn [rmatch]. rewrite IH1, IH2 by assumption.
    rewrite map_app. reflexivity.
  - cbn [rmatch]. apply star_loop_sep; [apply IH1; assumption| |]; lia.
  - cbn [rmatch]. rewrite IH1 by assumption.
    rewrite flat_map_map, map_flat_map. apply flat_map_ext.
    intros x. apply star_loop_sep; [apply IH1; assumption| |]; lia.
Qed.

Lemma find_loop_skip r k s :
  (length s <= k)%nat -> find_loop r k s = [].
Proof.
  revert k. induction s as [|a s IH]; intros k H; [reflexivity|].
  simpl in H. destruct k as [|k]; [lia|]. simpl. apply IH. lia.
Qed.

(** The matches of a text with a rejected character in it are those
    before the character, then those after it. *)
Lemma find_loop_sep r :
  rejects r c = true -> rmatch r [] = [] ->
  forall s k,
    (k <= length s)%nat ->
    find_loop r k (s ++ c :: t) = find_loop r k s ++ find_loop r 0 t.
Proof.
  intros R E. induction s as [|a s IH]; intros k Hk.
  - simpl in Hk. assert (k = 0)%nat as -> by lia.
    cbn [app find_loop].
    change (c :: t) with (ext []) at 1.
    rewrite rmatch_sep, E by assumption. reflexivity.
  - destruct k as [|k].
    + cbn [app find_loop].
      change (a :: s ++ c :: t) with (ext (a :: s)).
      rewrite rmatch_sep by assumption.
      destruct (rmatch r (a :: s)) as [|x xs].
      * cbn [map]. apply IH. lia.
      * cbn [map].
        replace (length (ext (a :: s)) - length (ext x))%nat
          with (length (a :: s) - length x)%nat
          by (unfold ext; rewrite !length_app; cbn [length]; lia).
        set (m := (length (a :: s) - length x)%nat).
        assert (Hm : (m <= length (a :: s))%nat) by (subst m; lia).
        unfold ext. rewrite firstn_app.
        replace (m - length (a :: s))%nat with 0%nat by lia.
        rewrite firstn_O, app_nil_r. cbn [app]. f_equal.
        apply IH. simpl in Hm. lia.
    + cbn [app find_loop]. apply IH. simpl in Hk. lia.
Qed.

End Separator.

(** ** The tokens of a header line *)

Lemma star_loop_S (step : bytes -> list bytes) n s :
  star_loop step (S n) s =
    flat_map
      (fun s' =>
         if (length s' <? length s)%nat then star_loop step n s' else [s'])
      (step s) ++ [s].
Proof. reflexivity. Qed.

Lemma rmatch_Cls_cons (p : byte -> bool) a s :
  rmatch (Cls p) (a :: s) = if p a then [s] else [].
Proof. reflexivity. Qed.

Lemma rmatch_Star r s :
  rmatch (Star r) s = star_loop (rmatch r) (S (length s)) s.
Proof. reflexivity. Qed.

Lemma rmatch_Plus r s :
  rmatch (Plus r) s =
    flat_map (fun s' => star_loop (rmatch r) (S (length s')) s') (rmatch r s).
Proof. reflexivity. Qed.

Lemma rmatch_Seq r1 r2 s :
  rmatch (Seq r1 r2) s = flat_map (rmatch r2) (rmatch r1 s).
Proof. reflexivity. Qed.

Lemma rmatch_Alt r1 r2 s :
  rmatch (Alt r1 r2) s = rmatch r1 s ++ rmatch r2 s.
Proof. reflexivity. Qed.

Lemma star_cls_all (p : byte -> bool) s :
  Forall (fun c => p c = true) s ->
  forall n, (length s < n)%nat ->
  exists tl, star_loop (rmatch (Cls p)) n s = [] :: tl.
Proof.
  induction 1 as [|a s Ha Hs IH]; intros n Hn;
    (destruct n as [|n]; [simpl in Hn; lia|]); rewrite star_loop_S.
  - eexists. reflexivity.
  - rewrite rmatch_Cls_cons, Ha. cbn [flat_map].
    replace (length s <? length (a :: s))%nat with true
      by (symmetry; apply Nat.ltb_lt; simpl; lia).
    destruct (IH n) as (tl & E); [simpl in Hn; lia|].
    rewrite E. eexists. reflexivity.
Qed.

Lemma plus_cls_all (p : byte -> bool) s :
  s <> [] -> Forall (fun c => p c = true) s ->
  exists tl, rmatch (Plus (Cls p)) s = [] :: tl.
Proof.
  intros N H. destruct H as [|a s Ha Hs]; [contradiction|].
  rewrite rmatch_Plus, rmatch_Cls_cons, Ha. cbn [flat_map].
  destruct (star_cls_all p s Hs (S (length s))) as (tl & E); [lia|].
  rewrite E. eexists. reflexivity.
Qed.

Lemma plus_cls_none (p : byte -> bool) s :
  match s with a :: _ => p a = false | [] => True end ->
  rmatch (Plus (Cls p)) s = [].
Proof.
  destruct s as [|a s]; intros H; rewrite rmatch_Plus; [reflexivity|].
  rewrite rmatch_Cls_cons, H. reflexivity.
Qed.

Lemma star_cls_none (p : byte -> bool) s :
  match s with a :: _ => p a = false | [] => True end ->
  rmatch (Star (Cls p)) s = [s].
Proof.
  destruct s as [|a s]; intros H; rewrite rmatch_Star, star_loop_S;
    [reflexivity|].
  rewrite rmatch_Cls_cons, H. reflexivity.
Qed.

Lemma word_not_dot a : word a = true -> dot a = false.
Proof.
  intros W. unfold dot. destruct (Byte.eqb a ".") eqn:E; [|reflexivity].
  apply byte_dec_bl in E. subst a. discriminate.
Qed.

Lemma digit_word a : digit a = true -> word a = true.
Proof. intros D. unfold word. rewrite D. reflexivity. Qed.

Lemma ident_match w :
  is_ident w = true -> exists tl, rmatch wordMatcher w = [] :: tl.
Proof.
  destruct w as [|a w]; [discriminate|]. cbn [is_ident]. intros H.
  apply andb_true_iff in H. destruct H as [H W].
  apply andb_true_iff in H. destruct H as [Wa Da].
  apply negb_true_iff in Da.
  assert (Fw : Forall (fun c => word c = true) (a :: w)).
  { constructor; [exact Wa|]. apply Forall_forall.
    apply forallb_forall. exact W. }
  unfold wordMatcher. rewrite rmatch_Alt, rmatch_Seq.
  assert (E1 : rmatch (Star (Plus (Cls digit))) (a :: w) = [a :: w]).
  { rewrite rmatch_Star, star_loop_S.
    rewrite (plus_cls_none digit (a :: w)) by exact Da. reflexivity. }
  rewrite E1. cbn [flat_map]. rewrite rmatch_Seq.
  rewrite (star_cls_none dot (a :: w)) by (apply word_not_dot; exact Wa).
  cbn [flat_map].
  rewrite (plus_cls_none digit (a :: w)) by exact Da.
  cbn [app].
  apply plus_cls_all; [discriminate|exact Fw].
Qed.

(** Every match leaves a rest that is an end of the text. *)
Lemma is_suffix_refl s : is_suffix s s.
Proof. exists []. reflexivity. Qed.

Lemma is_suffix_trans x y z : is_suffix x y -> is_suffix y z -> is_suffix x z.
Proof.
  intros (p & ->) (q & ->). exists (q ++ p). rewrite app_assoc. reflexivity.
Qed.

Lemma star_loop_suffix (step : bytes -> list bytes) :
  (forall s x, In x (step s) -> is_suffix x s) ->
  forall n s x, In x (star_loop step n s) -> is_suffix x s.
Proof.
  intros Hstep. induction n as [|n IH]; intros s x H; cbn [star_loop] in H.
  - destruct H as [<-|[]]. apply is_suffix_refl.
  - apply in_app_or in H. destruct H as [H|[<-|[]]];
      [|apply is_suffix_refl].
    apply in_flat_map in H. destruct H as (y & Hy & H).
    apply Hstep in Hy.
    destruct (length y <? length s)%nat.
    + apply IH in H. eapply is_suffix_trans; eauto.
    + destruct H as [<-|[]]. exact Hy.
Qed.

Lemma rmatch_suffix r : forall s x, In x (rmatch r s) -> is_suffix x s.
Proof.
  induction r as [p|r1 IH1 r2 IH2|r1 IH1 r2 IH2|r1 IH1|r1 IH1];
    intros s x H; cbn [rmatch] in H.
  - destruct s as [|a s]; [contradiction|].
    destruct (p a); [|contradiction]. destruct H as [<-|[]].
    exists [a]. reflexivity.
  - apply in_flat_map in H. destruct H as (y & Hy & H).
    eapply is_suffix_trans; eauto.
  - apply in_app_or in H. destruct H; eauto.
  - eapply star_loop_suffix; eauto.
  - apply in_flat_map in H. destruct H as (y & Hy & H).
    apply IH1 in Hy. eapply is_suffix_trans; [|exact Hy].
    eapply star_loop_suffix; eauto.
Qed.

Lemma first_success (k : bytes -> list bytes) (l : list bytes) :
  (forall x, In x l -> k x = [] \/ exists tl, k x = [] :: tl) ->
  (exists x, In x l /\ k x <> []) ->
  exists tl, flat_map k l = [] :: tl.
Proof.
  induction l as [|y l IH]; intros A (x & Hx & Nx); [contradiction|].
  cbn [flat_map]. destruct (A y (or_introl eq_refl)) as [E|(tl & E)].
  - rewrite E. cbn [app]. apply IH.
    + intros z Hz. apply A. right. exact Hz.
    + destruct Hx as [<-|Hx]; [contradiction|]. exists x. split; assumption.
  - rewrite E. eexists. reflexivity.
Qed.

Lemma digits_match w :
  w <> [] -> Forall (fun c => digit c = true) w ->
  exists tl, rmatch wordMatcher w = [] :: tl.
Proof.
  intros N D. unfold wordMatcher. rewrite rmatch_Alt, rmatch_Seq.
  set (k := rmatch (Seq (Star (Cls dot)) (Plus (Cls digit)))).
  assert (K0 : k [] = []) by reflexivity.
  assert (K1 : forall x, x <> [] -> Forall (fun c => digit c = true) x ->
                         exists tl, k x = [] :: tl).
  { intros x Nx Dx. subst k. rewrite rmatch_Seq.
    rewrite (star_cls_none dot x).
    - cbn [flat_map]. rewrite app_nil_r. apply plus_cls_all; assumption.
    - destruct Dx as [|a x Da Dx]; [exact I|].
      apply word_not_dot, digit_word. exact Da. }
  destruct (first_success k (rmatch (Star (Plus (Cls digit))) w))
    as (tl & E).
  - intros x Hx. apply rmatch_suffix in Hx. destruct Hx as (pre & ->).
    apply Forall_app in D. destruct D as [_ Dx].
    destruct x as [|a x]; [left; exact K0|right].
    apply K1; [discriminate|exact Dx].
  - exists w. split.
    + rewrite rmatch_Star, star_loop_S.
      apply in_or_app. right. left. reflexivity.
    + destruct (K1 w N D) as (tl & E). rewrite E. discriminate.
  - rewrite E. eexists. reflexivity.
Qed.

Lemma numeral_digits w :
  is_numeral w = true -> w <> [] /\ Forall (fun c => digit c = true) w.
Proof.
  destruct w as [|a w]; [discriminate|]. intros H.
  split; [discriminate|]. cbn [is_numeral] in H.
  destruct w as [|b w].
  - constructor; [exact H|constructor].
  - apply andb_true_iff in H. destruct H as [H W].
    apply andb_true_iff in H. destruct H as [Da _].
    constructor; [exact Da|]. apply Forall_forall.
    apply forallb_forall. exact W.
Qed.

Lemma token_match w :
  is_token w = true -> w <> [] /\ exists tl, rmatch wordMatcher w = [] :: tl.
Proof.
  unfold is_token. intros H. apply orb_true_iff in H.
  destruct H as [H|H]; [apply orb_true_iff in H; destruct H as [H|H]|].
  - split; [destruct w; [discriminate|discriminate]|].
    apply ident_match. exact H.
  - apply numeral_digits in H. destruct H as [N D].
    split; [exact N|]. apply digits_match; assumption.
  - apply bytes_eqb_eq in H. subst w. split; [discriminate|].
    eexists. vm_compute. reflexivity.
Qed.

Lemma tokens_single w :
  is_token w = true -> tokens w = [w].
Proof.
  intros H. destruct (token_match w H) as (N & tl & E).
  unfold tokens, FindAllStringSubmatch.
  destruct w as [|a w]; [contradiction|]. cbn [find_loop]. rewrite E.
  cbn [length]. rewrite Nat.sub_0_r.
  change (firstn (S (length w)) (a :: w)) with (a :: firstn (length w) w).
  rewrite firstn_all. f_equal. apply find_loop_skip. lia.
Qed.

Lemma tokens_sep s c t :
  rejected c -> tokens (s ++ c :: t) = tokens s ++ tokens t.
Proof.
  intros R. unfold tokens, FindAllStringSubmatch.
  apply find_loop_sep; [exact R|reflexivity|lia].
Qed.

Lemma tokens_rejected_prefix p s :
  Forall rejected p -> tokens (p ++ s) = tokens s.
Proof.
  induction 1 as [|c p Hc Hp IH]; [reflexivity|].
  change ((c :: p) ++ s) with ([] ++ c :: (p ++ s)).
  rewrite tokens_sep by assumption. exact IH.
Qed.

Lemma tokens_rejected_suffix s q :
  Forall rejected q -> tokens (s ++ q) = tokens s.
Proof.
  intros H. destruct H as [|c q Hc Hq]; [rewrite app_nil_r; reflexivity|].
  rewrite tokens_sep by assumption.
  rewrite <- (app_nil_r q), tokens_rejected_prefix by assumption.
  apply app_nil_r.
Qed.

Lemma blank_rejected c : blank c = true -> rejected c /\ c <> x0a.
Proof.
  unfold blank. intros H.
  apply orb_true_iff in H. destruct H as [H|H];
    [apply orb_true_iff in H; destruct H as [H|H]|];
    apply byte_dec_bl in H; subst c; split;
    try reflexivity; discriminate.
Qed.

Lemma gap_rejected g : gap g -> Forall rejected g.
Proof.
  intros H. eapply Forall_impl; [|exact H].
  intros c Hc. apply blank_rejected. exact Hc.
Qed.

(** A well-formed line has its words for tokens. *)
Lemma tokens_spaced ws l :
  spaced ws l -> Forall (fun w => is_token w = true) ws -> tokens l = ws.
Proof.
  induction 1 as [g G|g w G|g w c ws t G C Sp IH]; intros T.
  - rewrite <- (app_nil_r g). apply tokens_rejected_prefix.
    apply gap_rejected. exact G.
  - rewrite tokens_rejected_prefix by (apply gap_rejected; exact G).
    apply tokens_single. inversion T; assumption.
  - inversion T as [|? ? Tw Tws]; subst.
    rewrite app_assoc, tokens_sep by (apply blank_rejected; exact C).
    rewrite tokens_rejected_prefix by (apply gap_rejected; exact G).
    rewrite tokens_single by exact Tw. rewrite IH by exact Tws.
    reflexivity.
Qed.

(** ** Trimming keeps the tokens *)

Lemma strip_prefix_split q s t :
  strings.strip_prefix q s = Some t -> s = q ++ t.
Proof.
  revert s. induction q as [|a q IH]; intros s H; simpl in H.
  - injection H as ->. reflexivity.
  - destruct s as [|b s]; [discriminate|].
    destruct (Byte.eqb a b) eqn:E; [|discriminate].
    apply byte_dec_bl in E. subst b. simpl. f_equal. apply IH. exact H.
Qed.

Lemma strip_space_split sp s t :
  strings.strip_space sp s = Some t -> exists q, In q sp /\ s = q ++ t.
Proof.
  induction sp as [|q sp IH]; simpl; intros H; [discriminate|].
  destruct (strings.strip_prefix q s) as [u|] eqn:E.
  - injection H as ->. exists q. split; [left; reflexivity|].
    apply strip_prefix_split. exact E.
  - destruct (IH H) as (q' & I & ->). exists q'. split; [right|]; auto.
Qed.

(** What [trim_left] removes is made of bytes of the space sequences. *)
Lemma trim_left_split sp fuel s :
  exists p,
    s = p ++ strings.trim_left sp fuel s /\
    Forall (fun c => In c (concat sp)) p.
Proof.
  revert s. induction fuel as [|fuel IH]; intros s; simpl.
  - exists []. split; [reflexivity|constructor].
  - destruct (strings.strip_space sp s) as [u|] eqn:E.
    + destruct (strip_space_split sp s u E) as (q & I & ->).
      destruct (IH u) as (p & Eu & Fp).
      exists (q ++ p). split.
      * rewrite <- app_assoc. f_equal. exact Eu.
      * apply Forall_app. split; [|exact Fp].
        apply Forall_forall. intros c Hc.
        apply in_concat. exists q. split; assumption.
    + exists []. split; [reflexivity|constructor].
Qed.

Lemma space_bytes_rejected c :
  In c (concat strings.spaces) \/
  In c (concat (map (@rev byte) strings.spaces)) ->
  rejected c.
Proof.
  assert (A : forallb (rejects wordMatcher)
                (concat strings.spaces ++
                 concat (map (@rev byte) strings.spaces)) = true)
    by (vm_compute; reflexivity).
  rewrite forallb_forall in A. intros H. apply A.
  apply in_or_app. exact H.
Qed.

Lemma strip_split s :
  exists p q,
    s = p ++ strip s ++ q /\ Forall rejected p /\ Forall rejected q.
Proof.
  unfold strip, strings.TrimSpace, strings.TrimRightSpace,
    strings.TrimLeftSpace.
  destruct (trim_left_split strings.spaces (length s) s) as (p & Ep & Fp).
  set (m := strings.trim_left strings.spaces (length s) s) in *.
  destruct (trim_left_split (map (@rev byte) strings.spaces)
              (length m) (rev m)) as (q & Eq & Fq).
  set (x := strings.trim_left _ (length m) (rev m)) in *.
  exists p, (rev q). split; [|split].
  - rewrite Ep at 1. f_equal.
    rewrite <- (rev_involutive m), Eq, rev_app_distr. reflexivity.
  - eapply Forall_impl; [|exact Fp]. intros c Hc.
    apply space_bytes_rejected. left. exact Hc.
  - apply Forall_rev. eapply Forall_impl; [|exact Fq]. intros c Hc.
    apply space_bytes_rejected. right. exact Hc.
Qed.

Lemma tokens_strip s : tokens (strip s) = tokens s.
Proof.
  destruct (strip_split s) as (p & q & E & Fp & Fq).
  rewrite E at 2.
  rewrite tokens_rejected_prefix, tokens_rejected_suffix by assumption.
  reflexivity.
Qed.

(** The tokens that the reader finds on a well-formed line. *)
Lemma line_tokens ws l :
  spaced ws l -> Forall (fun w => is_token w = true) ws ->
  tokens (strip (l ++ [x0a])) = ws.
Proof.
  intros Sp T. rewrite tokens_strip, tokens_sep by reflexivity.
  rewrite (tokens_spaced ws l Sp T). apply app_nil_r.
Qed.

(** A well-formed line holds no newline. *)
Lemma token_no_newline w : is_token w = true -> ~ In x0a w.
Proof.
  assert (W : forall t, forallb word t = true -> ~ In x0a t).
  { intros t Ht I. rewrite forallb_forall in Ht. apply Ht in I.
    discriminate. }
  unfold is_token. intros H. apply orb_true_iff in H.
  destruct H as [H|H]; [apply orb_true_iff in H; destruct H as [H|H]|].
  - destruct w as [|a w]; [discriminate|]. cbn [is_ident] in H.
    apply andb_true_iff in H. destruct H as [H Hw].
    apply andb_true_iff in H. destruct H as [Ha _].
    apply W. cbn [forallb]. rewrite Ha, Hw. reflexivity.
  - apply numeral_digits in H. destruct H as [_ D].
    intros I. rewrite Forall_forall in D. apply D in I. discriminate.
  - apply bytes_eqb_eq in H. subst w.
    intros I. repeat (destruct I as [I|I]; [discriminate|]). exact I.
Qed.

Lemma gap_no_newline g : gap g -> ~ In x0a g.
Proof.
  intros G I. unfold gap in G. rewrite Forall_forall in G.
  apply G in I. discriminate.
Qed.

Lemma spaced_no_newline ws l :
  spaced ws l -> Forall (fun w => is_token w = true) ws -> ~ In x0a l.
Proof.
  induction 1 as [g G|g w G|g w c ws t G C Sp IH]; intros T I.
  - eapply gap_no_newline; eauto.
  - inversion T; subst. apply in_app_or in I. destruct I as [I|I].
    + eapply gap_no_newline; eauto.
    + eapply token_no_newline; eauto.
  - inversion T; subst. apply in_app_or in I. destruct I as [I|I];
      [eapply gap_no_newline; eauto|].
    apply in_app_or in I. destruct I as [I|[I|I]].
    + eapply token_no_newline; eauto.
    + subst c. discriminate.
    + apply IH; assumption.
Qed.

(** ** Decimal numerals *)

Lemma digit_value c : digit c = true -> 0 <= bz c - 48 <= 9.
Proof.
  unfold digit. intros H. apply andb_true_iff in H. destruct H as [A B].
  apply Z.leb_le in A, B. lia.
Qed.

Lemma decimal_ge w :
  Forall (fun c => digit c = true) w ->
  forall n, 0 <= n -> n <= decimal w n.
Proof.
  induction 1 as [|c w Hc Hw IH]; intros n Hn; simpl; [lia|].
  apply digit_value in Hc.
  specialize (IH (n * 10 + (bz c - 48))). lia.
Qed.

Lemma digit_not c x :
  digit c = true -> digit x = false -> Byte.eqb c x = false.
Proof.
  intros Hc Hx. destruct (Byte.eqb c x) eqn:E; [|reflexivity].
  apply byte_dec_bl in E. subst x. congruence.
Qed.

Lemma ParseUint_loop_decimal w :
  Forall (fun c => digit c = true) w ->
  forall n us,
    0 <= n -> decimal w n < 2 ^ 31 ->
    strconv.ParseUint_loop true 10 (strconv.maxUint64 / 10 + 1) (2 ^ 64 - 1)
      w n us = inl (decimal w n, us).
Proof.
  induction 1 as [|c w Hc Hw IH]; intros n us Hn B; [reflexivity|].
  cbn [strconv.ParseUint_loop decimal] in *.
  rewrite (digit_not c "_" Hc eq_refl). cbn [andb].
  change (strconv.is_digit c) with (digit c). rewrite Hc.
  pose proof (digit_value c Hc) as V.
  pose proof (decimal_ge w Hw (n * 10 + (bz c - 48)) ltac:(lia)) as G.
  replace (10 <=? bz c - 48) with false by (symmetry; apply Z.leb_gt; lia).
  change (strconv.maxUint64 / 10 + 1) with 1844674407370955162 in *.
  change (2 ^ 64 - 1) with 18446744073709551615 in *.
  change (2 ^ 64) with 18446744073709551616 in *.
  change (2 ^ 31) with 2147483648 in *.
  replace (1844674407370955162 <=? n) with false
    by (symmetry; apply Z.leb_gt; lia).
  rewrite Z.mod_small by lia.
  replace (n * 10 + (bz c - 48) <? n * 10) with false
    by (symmetry; apply Z.ltb_ge; lia).
  replace (18446744073709551615 <? n * 10 + (bz c - 48)) with false
    by (symmetry; apply Z.ltb_ge; lia).
  cbn [orb]. apply IH; lia.
Qed.

(** The count of an [element] line: [ParseInt] reads a decimal numeral
    below 2^31 as its value. *)
Lemma ParseInt_numeral w :
  is_numeral w = true -> decimal w 0 < 2 ^ 31 ->
  strconv.ParseInt w 0 32 = Ok (decimal w 0).
Proof.
  intros H B. pose proof (numeral_digits w H) as [N D].
  destruct w as [|c w]; [contradiction|].
  inversion D as [|? ? Dc Dw]; subst.
  unfold strconv.ParseInt.
  rewrite (digit_not c "+" Dc eq_refl), (digit_not c "-" Dc eq_refl).
  assert (E : strconv.ParseUint_kind (c :: w) 0 64 = inl (decimal (c :: w) 0)).
  { unfold strconv.ParseUint_kind. cbn [Z.eqb].
    destruct (Byte.eqb c "0") eqn:Z0.
    - apply byte_dec_bl in Z0. subst c.
      destruct w as [|b w]; [reflexivity|].
      cbn [is_numeral] in H. discriminate.
    - rewrite (ParseUint_loop_decimal (c :: w) D 0 false) by (assumption || lia).
      reflexivity. }
  rewrite E.
  pose proof (decimal_ge (c :: w) D 0 ltac:(lia)) as G.
  change (2 ^ (32 - 1)) with 2147483648. change (2 ^ 31) with 2147483648 in B.
  cbn [negb andb].
  replace (2147483648 <=? decimal (c :: w) 0) with false
    by (symmetry; apply Z.leb_gt; lia).
  reflexivity.
Qed.

(** ** The loop of [parseHeader] on a well-formed header *)

Lemma index_app_last {A} (E : list A) x :
  index (E ++ [x]) (Z.of_nat (length E)) = Ok x.
Proof.
  unfold index. rewrite length_app. cbn [length].
  replace (Z.of_nat (length E) <? 0) with false
    by (symmetry; apply Z.ltb_ge; lia).
  replace (Z.of_nat (length E + 1) <=? Z.of_nat (length E)) with false
    by (symmetry; apply Z.leb_gt; lia).
  cbn [orb]. rewrite Nat2Z.id, nth_error_app2, Nat.sub_diag by lia.
  reflexivity.
Qed.

Lemma set_nth_app_last {A} (E : list A) x y :
  set_nth (E ++ [x]) (length E) y = E ++ [y].
Proof. induction E as [|a E IH]; simpl; congruence. Qed.

Lemma store_app_last {A} (E : list A) x y :
  store (E ++ [x]) (Z.of_nat (length E)) y = Ok (E ++ [y]).
Proof.
  unfold store. rewrite length_app. cbn [length].
  replace (Z.of_nat (length E) <? 0) with false
    by (symmetry; apply Z.ltb_ge; lia).
  replace (Z.of_nat (length E + 1) <=? Z.of_nat (length E)) with false
    by (symmetry; apply Z.leb_gt; lia).
  cbn [orb]. rewrite Nat2Z.id, set_nth_app_last. reflexivity.
Qed.

Lemma noise_line_tokens l :
  noise_line l ->
  ~ In x0a l /\
  ((exists ws, tokens (strip (l ++ [x0a])) = "comment" :: ws) \/
   (exists k v, tokens (strip (l ++ [x0a])) = ["obj_info"; k; v])).
Proof.
  assert (C : is_token "comment" = true) by reflexivity.
  intros H. destruct H as [g G|g b t G B Nt|k v l Tk Tv Sp].
  - split.
    + intros I. apply in_app_or in I. destruct I as [I|I].
      * eapply gap_no_newline; eauto.
      * eapply token_no_newline; eauto.
    + left. exists [].
      apply (line_tokens ["comment"] (g ++ "comment")).
      * apply spaced_last. exact G.
      * constructor; [exact C|constructor].
  - destruct (blank_rejected b B) as [Rb Nb]. split.
    + intros I. apply in_app_or in I. destruct I as [I|I];
        [eapply gap_no_newline; eauto|].
      apply (in_app_or "comment" (b :: t)) in I. destruct I as [I|[I|I]].
      * eapply token_no_newline; eauto.
      * congruence.
      * contradiction.
    + left. exists (tokens t).
      rewrite tokens_strip.
      replace ((g ++ "comment" ++ b :: t) ++ [x0a])
        with ((g ++ "comment") ++ b :: (t ++ [x0a]))
        by (rewrite <- !app_assoc; reflexivity).
      rewrite (tokens_sep (g ++ "comment") b (t ++ [x0a]) Rb).
      rewrite tokens_rejected_prefix by (apply gap_rejected; exact G).
      rewrite tokens_single by exact C.
      rewrite (tokens_sep t x0a [] eq_refl). rewrite app_nil_r. reflexivity.
  - assert (T : Forall (fun w => is_token w = true) ["obj_info"; k; v])
      by (repeat constructor; assumption).
    split; [eapply spaced_no_newline; eauto|].
    right. exists k, v. apply line_tokens; assumption.
Qed.

(** What [header_line] does with the words of each kind of line. *)
Lemma header_line_comment ws st :
  header_line ("comment" :: ws) st = Ok (Some st).
Proof. reflexivity. Qed.

Lemma header_line_obj_info k v st :
  exists p',
    header_line ["obj_info"; k; v] st =
      Ok (Some {| hs_ply := p'; currentElem := currentElem st;
                  propPos := propPos st |}) /\
    Elements p' = Elements (hs_ply st) /\
    FileType p' = FileType (hs_ply st) /\
    reader p' = reader (hs_ply st).
Proof. eexists. split; [reflexivity|]. repeat split. Qed.

Lemma header_line_end st : header_line ["end_header"] st = Ok None.
Proof. reflexivity. Qed.

Lemma header_line_element name cnt n st :
  strconv.ParseInt cnt 0 32 = Ok n ->
  header_line ["element"; name; cnt] st =
    Ok (Some {| hs_ply :=
                  set_Elements (hs_ply st)
                    (Elements (hs_ply st) ++
                     [{| Element_Name := name; Properties := []; Size := n |}]);
                currentElem := currentElem st + 1;
                propPos := 0 |}).
Proof.
  intros E. unfold header_line.
  change (index ["element"; name; cnt] 0) with (Ok (A := bytes) "element").
  cbn [obind].
  change ("element" == "comment") with false.
  change ("element" == "element") with true. cbn iota.
  change (index ["element"; name; cnt] 1) with (Ok name).
  change (index ["element"; name; cnt] 2) with (Ok cnt).
  cbn [obind]. rewrite E. reflexivity.
Qed.

Lemma header_line_property d E cur st :
  wf_prop d = true ->
  Elements (hs_ply st) = E ++ [cur] ->
  currentElem st = Z.of_nat (length E) ->
  header_line (prop_words d) st =
    Ok (Some {| hs_ply :=
                  set_Elements (hs_ply st)
                    (E ++ [set_Properties cur
                             (Properties cur ++ [schema_prop (propPos st) d])]);
                currentElem := currentElem st;
                propPos := propPos st + 1 |}).
Proof.
  intros W HE HC. unfold wf_prop in W.
  apply andb_true_iff in W. destruct W as [W W3].
  unfold header_line, prop_words, schema_prop.
  destruct (pd_list d) as [ct|].
  - change (index ["property"; "list"; ct; pd_type d; pd_name d] 0)
      with (Ok (A := bytes) "property").
    cbn [obind].
    change ("property" == "comment") with false.
    change ("property" == "element") with false.
    change ("property" == "property") with true. cbn iota.
    change (index ["property"; "list"; ct; pd_type d; pd_name d] 1)
      with (Ok (A := bytes) "list").
    cbn [obind]. change ("list" == "list") with true. cbn iota.
    change (index ["property"; "list"; ct; pd_type d; pd_name d] 2)
      with (Ok ct).
    change (index ["property"; "list"; ct; pd_type d; pd_name d] 3)
      with (Ok (pd_type d)).
    cbn [obind].
    change (index ["property"; "list"; ct; pd_type d; pd_name d] (3 + 1))
      with (Ok (pd_name d)).
    cbn [obind]. rewrite HE, HC, index_app_last. cbn [obind].
    rewrite store_app_last. reflexivity.
  - apply negb_true_iff in W3.
    change (index ["property"; pd_type d; pd_name d] 0)
      with (Ok (A := bytes) "property").
    cbn [obind].
    change ("property" == "comment") with false.
    change ("property" == "element") with false.
    change ("property" == "property") with true. cbn iota.
    change (index ["property"; pd_type d; pd_name d] 1)
      with (Ok (pd_type d)).
    cbn [obind]. rewrite W3. cbn [obind].
    change (index ["property"; pd_type d; pd_name d] (1 + 1))
      with (Ok (pd_name d)).
    cbn [obind]. rewrite HE, HC, index_app_last. cbn [obind].
    rewrite store_app_last. reflexivity.
Qed.

Lemma ident_token w : is_ident w = true -> is_token w = true.
Proof. intros H. unfold is_token. rewrite H. reflexivity. Qed.

Lemma numeral_token w : is_numeral w = true -> is_token w = true.
Proof.
  intros H. unfold is_token. rewrite H. apply orb_true_iff. left.
  apply orb_true_r.
Qed.

Lemma prop_words_tokens d :
  wf_prop d = true -> Forall (fun w => is_token w = true) (prop_words d).
Proof.
  unfold wf_prop, prop_words. intros W.
  apply andb_true_iff in W. destruct W as [W W3].
  apply andb_true_iff in W. destruct W as [W1 W2].
  destruct (pd_list d) as [ct|];
    repeat constructor; try (apply ident_token; assumption).
Qed.

Lemma noise_step st l rest es ce pp ft :
  noise_line l ->
  at_state st es ce pp ft (l ++ x0a :: rest) ->
  exists st',
    (forall f, header_loop (S f) st = header_loop f st') /\
    at_state st' es ce pp ft rest.
Proof.
  intros Nl (A1 & A2 & A3 & A4 & A5).
  destruct (noise_line_tokens l Nl) as [N T].
  destruct (readLine_line (reader (hs_ply st)) l rest A5 N) as (r' & E & P').
  destruct T as [(ws & T)|(k & v & T)].
  - exists {| hs_ply := next_line (hs_ply st) r';
              currentElem := currentElem st; propPos := propPos st |}.
    split.
    + intros f. cbn [header_loop]. rewrite E. cbn [obind].
      fold (tokens (strip (l ++ [x0a]))). rewrite T.
      rewrite header_line_comment. reflexivity.
    + repeat split; assumption.
  - destruct (header_line_obj_info k v
                {| hs_ply := next_line (hs_ply st) r';
                   currentElem := currentElem st; propPos := propPos st |})
      as (p' & HL & B1 & B2 & B3).
    exists {| hs_ply := p'; currentElem := currentElem st;
              propPos := propPos st |}.
    split.
    + intros f. cbn [header_loop]. rewrite E. cbn [obind].
      fold (tokens (strip (l ++ [x0a]))). rewrite T, HL. reflexivity.
    + unfold at_state. cbn [hs_ply currentElem propPos].
      rewrite B1, B2, B3. repeat split; assumption.
Qed.

Lemma prop_step st l rest d E cur pp ft :
  spaced (prop_words d) l -> wf_prop d = true ->
  at_state st (E ++ [cur]) (Z.of_nat (length E)) pp ft (l ++ x0a :: rest) ->
  exists st',
    (forall f, header_loop (S f) st = header_loop f st') /\
    at_state st'
      (E ++ [set_Properties cur (Properties cur ++ [schema_prop pp d])])
      (Z.of_nat (length E)) (pp + 1) ft rest.
Proof.
  intros Sp W (A1 & A2 & A3 & A4 & A5).
  pose proof (prop_words_tokens d W) as T.
  pose proof (spaced_no_newline _ _ Sp T) as N.
  pose proof (line_tokens _ _ Sp T) as TL.
  destruct (readLine_line (reader (hs_ply st)) l rest A5 N) as (r' & E' & P').
  eexists. split.
  - intros f. cbn [header_loop]. rewrite E'. cbn [obind].
    fold (tokens (strip (l ++ [x0a]))). rewrite TL.
    rewrite (header_line_property d E cur) by assumption.
    reflexivity.
  - unfold at_state. cbn [hs_ply currentElem propPos].
    rewrite A3. repeat split; assumption.
Qed.

Lemma elem_step st l rest e E pp ft :
  spaced (elem_words e) l ->
  is_ident (ed_name e) = true -> is_numeral (ed_count e) = true ->
  decimal (ed_count e) 0 < 2 ^ 31 ->
  at_state st E (Z.of_nat (length E) - 1) pp ft (l ++ x0a :: rest) ->
  exists st',
    (forall f, header_loop (S f) st = header_loop f st') /\
    at_state st'
      (E ++ [{| Element_Name := ed_name e; Properties := [];
                Size := decimal (ed_count e) 0 |}])
      (Z.of_nat (length E)) 0 ft rest.
Proof.
  intros Sp W1 W2 W3 (A1 & A2 & A3 & A4 & A5).
  assert (T : Forall (fun w => is_token w = true) (elem_words e)).
  { repeat constructor; [apply ident_token|apply numeral_token]; assumption. }
  pose proof (spaced_no_newline _ _ Sp T) as N.
  pose proof (line_tokens _ _ Sp T) as TL.
  destruct (readLine_line (reader (hs_ply st)) l rest A5 N) as (r' & E' & P').
  eexists. split.
  - intros f. cbn [header_loop]. rewrite E'. cbn [obind].
    fold (tokens (strip (l ++ [x0a]))). rewrite TL. unfold elem_words.
    rewrite (header_line_element _ _ _ _ (ParseInt_numeral _ W2 W3)).
    reflexivity.
  - unfold at_state. cbn [hs_ply currentElem propPos next_line set_Elements
                           Elements FileType reader].
    rewrite A1, A2. repeat split; try assumption. lia.
Qed.

Lemma end_step st l rest es ce pp ft :
  spaced ["end_header"] l ->
  at_state st es ce pp ft (l ++ x0a :: rest) ->
  exists p',
    (forall f, header_loop (S f) st = Ok p') /\
    Elements p' = es /\ FileType p' = ft /\
    bufio.pending (reader p') = rest.
Proof.
  intros Sp (A1 & A2 & A3 & A4 & A5).
  assert (T : Forall (fun w => is_token w = true) ["end_header"])
    by (repeat constructor).
  pose proof (spaced_no_newline _ _ Sp T) as N.
  pose proof (line_tokens _ _ Sp T) as TL.
  destruct (readLine_line (reader (hs_ply st)) l rest A5 N) as (r' & E' & P').
  exists (next_line (hs_ply st) r'). split.
  - intros f. cbn [header_loop]. rewrite E'. cbn [obind].
    fold (tokens (strip (l ++ [x0a]))). rewrite TL, header_line_end.
    reflexivity.
  - repeat split; assumption.
Qed.

(** The lines of the properties of one element. *)
Lemma props_run ds tp :
  props_text ds tp -> forallb wf_prop ds = true ->
  forall st E cur pp ft rest,
    at_state st (E ++ [cur]) (Z.of_nat (length E)) pp ft (tp ++ rest) ->
    exists st' k,
      (k <= length tp)%nat /\
      (forall f, header_loop (k + f) st = header_loop f st') /\
      exists pp',
        at_state st'
          (E ++ [set_Properties cur (Properties cur ++ schema_props pp ds)])
          (Z.of_nat (length E)) pp' ft rest.
Proof.
  induction 1 as [|l ds t Nl Pt IH|d ds l t Sp Pt IH]; intros W st E cur pp ft rest A.
  - exists st, 0%nat. split; [cbn [length]; lia|].
    split; [reflexivity|]. exists pp.
    cbn [schema_props]. rewrite app_nil_r.
    destruct cur; exact A.
  - rewrite <- app_assoc in A. cbn [app] in A.
    destruct (noise_step _ _ _ _ _ _ _ Nl A) as (st1 & H1 & A1).
    destruct (IH W st1 E cur pp ft rest A1) as (st' & k & Hk & Hrun & R).
    exists st', (S k). split; [rewrite length_app; cbn [length]; lia|].
    split; [|exact R].
    intros f. cbn [Nat.add]. rewrite H1. apply Hrun.
  - cbn [forallb] in W. apply andb_true_iff in W. destruct W as [Wd Wds].
    rewrite <- app_assoc in A. cbn [app] in A.
    destruct (prop_step _ _ _ _ _ _ _ _ Sp Wd A) as (st1 & H1 & A1).
    destruct (IH Wds st1 E _ (pp + 1) ft rest A1)
      as (st' & k & Hk & Hrun & pp' & R).
    exists st', (S k). split; [rewrite length_app; cbn [length]; lia|].
    split; [intros f; cbn [Nat.add]; rewrite H1; apply Hrun|].
    exists pp'. cbn [set_Properties Properties Element_Name Size] in R.
    cbn [schema_props]. rewrite <- app_assoc in R. exact R.
Qed.

(** The lines of the elements. *)
Lemma elems_run es te :
  elems_text es te -> forallb wf_elem es = true ->
  forall st E pp ft rest,
    at_state st E (Z.of_nat (length E) - 1) pp ft (te ++ rest) ->
    exists st' k,
      (k <= length te)%nat /\
      (forall f, header_loop (k + f) st = header_loop f st') /\
      exists ce' pp', at_state st' (E ++ map schema_elem es) ce' pp' ft rest.
Proof.
  induction 1 as [|l es t Nl Et IH|e es l tp t Sp Pt Et IH];
    intros W st E pp ft rest A.
  - exists st, 0%nat. split; [cbn [length]; lia|].
    split; [reflexivity|]. exists (Z.of_nat (length E) - 1), pp.
    cbn [map]. rewrite app_nil_r. exact A.
  - rewrite <- app_assoc in A. cbn [app] in A.
    destruct (noise_step _ _ _ _ _ _ _ Nl A) as (st1 & H1 & A1).
    destruct (IH W st1 E pp ft rest A1) as (st' & k & Hk & Hrun & R).
    exists st', (S k). split; [rewrite length_app; cbn [length]; lia|].
    split; [|exact R].
    intros f. cbn [Nat.add]. rewrite H1. apply Hrun.
  - cbn [forallb] in W. apply andb_true_iff in W. destruct W as [We Wes].
    unfold wf_elem in We.
    apply andb_true_iff in We. destruct We as [We W4].
    apply andb_true_iff in We. destruct We as [We W3].
    apply andb_true_iff in We. destruct We as [W1 W2].
    apply Z.ltb_lt in W3.
    replace ((l ++ x0a :: tp ++ t) ++ rest)
      with (l ++ x0a :: tp ++ (t ++ rest)) in A
      by (rewrite <- !app_assoc; cbn [app]; rewrite <- !app_assoc;
          reflexivity).
    destruct (elem_step _ _ _ _ _ _ _ Sp W1 W2 W3 A) as (st1 & H1 & A1).
    destruct (props_run _ _ Pt W4 st1 E _ 0 ft (t ++ rest) A1)
      as (st2 & k2 & Hk2 & Hrun2 & pp2 & A2).
    cbn [set_Properties Properties Element_Name Size app] in A2.
    fold (schema_elem e) in A2.
    assert (A3 : at_state st2 (E ++ [schema_elem e])
                   (Z.of_nat (length (E ++ [schema_elem e])) - 1) pp2 ft
                   (t ++ rest)).
    { rewrite length_app. cbn [length].
      replace (Z.of_nat (length E + 1) - 1) with (Z.of_nat (length E)) by lia.
      exact A2. }
    destruct (IH Wes st2 (E ++ [schema_elem e]) pp2 ft rest A3)
      as (st' & k & Hk & Hrun & R).
    exists st', (S (k2 + k)). split.
    + rewrite !length_app. cbn [length]. rewrite length_app. lia.
    + split.
      * intros f. cbn [Nat.add]. rewrite H1.
        rewrite <- Nat.add_assoc, Hrun2. apply Hrun.
      * rewrite <- app_assoc in R. exact R.
Qed.

(** ** The loops of the model never run out of fuel *)

Lemma first_occurrence (c : byte) (s : bytes) :
  In c s -> exists l rest, s = l ++ c :: rest /\ ~ In c l.
Proof.
  induction s as [|a s IH]; intros H; [contradiction|].
  destruct (Byte.eqb a c) eqn:E.
  - apply byte_dec_bl in E. subst a. exists [], s. split; [reflexivity|].
    intros [].
  - assert (N : a <> c) by (intros ->; rewrite byte_eqb_refl in E; discriminate).
    destruct H as [H|H]; [contradiction|].
    destruct (IH H) as (l & rest & -> & Nl).
    exists (a :: l), rest. split; [reflexivity|].
    intros [X|X]; [contradiction|]. apply Nl. exact X.
Qed.

Lemma byte_in_dec (c : byte) (s : bytes) : In c s \/ ~ In c s.
Proof.
  induction s as [|a s IH]; [right; intros []|].
  destruct (Byte.eqb a c) eqn:E.
  - left. left. apply byte_dec_bl. exact E.
  - destruct IH as [IH|IH]; [left; right; exact IH|right].
    intros [X|X]; [subst a; rewrite byte_eqb_refl in E; discriminate|].
    contradiction.
Qed.

Lemma ReadString_loop_no_delim delim fuel acc r :
  ~ In delim (bufio.pending r) ->
  (2 * length (bufio.rsrc r) +
   (if (bufio.defaultBufSize <=? length (bufio.rbuf r))%nat then 1 else 0)
   < fuel)%nat ->
  bufio.ReadString_loop fuel delim acc r = Err EOF.
Proof.
  revert acc r. induction fuel as [|fuel IH]; intros acc r N F; [lia|].
  destruct r as [b src]. unfold bufio.pending in N.
  cbn [bufio.rbuf bufio.rsrc] in *.
  cbn [bufio.ReadString_loop bufio.rbuf bufio.rsrc].
  rewrite index_byte_None
    by (intros X; apply N; apply in_or_app; left; exact X).
  destruct (bufio.defaultBufSize <=? length b)%nat eqn:Full;
    rewrite ?Full in F.
  - apply IH.
    + unfold bufio.pending. cbn [bufio.rbuf bufio.rsrc app].
      intros X. apply N. apply in_or_app. right. exact X.
    + cbn [bufio.rbuf bufio.rsrc length]. rewrite defaultBufSize_pos. lia.
  - destruct src as [|x src]; [reflexivity|].
    set (n := (bufio.defaultBufSize - length b)%nat).
    assert (Hn : (0 < n)%nat) by (apply Nat.leb_gt in Full; subst n; lia).
    apply IH.
    + unfold bufio.pending. cbn [bufio.rbuf bufio.rsrc].
      rewrite <- app_assoc, firstn_skipn. exact N.
    + cbn [bufio.rbuf bufio.rsrc]. rewrite length_skipn. clearbody n.
      cbn [length] in *.
      match goal with
      | |- context [if ?c then _ else _] => destruct c
      end; lia.
Qed.

(** [ReadString] either delivers a line and leaves less pending, or
    fails at the end of the file. *)
Lemma ReadString_cases delim r :
  bufio.ReadString delim r = Err EOF \/
  exists line r',
    bufio.ReadString delim r = Ok (line, r') /\
    (length (bufio.pending r') < length (bufio.pending r))%nat.
Proof.
  destruct (byte_in_dec delim (bufio.pending r)) as [I|N].
  - right. destruct (first_occurrence _ _ I) as (l & rest & E & Nl).
    destruct (ReadString_line delim r l rest E Nl) as (r' & H & P).
    exists (l ++ [delim]), r'. split; [exact H|].
    rewrite E, P, length_app. cbn [length]. lia.
  - left. unfold bufio.ReadString. apply ReadString_loop_no_delim; [exact N|].
    match goal with
    | |- context [if ?c then _ else _] => destruct c
    end; lia.
Qed.

Lemma readLine_cases r :
  readLine r = Err EOF \/
  exists line r',
    readLine r = Ok (line, r') /\
    (length (bufio.pending r') < length (bufio.pending r))%nat.
Proof.
  unfold readLine.
  destruct (ReadString_cases x0a r) as [E|(line & r' & E & L)]; rewrite E.
  - left. reflexivity.
  - right. exists (strip line), r'. split; [reflexivity|exact L].
Qed.

Lemma index_fuel {A} (l : list A) i : index l i <> OutOfFuel.
Proof.
  unfold index. destruct (_ || _); [discriminate|].
  destruct (nth_error l (Z.to_nat i)); discriminate.
Qed.

Lemma store_fuel {A} (l : list A) i v : store l i v <> OutOfFuel.
Proof. unfold store. destruct (_ || _); discriminate. Qed.

Lemma ParseInt_fuel s b n : strconv.ParseInt s b n <> OutOfFuel.
Proof.
  unfold strconv.ParseInt. destruct s as [|c t]; [discriminate|].
  destruct (if Byte.eqb c "+" then _ else _) as [neg s].
  destruct (strconv.ParseUint_kind s b 64) as [u|[|]]; try discriminate;
    destruct (_ && _); try discriminate; destruct (_ && _); discriminate.
Qed.

Lemma ParseUint_fuel s b n : strconv.ParseUint s b n <> OutOfFuel.
Proof.
  unfold strconv.ParseUint. destruct (strconv.ParseUint_kind s b n);
    discriminate.
Qed.

Lemma ParseFloat_fuel s n : strconv_float.ParseFloat s n <> OutOfFuel.
Proof.
  unfold strconv_float.ParseFloat.
  destruct (strconv_float.special s); [discriminate|].
  destruct (strconv_float.readFloat s); [|discriminate].
  destruct (strconv_float.round_literal _ _); discriminate.
Qed.

(** A step that cannot run out of fuel, followed by one that cannot. *)
Lemma obind_fuel {A B} (m : outcome A) (f : A -> outcome B) :
  m <> OutOfFuel -> (forall a, m = Ok a -> f a <> OutOfFuel) ->
  obind m f <> OutOfFuel.
Proof.
  intros Hm Hf. destruct m; simpl; try discriminate; [|contradiction].
  apply Hf. reflexivity.
Qed.

Lemma header_line_fuel words st :
  header_line words st <> OutOfFuel /\
  forall st2, header_line words st = Ok (Some st2) ->
              reader (hs_ply st2) = reader (hs_ply st).
Proof.
  unfold header_line.
  destruct (index words 0) as [w0| | |] eqn:E0; cbn [obind];
    try (split; [discriminate|intros; discriminate]);
    [|exfalso; eapply index_fuel; eauto].
  destruct (w0 == "comment").
  { split; [discriminate|]. intros st2 H. injection H as <-. reflexivity. }
  destruct (w0 == "element").
  { destruct (index words 1) as [w1| | |] eqn:E1; cbn [obind];
      try (split; [discriminate|intros; discriminate]);
      [|exfalso; eapply index_fuel; eauto].
    destruct (index words 2) as [w2| | |] eqn:E2; cbn [obind];
      try (split; [discriminate|intros; discriminate]);
      [|exfalso; eapply index_fuel; eauto].
    destruct (strconv.ParseInt w2 0 32) eqn:EP;
      try (split; [discriminate|intros; discriminate]);
      [|exfalso; eapply ParseInt_fuel; eauto].
    split; [discriminate|]. intros st2 H. injection H as <-. reflexivity. }
  destruct (w0 == "property").
  { destruct (index words 1) as [w1| | |] eqn:E1; cbn [obind];
      try (split; [discriminate|intros; discriminate]);
      [|exfalso; eapply index_fuel; eauto].
    assert (G : forall isList lst cw cnt,
      (propName <- index words (cnt + 1) ;;
       (let prop :=
          {| Name := propName; IsList := isList; Data := [];
             Type_ := cw; ListSizeType := lst; pos := propPos st |} in
        elem <- index (Elements (hs_ply st)) (currentElem st) ;;
        es <- store (Elements (hs_ply st)) (currentElem st)
                (set_Properties elem (Properties elem ++ [prop])) ;;
        Ok (Some {| hs_ply := set_Elements (hs_ply st) es;
                    currentElem := currentElem st;
                    propPos := propPos st + 1 |}))) <> OutOfFuel /\
      forall st2,
        (propName <- index words (cnt + 1) ;;
         (let prop :=
            {| Name := propName; IsList := isList; Data := [];
               Type_ := cw; ListSizeType := lst; pos := propPos st |} in
          elem <- index (Elements (hs_ply st)) (currentElem st) ;;
          es <- store (Elements (hs_ply st)) (currentElem st)
                  (set_Properties elem (Properties elem ++ [prop])) ;;
          Ok (Some {| hs_ply := set_Elements (hs_ply st) es;
                      currentElem := currentElem st;
                      propPos := propPos st + 1 |}))) = Ok (Some st2) ->
        reader (hs_ply st2) = reader (hs_ply st)).
    { intros isList lst cw cnt.
      destruct (index words (cnt + 1)) as [pn| | |] eqn:E3; cbn [obind];
        try (split; [discriminate|intros; discriminate]);
        [|exfalso; eapply index_fuel; eauto].
      cbv zeta.
      destruct (index (Elements (hs_ply st)) (currentElem st))
        as [el| | |] eqn:E4; cbn [obind];
        try (split; [discriminate|intros; discriminate]);
        [|exfalso; eapply index_fuel; eauto].
      destruct (store (Elements (hs_ply st)) (currentElem st) _)
        as [es| | |] eqn:E5; cbn [obind];
        try (split; [discriminate|intros; discriminate]);
        [|exfalso; eapply store_fuel; eauto].
      split; [discriminate|]. intros st2 H. injection H as <-. reflexivity. }
    destruct (w1 == "list").
    - destruct (index words 2) as [w2| | |] eqn:E2; cbn [obind];
        try (split; [discriminate|intros; discriminate]);
        [|exfalso; eapply index_fuel; eauto].
      destruct (index words 3) as [w3| | |] eqn:E3; cbn [obind];
        try (split; [discriminate|intros; discriminate]);
        [|exfalso; eapply index_fuel; eauto].
      apply G.
    - cbn [obind]. apply G. }
  destruct (w0 == "obj_info").
  { destruct (index words 1) as [w1| | |] eqn:E1; cbn [obind];
      try (split; [discriminate|intros; discriminate]);
      [|exfalso; eapply index_fuel; eauto].
    destruct (index words 2) as [w2| | |] eqn:E2; cbn [obind];
      try (split; [discriminate|intros; discriminate]);
      [|exfalso; eapply index_fuel; eauto].
    split; [discriminate|]. intros st2 H. injection H as <-. reflexivity. }
  destruct (w0 == "end_header").
  { split; [discriminate|intros; discriminate]. }
  split; [discriminate|]. intros st2 H. injection H as <-. reflexivity.
Qed.

Lemma header_loop_fuel fuel st :
  (length (bufio.pending (reader (hs_ply st))) < fuel)%nat ->
  header_loop fuel st <> OutOfFuel.
Proof.
  revert st. induction fuel as [|fuel IH]; intros st F; [lia|].
  cbn [header_loop].
  destruct (readLine_cases (reader (hs_ply st))) as [E|(line & r' & E & L)];
    rewrite E; cbn [obind]; [discriminate|].
  set (st1 := {| hs_ply := next_line (hs_ply st) r';
                 currentElem := currentElem st; propPos := propPos st |}).
  destruct (header_line_fuel
              (FindAllStringSubmatch wordMatcher line) st1) as [H1 H2].
  destruct (header_line _ st1) as [[st2|]| | |] eqn:HL; cbn [obind];
    try discriminate; [|contradiction].
  apply IH. rewrite (H2 st2 eq_refl). subst st1.
  cbn [hs_ply reader next_line]. lia.
Qed.

Lemma parseHeader_fuel p : parseHeader p <> OutOfFuel.
Proof.
  unfold parseHeader.
  destruct (readLine_cases (reader p)) as [E|(line & r1 & E & L)];
    rewrite E; cbn [obind]; [discriminate|].
  destruct (negb (line == "ply")); [discriminate|].
  destruct (readLine_cases (reader (next_line p r1)))
    as [E2|(line2 & r2 & E2 & L2)]; rewrite E2; cbn [obind]; [discriminate|].
  destruct (negb _); [discriminate|].
  apply obind_fuel; [apply index_fuel|]. intros w0 _.
  destruct (negb _); [discriminate|].
  apply obind_fuel; [apply index_fuel|]. intros w1 _.
  apply obind_fuel.
  - destruct (w1 == "ascii"); [discriminate|].
    destruct (w1 == "binary_big_endian"); [discriminate|].
    destruct (w1 == "binary_little_endian"); discriminate.
  - intros p' _. apply header_loop_fuel. cbn [hs_ply]. lia.
Qed.

Lemma ReadFull_loop_fuel fuel need acc r :
  (need < fuel)%nat -> io.ReadFull_loop fuel need acc r <> OutOfFuel.
Proof.
  revert need acc r. induction fuel as [|fuel IH]; intros need acc r F;
    [lia|].
  destruct need as [|need]; [discriminate|]. cbn [io.ReadFull_loop].
  destruct (bufio.pending r) as [|x p] eqn:P.
  - rewrite Read_nothing by (assumption || lia).
    destruct (acc ++ []); discriminate.
  - destruct (Read_prefix (S need) r) as (got & r1 & E & G & Lg & Pg);
      [lia|rewrite P; discriminate|].
    rewrite E. apply IH. destruct got; [contradiction|]. simpl. lia.
Qed.

Lemma Read_uint32_fuel order r : binary.Read_uint32 order r <> OutOfFuel.
Proof.
  unfold binary.Read_uint32, io.ReadFull.
  pose proof (ReadFull_loop_fuel 5 4 [] r ltac:(lia)) as H.
  destruct (io.ReadFull_loop 5 4 [] r) as [[bs r']| | |];
    [destruct order| | |]; try discriminate. contradiction.
Qed.

Lemma read_value_fuel n r : read_value n r <> OutOfFuel.
Proof.
  unfold read_value. destruct (bufio.Read n r) as [[got e] r'].
  discriminate.
Qed.

Lemma toBType_fuel r t : toBType r t <> OutOfFuel.
Proof.
  unfold toBType.
  repeat match goal with
         | |- (if ?c then _ else _) <> _ => destruct c
         end; try apply read_value_fuel. discriminate.
Qed.

Lemma write_value_fuel w t : write_value w t <> OutOfFuel.
Proof.
  unfold write_value. destruct (bytes_Buffer.Write _ _). discriminate.
Qed.

Lemma toType_fuel d t : toType d t <> OutOfFuel.
Proof.
  unfold toType.
  repeat match goal with
         | |- (if ?c then _ else _) <> _ => destruct c
         end;
    try discriminate;
    (apply obind_fuel;
     [first [apply ParseInt_fuel|apply ParseUint_fuel|apply ParseFloat_fuel]
     |intros a _; apply write_value_fuel]).
Qed.

Lemma make_Z_fuel n : make_Z n <> OutOfFuel.
Proof. unfold make_Z. destruct (n <? 0); discriminate. Qed.

Lemma alloc_Data_fuel size props : alloc_Data size props <> OutOfFuel.
Proof.
  induction props as [|prop rest IH]; cbn [alloc_Data]; [discriminate|].
  destruct (size <? 0); [discriminate|].
  apply obind_fuel; [exact IH|]. intros; discriminate.
Qed.

Lemma binary_list_values_fuel n t l r :
  binary_list_values n t l r <> OutOfFuel.
Proof.
  revert l r. induction n as [|n IH]; intros l r; cbn [binary_list_values];
    [discriminate|].
  apply obind_fuel; [apply toBType_fuel|]. intros [b r1] _. apply IH.
Qed.

Lemma binary_prop_fuel order prop r : binary_prop order prop r <> OutOfFuel.
Proof.
  unfold binary_prop, binary_list. destruct (IsList prop);
    [|apply toBType_fuel].
  apply obind_fuel; [apply Read_uint32_fuel|]. intros [num r1] _.
  apply obind_fuel; [apply make_Z_fuel|]. intros l _.
  apply obind_fuel; [apply binary_list_values_fuel|].
  intros [l' r2] _. discriminate.
Qed.

Lemma binary_row_fuel order i props r :
  binary_row order i props r <> OutOfFuel.
Proof.
  revert r. induction props as [|prop rest IH]; intros r; cbn [binary_row];
    [discriminate|].
  apply obind_fuel; [apply binary_prop_fuel|]. intros [v r1] _.
  apply obind_fuel; [apply store_fuel|]. intros d _.
  apply obind_fuel; [apply IH|]. intros [rest' r2] _. discriminate.
Qed.

Lemma binary_rows_fuel order n i props r :
  binary_rows order n i props r <> OutOfFuel.
Proof.
  revert i props r. induction n as [|n IH]; intros i props r;
    cbn [binary_rows]; [discriminate|].
  apply obind_fuel; [apply binary_row_fuel|]. intros [props' r1] _. apply IH.
Qed.

Lemma binary_elements_fuel order es r :
  binary_elements order es r <> OutOfFuel.
Proof.
  revert r. induction es as [|elem rest IH]; intros r;
    cbn [binary_elements]; [discriminate|].
  apply obind_fuel; [apply alloc_Data_fuel|]. intros props _.
  apply obind_fuel; [apply binary_rows_fuel|]. intros [props' r1] _.
  apply obind_fuel; [apply IH|]. intros [rest' r2] _. discriminate.
Qed.

Lemma ascii_list_values_fuel n words cw t l :
  ascii_list_values n words cw t l <> OutOfFuel.
Proof.
  revert cw l. induction n as [|n IH]; intros cw l;
    cbn [ascii_list_values]; [discriminate|].
  apply obind_fuel; [apply index_fuel|]. intros w _.
  apply obind_fuel; [apply toType_fuel|]. intros b _. apply IH.
Qed.

Lemma ascii_prop_fuel words cw prop : ascii_prop words cw prop <> OutOfFuel.
Proof.
  unfold ascii_prop. destruct (IsList prop).
  - apply obind_fuel; [apply index_fuel|]. intros w _.
    apply obind_fuel; [apply ParseInt_fuel|]. intros num _.
    apply obind_fuel; [apply make_Z_fuel|]. intros l _.
    apply obind_fuel; [apply ascii_list_values_fuel|].
    intros [l' cw'] _. discriminate.
  - apply obind_fuel; [apply index_fuel|]. intros w _.
    apply obind_fuel; [apply toType_fuel|]. intros; discriminate.
Qed.

Lemma ascii_props_fuel words cw i props :
  ascii_props words cw i props <> OutOfFuel.
Proof.
  revert cw. induction props as [|prop rest IH]; intros cw;
    cbn [ascii_props]; [discriminate|].
  apply obind_fuel; [apply ascii_prop_fuel|]. intros [v cw1] _.
  apply obind_fuel; [apply store_fuel|]. intros d _.
  apply obind_fuel; [apply IH|]. intros; discriminate.
Qed.

Lemma ascii_row_fuel i props r : ascii_row i props r <> OutOfFuel.
Proof.
  unfold ascii_row.
  destruct (readLine_cases r) as [E|(line & r' & E & L)]; rewrite E;
    cbn [obind]; [discriminate|].
  destruct (FindAllStringSubmatch numMatcher line); [discriminate|].
  apply obind_fuel; [apply ascii_props_fuel|]. intros; discriminate.
Qed.

Lemma ascii_rows_fuel n i props r : ascii_rows n i props r <> OutOfFuel.
Proof.
  revert i props r. induction n as [|n IH]; intros i props r;
    cbn [ascii_rows]; [discriminate|].
  apply obind_fuel; [apply ascii_row_fuel|]. intros [props' r1] _. apply IH.
Qed.

Lemma ascii_elements_fuel es r : ascii_elements es r <> OutOfFuel.
Proof.
  revert r. induction es as [|elem rest IH]; intros r;
    cbn [ascii_elements]; [discriminate|].
  apply obind_fuel; [apply alloc_Data_fuel|]. intros props _.
  apply obind_fuel; [apply ascii_rows_fuel|]. intros [props' r1] _.
  apply obind_fuel; [apply IH|]. intros [rest' r2] _. discriminate.
Qed.

(** [Load] always answers: with a document, an error or a panic. *)
Lemma Load_answers fs fname p : Load fs fname p <> OutOfFuel.
Proof.
  unfold Load. destruct (fs fname); [|discriminate].
  apply obind_fuel; [apply parseHeader_fuel|]. intros q _.
  destruct (FileType q =? BinaryBigEndian);
    [|destruct (FileType q =? BinaryLittleEndian);
      [|destruct (FileType q =? Ascii); [|discriminate]]].
  - unfold parseBinaryBigEndian, parseBinary.
    apply obind_fuel; [apply binary_elements_fuel|].
    intros [es r] _. discriminate.
  - unfold parseBinaryLittleEndian, parseBinary.
    apply obind_fuel; [apply binary_elements_fuel|].
    intros [es r] _. discriminate.
  - unfold parseASCII.
    apply obind_fuel; [apply ascii_elements_fuel|].
    intros [es r] _. discriminate.
Qed.

(** ** More on slices and the codecs *)

Lemma appendBytes_cap s data :
  wf_slice s ->
  cap (appendBytes s data) =
    if (cap s <? len s + length data)%nat
    then ((len s + length data) * 2)%nat
    else cap s.
Proof.
  intros W. pose proof (length_contents s W) as L.
  unfold appendBytes, cap.
  destruct (length (arr s) <? len s + length data)%nat eqn:E;
    cbn [arr len].
  - rewrite !length_app, length_firstn, length_skipn, !length_app,
      length_zeros, L. lia.
  - apply Nat.ltb_ge in E.
    rewrite !length_app, length_firstn, length_skipn.
    unfold wf_slice in W. lia.
Qed.

Lemma skipn_zeros k n : skipn k (zeros n) = zeros (n - k).
Proof.
  revert k. induction n as [|n IH]; intros [|k]; simpl; auto.
Qed.

Lemma toBType_read_value r t :
  recognized t = true -> toBType r t = read_value (type_width t) r.
Proof.
  intros R. type_cases t; try (vm_compute in R; discriminate);
    try reflexivity.
  exfalso. unfold recognized, is_type in R. simpl in R.
  repeat match goal with
         | H : (t == ?n) = false |- _ => rewrite ?H in R; clear H
         end.
  discriminate.
Qed.

Lemma type_width_pos t : recognized t = true -> (0 < type_width t)%nat.
Proof. intros R. apply recognized_size in R. unfold type_width. lia. Qed.

(** A read that the buffer can serve. *)
Lemma Read_buffered n r :
  (0 < n <= length (bufio.rbuf r))%nat ->
  bufio.Read n r =
    (firstn n (bufio.rbuf r), None,
     {| bufio.rbuf := skipn n (bufio.rbuf r); bufio.rsrc := bufio.rsrc r |}).
Proof.
  intros H. unfold bufio.Read. destruct n as [|n]; [lia|].
  destruct (bufio.rbuf r) as [|b l]; [simpl in H; lia|]. reflexivity.
Qed.

Lemma read_value_buffered n r :
  (0 < n <= length (bufio.rbuf r))%nat ->
  read_value n r =
    Ok (Some {| arr := firstn n (bufio.rbuf r); len := n |},
        {| bufio.rbuf := skipn n (bufio.rbuf r); bufio.rsrc := bufio.rsrc r |}).
Proof.
  intros H. unfold read_value. rewrite Read_buffered by exact H.
  cbn [make arr len]. rewrite length_firstn, Nat.min_l by lia.
  rewrite skipn_zeros, Nat.sub_diag. cbn [zeros repeat].
  rewrite app_nil_r. reflexivity.
Qed.

Lemma read_value_short n r :
  (0 < length (bufio.rbuf r) < n)%nat ->
  read_value n r =
    Ok (Some {| arr := bufio.rbuf r ++ zeros (n - length (bufio.rbuf r));
                len := n |},
        {| bufio.rbuf := []; bufio.rsrc := bufio.rsrc r |}).
Proof.
  intros H. destruct r as [buf src]. cbn [bufio.rbuf bufio.rsrc] in *.
  unfold read_value, bufio.Read. destruct n as [|n]; [lia|].
  cbn [bufio.rbuf bufio.rsrc].
  destruct buf as [|b l]; [simpl in H; lia|]. cbv iota beta.
  assert (Q : (length (b :: l) <= S n)%nat) by lia.
  rewrite (firstn_all2 (b :: l) Q), (skipn_all2 (b :: l) Q).
  cbn [make arr len]. rewrite skipn_zeros. reflexivity.
Qed.

(** With an empty buffer the file is read, a buffer at a time. *)
Lemma read_value_unbuffered n r :
  bufio.rbuf r = [] -> (0 < n <= length (bufio.rsrc r))%nat ->
  exists r',
    read_value n r = Ok (Some {| arr := firstn n (bufio.rsrc r); len := n |}, r') /\
    bufio.pending r' = skipn n (bufio.rsrc r).
Proof.
  intros B H. unfold read_value, bufio.Read. destruct n as [|n]; [lia|].
  rewrite B. destruct (bufio.rsrc r) as [|x src] eqn:S0; [simpl in H; lia|].
  rewrite <- S0 in *. clear S0 x src.
  destruct (bufio.defaultBufSize <=? S n)%nat eqn:E.
  - eexists. split.
    + cbn [make arr len]. rewrite length_firstn, Nat.min_l by lia.
      rewrite skipn_zeros, Nat.sub_diag. cbn [zeros repeat].
      rewrite app_nil_r. reflexivity.
    + reflexivity.
  - apply Nat.leb_gt in E. eexists. split.
    + cbn [make arr len]. rewrite firstn_firstn, Nat.min_l by lia.
      rewrite length_firstn, Nat.min_l by lia.
      rewrite skipn_zeros, Nat.sub_diag. cbn [zeros repeat].
      rewrite app_nil_r. reflexivity.
    + unfold bufio.pending. cbn [bufio.rbuf bufio.rsrc].
      rewrite <- (firstn_skipn bufio.defaultBufSize (bufio.rsrc r)) at 3.
      rewrite skipn_app, length_firstn.
      replace (S n - Nat.min bufio.defaultBufSize (length (bufio.rsrc r)))%nat
        with 0%nat by lia.
      reflexivity.
Qed.

Lemma set_nth_length {A} (l : list A) n v : length (set_nth l n v) = length l.
Proof.
  revert n. induction l as [|a l IH]; intros [|n]; simpl; auto.
Qed.

Lemma store_Ok {A} (l : list A) i v :
  0 <= i < Z.of_nat (length l) -> store l i v = Ok (set_nth l (Z.to_nat i) v).
Proof.
  intros H. unfold store.
  replace (i <? 0) with false by (symmetry; apply Z.ltb_ge; lia).
  replace (Z.of_nat (length l) <=? i) with false
    by (symmetry; apply Z.leb_gt; lia).
  reflexivity.
Qed.

Lemma binary_row_scalar order i props :
  Forall (scalar_at i) props ->
  forall r,
    (row_width props <= length (bufio.rbuf r))%nat ->
    binary_row order i props r =
      Ok (scalar_row i props (bufio.rbuf r),
          {| bufio.rbuf := skipn (row_width props) (bufio.rbuf r);
             bufio.rsrc := bufio.rsrc r |}).
Proof.
  induction 1 as [|prop rest (L & R & I) Hrest IH]; intros r W.
  - cbn [binary_row scalar_row row_width skipn]. destruct r; reflexivity.
  - cbn [binary_row scalar_row row_width] in *.
    unfold binary_prop. rewrite L, toBType_read_value by exact R.
    pose proof (type_width_pos _ R) as P.
    rewrite read_value_buffered by lia. cbn [obind].
    rewrite store_Ok by exact I. cbn [obind].
    rewrite IH by (cbn [bufio.rbuf]; rewrite length_skipn; lia).
    cbn [obind bufio.rbuf bufio.rsrc].
    rewrite skipn_skipn, (Nat.add_comm (row_width rest)). reflexivity.
Qed.

Lemma binary_list_values_contents n t l r l' r' :
  binary_list_values n t l r = Ok (l', r') -> wf_slice l ->
  exists vals,
    contents l' = contents l ++ vals /\
    Z.of_nat (length vals) = Z.of_nat n * SizeOfType t.
Proof.
  revert l r. induction n as [|n IH]; intros l r H W.
  - simpl in H. injection H as <- _. exists []. rewrite app_nil_r.
    split; [reflexivity|simpl; lia].
  - cbn [binary_list_values] in H. inv_bind H. destruct a as [b r1].
    apply toBType_length in E.
    destruct (appendBytes_contents l (elems b) W) as [C W'].
    destruct (IH _ _ H W') as (vals & C' & Lv).
    exists (elems b ++ vals). split.
    + rewrite C', C, app_assoc. reflexivity.
    + rewrite length_app. lia.
Qed.

(** ** More on the header *)

Lemma readLine_EOF r : ~ In x0a (bufio.pending r) -> readLine r = Err EOF.
Proof.
  intros N. unfold readLine, bufio.ReadString.
  rewrite ReadString_loop_no_delim; [reflexivity|exact N|].
  match goal with
  | |- context [if ?c then _ else _] => destruct c
  end; lia.
Qed.

Lemma ply_line_no_newline : ~ In x0a ("ply" : bytes).
Proof.
  intros I. repeat (destruct I as [I|I]; [discriminate|]). exact I.
Qed.

(** The first two lines of a header: [ply] and any second line. *)
Lemma parseHeader_two_lines p l2 rest :
  bufio.pending (reader p) = "ply" ++ x0a :: l2 ++ x0a :: rest ->
  ~ In x0a l2 ->
  exists r1 r2,
    bufio.pending r2 = rest /\
    parseHeader p =
      (let p := next_line (next_line p r1) r2 in
       let words := tokens (strip (l2 ++ [x0a])) in
       if negb (length words =? 3)%nat then Err (incorrect_format p)
       else
         w0 <- index words 0 ;;
         if negb (w0 == "format") then Err (incorrect_format p)
         else
           w1 <- index words 1 ;;
           p <- (if w1 == "ascii" then Ok (set_FileType p Ascii)
                 else if w1 == "binary_big_endian"
                      then Ok (set_FileType p BinaryBigEndian)
                 else if w1 == "binary_little_endian"
                      then Ok (set_FileType p BinaryLittleEndian)
                 else Err (incorrect_format p)) ;;
           header_loop (S (length (bufio.pending (reader p))))
             {| hs_ply := p; currentElem := -1; propPos := 0 |}).
Proof.
  intros P N.
  destruct (readLine_line (reader p) "ply" _ P ply_line_no_newline)
    as (r1 & E1 & P1).
  destruct (readLine_line r1 l2 rest P1 N) as (r2 & E2 & P2).
  exists r1, r2. split; [exact P2|].
  unfold parseHeader. rewrite E1. cbn [obind].
  change (strip ("ply" ++ [x0a])) with ("ply" : bytes).
  change ("ply" == "ply") with true. cbn [negb].
  cbn [reader next_line]. rewrite E2. cbn [obind].
  reflexivity.
Qed.

(** After a well-formed format line the loop starts on the rest. *)
Lemma parseHeader_format p ft lf rest :
  bufio.pending (reader p) = "ply" ++ x0a :: lf ++ x0a :: rest ->
  spaced ["format"; mode_name ft; "1.0"] lf -> is_mode ft ->
  exists p2,
    parseHeader p =
      header_loop (S (length rest))
        {| hs_ply := p2; currentElem := -1; propPos := 0 |} /\
    Elements p2 = Elements p /\ FileType p2 = ft /\
    bufio.pending (reader p2) = rest /\ filename p2 = filename p /\
    currentLine p2 = currentLine p + 2 /\
    ObjInfoItems p2 = ObjInfoItems p.
Proof.
  intros P Sf M.
  assert (Tf : Forall (fun w => is_token w = true)
                 ["format"; mode_name ft; "1.0"]).
  { destruct M as [->|[->| ->]]; repeat constructor. }
  destruct (parseHeader_two_lines p lf rest P (spaced_no_newline _ _ Sf Tf))
    as (r1 & r2 & P2 & H).
  rewrite H, (line_tokens _ _ Sf Tf). cbv zeta.
  exists (set_FileType (next_line (next_line p r1) r2) ft).
  split.
  - cbn [length Nat.eqb negb].
    change (index ["format"; mode_name ft; "1.0"] 0)
      with (Ok (A := bytes) "format").
    cbn [obind]. change ("format" == "format") with true. cbn [negb].
    change (index ["format"; mode_name ft; "1.0"] 1) with (Ok (mode_name ft)).
    cbn [obind].
    destruct M as [->|[->| ->]];
      repeat match goal with
             | |- context [?a == ?b] =>
                 let v := eval vm_compute in (a == b) in
                 change (a == b) with v
             end;
      cbv iota; cbn [obind]; cbn [reader set_FileType next_line];
      rewrite P2; reflexivity.
  - cbn [Elements FileType reader filename currentLine ObjInfoItems
         set_FileType next_line].
    repeat split; try assumption. lia.
Qed.

(** Lines that declare nothing leave the loop where it stands. *)
Lemma noise_run te :
  elems_text [] te ->
  forall st E ce pp ft rest,
    at_state st E ce pp ft (te ++ rest) ->
    exists st' k,
      (k <= length te)%nat /\
      (forall f, header_loop (k + f) st = header_loop f st') /\
      at_state st' E ce pp ft rest.
Proof.
  intros H. remember [] as es eqn:Ees.
  induction H as [|l es t Nl Et IH|e es l tp t Sp Pt Et IH];
    intros st E ce pp ft rest A.
  - exists st, 0%nat. split; [cbn [length]; lia|].
    split; [reflexivity|exact A].
  - rewrite <- app_assoc in A. cbn [app] in A.
    destruct (noise_step _ _ _ _ _ _ _ Nl A) as (st1 & H1 & A1).
    destruct (IH Ees st1 E ce pp ft rest A1) as (st' & k & Hk & Hrun & R).
    exists st', (S k). split; [rewrite length_app; cbn [length]; lia|].
    split; [|exact R].
    intros f. cbn [Nat.add]. rewrite H1. apply Hrun.
  - discriminate.
Qed.

Lemma header_line_no_words st :
  header_line [] st = Panic (IndexOutOfRange 0 0).
Proof. reflexivity. Qed.

Lemma header_line_property_first d st :
  wf_prop d = true ->
  Elements (hs_ply st) = [] -> currentElem st = -1 ->
  header_line (prop_words d) st = Panic (IndexOutOfRange (-1) 0).
Proof.
  intros W HE HC. unfold wf_prop in W.
  apply andb_true_iff in W. destruct W as [W W3].
  unfold header_line, prop_words.
  destruct (pd_list d) as [ct|].
  - change (index ["property"; "list"; ct; pd_type d; pd_name d] 0)
      with (Ok (A := bytes) "property").
    cbn [obind].
    change ("property" == "comment") with false.
    change ("property" == "element") with false.
    change ("property" == "property") with true. cbn iota.
    change (index ["property"; "list"; ct; pd_type d; pd_name d] 1)
      with (Ok (A := bytes) "list").
    cbn [obind]. change ("list" == "list") with true. cbn iota.
    change (index ["property"; "list"; ct; pd_type d; pd_name d] 2)
      with (Ok ct).
    change (index ["property"; "list"; ct; pd_type d; pd_name d] 3)
      with (Ok (pd_type d)).
    cbn [obind].
    change (index ["property"; "list"; ct; pd_type d; pd_name d] (3 + 1))
      with (Ok (pd_name d)).
    cbn [obind]. rewrite HE, HC. reflexivity.
  - apply negb_true_iff in W3.
    change (index ["property"; pd_type d; pd_name d] 0)
      with (Ok (A := bytes) "property").
    cbn [obind].
    change ("property" == "comment") with false.
    change ("property" == "element") with false.
    change ("property" == "property") with true. cbn iota.
    change (index ["property"; pd_type d; pd_name d] 1)
      with (Ok (pd_type d)).
    cbn [obind]. rewrite W3. cbn [obind].
    change (index ["property"; pd_type d; pd_name d] (1 + 1))
      with (Ok (pd_name d)).
    cbn [obind]. rewrite HE, HC. reflexivity.
Qed.


(** A header line changes neither the encoding nor the file name. *)
Lemma header_line_keeps words st st2 :
  header_line words st = Ok (Some st2) ->
  FileType (hs_ply st2) = FileType (hs_ply st) /\
  filename (hs_ply st2) = filename (hs_ply st).
Proof.
  unfold header_line. intros H.
  inv_bind H.
  destruct (a == "comment"); [injection H as <-; split; reflexivity|].
  destruct (a == "element").
  { inv_bind H. inv_bind H.
    destruct (strconv.ParseInt a1 0 32); try discriminate.
    injection H as <-. split; reflexivity. }
  destruct (a == "property").
  { inv_bind H. inv_bind H. destruct a1 as [[[isList lst] cw] cnt].
    inv_bind H. cbv zeta in H. inv_bind H. inv_bind H.
    injection H as <-. split; reflexivity. }
  destruct (a == "obj_info").
  { inv_bind H. inv_bind H. injection H as <-. split; reflexivity. }
  destruct (a == "end_header"); [discriminate|].
  injection H as <-. split; reflexivity.
Qed.

Lemma header_loop_keeps fuel st p' :
  header_loop fuel st = Ok p' ->
  FileType p' = FileType (hs_ply st) /\
  filename p' = filename (hs_ply st).
Proof.
  revert st. induction fuel as [|fuel IH]; intros st H; [discriminate|].
  cbn [header_loop] in H. inv_bind H. destruct a as [line r].
  inv_bind H. destruct a as [st2|].
  - apply header_line_keeps in E0. cbn [hs_ply] in E0.
    apply IH in H. destruct H as [H1 H2], E0 as [K1 K2].
    rewrite H1, H2, K1, K2. split; reflexivity.
  - injection H as <-. split; reflexivity.
Qed.

Lemma parseHeader_keeps p p' :
  parseHeader p = Ok p' ->
  is_mode (FileType p') /\ filename p' = filename p.
Proof.
  unfold parseHeader. intros H. inv_bind H. destruct a as [line r].
  destruct (negb (line == "ply")); [discriminate|].
  inv_bind H. destruct a as [line2 r2].
  destruct (negb _); [discriminate|].
  inv_bind H. destruct (negb _); [discriminate|].
  apply obind_Ok in H. destruct H as (w1 & Ew1 & H).
  apply obind_Ok in H. destruct H as (p2 & Ep2 & H).
  apply header_loop_keeps in H. cbn [hs_ply] in H. destruct H as [H1 H2].
  rewrite H1, H2.
  destruct (w1 == "ascii");
    [|destruct (w1 == "binary_big_endian");
      [|destruct (w1 == "binary_little_endian"); [|discriminate]]];
    injection Ep2 as <-; split; try reflexivity; unfold is_mode; auto.
Qed.

(** A well-formed start of a header brings the loop to what follows it. *)
Lemma header_prefix_run p ft lf es te rest :
  bufio.pending (reader p) = "ply" ++ x0a :: lf ++ x0a :: te ++ rest ->
  spaced ["format"; mode_name ft; "1.0"] lf -> is_mode ft ->
  elems_text es te -> forallb wf_elem es = true ->
  Elements p = [] ->
  exists st' f ce' pp',
    parseHeader p = header_loop (S f) st' /\
    (length rest <= f)%nat /\
    at_state st' (map schema_elem es) ce' pp' ft rest.
Proof.
  intros P Sf M Et W HE.
  destruct (parseHeader_format p ft lf (te ++ rest) P Sf M)
    as (p2 & H & E2 & F2 & P2 & _).
  destruct (elems_run es te Et W
              {| hs_ply := p2; currentElem := -1; propPos := 0 |}
              [] 0 ft rest) as (st' & k & Hk & Hrun & ce' & pp' & A).
  { unfold at_state. cbn [hs_ply currentElem propPos length Z.of_nat].
    rewrite E2, HE. repeat split; try assumption; reflexivity. }
  exists st', (length te - k + length rest)%nat, ce', pp'.
  split; [|split; [lia|exact A]].
  rewrite H, <- Hrun. f_equal. rewrite length_app. lia.
Qed.

Lemma header_noise_run p ft lf te rest :
  bufio.pending (reader p) = "ply" ++ x0a :: lf ++ x0a :: te ++ rest ->
  spaced ["format"; mode_name ft; "1.0"] lf -> is_mode ft ->
  elems_text [] te ->
  exists st' f,
    parseHeader p = header_loop (S f) st' /\
    (length rest <= f)%nat /\
    at_state st' (Elements p) (-1) 0 ft rest.
Proof.
  intros P Sf M Et.
  destruct (parseHeader_format p ft lf (te ++ rest) P Sf M)
    as (p2 & H & E2 & F2 & P2 & _).
  destruct (noise_run te Et
              {| hs_ply := p2; currentElem := -1; propPos := 0 |}
              (Elements p) (-1) 0 ft rest) as (st' & k & Hk & Hrun & A).
  { unfold at_state. cbn [hs_ply currentElem propPos].
    repeat split; assumption. }
  exists st', (length te - k + length rest)%nat.
  split; [|split; [lia|exact A]].
  rewrite H, <- Hrun. f_equal. rewrite length_app. lia.
Qed.

Ltac no_newline :=
  let I := fresh "I" in
  intros I; repeat (destruct I as [I|I]; [discriminate I|]); exact I.

(** ** Invariants of the body decoders *)

Section BodyInvariant.
(** [Q size isList type data]: what holds of the rows of a property;
    [V isList type v]: what holds of a value that is stored. *)
Variable Q : Z -> bool -> bytes -> list (option slice) -> Prop.
Variable V : bool -> bytes -> option slice -> Prop.
Hypothesis Q_alloc :
  forall size il t, 0 <= size -> Q size il t (repeat None (Z.to_nat size)).
Hypothesis Q_store :
  forall size il t d i v d',
    Q size il t d -> V il t v -> store d i v = Ok d' -> Q size il t d'.

Lemma alloc_Data_inv size props props' :
  alloc_Data size props = Ok props' -> Forall (prop_inv Q size) props'.
Proof.
  revert props'. induction props as [|prop rest IH]; intros props' H.
  - injection H as <-. constructor.
  - cbn [alloc_Data] in H. destruct (size <? 0) eqn:N; [discriminate|].
    inv_bind H. injection H as <-. apply Z.ltb_ge in N.
    constructor; [|apply IH; assumption].
    unfold prop_inv. cbn [IsList Type_ Data set_Data].
    apply Q_alloc. exact N.
Qed.

Section Binary.
Hypothesis V_binary :
  forall order prop r v r',
    binary_prop order prop r = Ok (v, r') ->
    V (IsList prop) (Type_ prop) v.

Lemma binary_row_inv size order i props r props' r' :
  binary_row order i props r = Ok (props', r') ->
  Forall (prop_inv Q size) props -> Forall (prop_inv Q size) props'.
Proof.
  revert r props' r'. induction props as [|prop rest IH];
    intros r props' r' H F.
  - injection H as <- _. constructor.
  - cbn [binary_row] in H. inv_bind H. destruct a as [v r1].
    inv_bind H. inv_bind H. destruct a0 as [rest' r2].
    injection H as <- _.
    inversion F as [|? ? Fp Fr]; subst. constructor.
    + unfold prop_inv. cbn [IsList Type_ Data set_Data].
      eapply Q_store; [exact Fp| |exact E0].
      eapply V_binary. exact E.
    + eapply IH; eauto.
Qed.

Lemma binary_rows_inv size order n i props r props' r' :
  binary_rows order n i props r = Ok (props', r') ->
  Forall (prop_inv Q size) props -> Forall (prop_inv Q size) props'.
Proof.
  revert i props r. induction n as [|n IH]; intros i props r H F.
  - injection H as <- _. exact F.
  - cbn [binary_rows] in H. inv_bind H. destruct a as [props1 r1].
    eapply IH; eauto. eapply binary_row_inv; eauto.
Qed.

Lemma binary_elements_inv order es r es' r' :
  binary_elements order es r = Ok (es', r') -> Forall (elem_inv Q) es'.
Proof.
  revert r es' r'. induction es as [|elem rest IH]; intros r es' r' H.
  - injection H as <- _. constructor.
  - cbn [binary_elements] in H. inv_bind H. inv_bind H.
    destruct a0 as [props' r1]. inv_bind H. destruct a0 as [rest' r2].
    injection H as <- _. constructor; [|eapply IH; eauto].
    unfold elem_inv. cbn [Size Properties set_Properties].
    eapply binary_rows_inv; eauto. eapply alloc_Data_inv; eauto.
Qed.
End Binary.

Section Text.
Hypothesis V_ascii :
  forall words cw prop v cw',
    ascii_prop words cw prop = Ok (v, cw') ->
    V (IsList prop) (Type_ prop) v.

Lemma ascii_props_inv size words cw i props props' :
  ascii_props words cw i props = Ok props' ->
  Forall (prop_inv Q size) props -> Forall (prop_inv Q size) props'.
Proof.
  revert cw props'. induction props as [|prop rest IH];
    intros cw props' H F.
  - injection H as <-. constructor.
  - cbn [ascii_props] in H. inv_bind H. destruct a as [v cw1].
    inv_bind H. inv_bind H. injection H as <-.
    inversion F as [|? ? Fp Fr]; subst. constructor.
    + unfold prop_inv. cbn [IsList Type_ Data set_Data].
      eapply Q_store; [exact Fp| |exact E0].
      eapply V_ascii. exact E.
    + eapply IH; eauto.
Qed.

Lemma ascii_row_inv size i props r props' r' :
  ascii_row i props r = Ok (props', r') ->
  Forall (prop_inv Q size) props -> Forall (prop_inv Q size) props'.
Proof.
  unfold ascii_row. intros H F. inv_bind H. destruct a as [line r1].
  destruct (FindAllStringSubmatch numMatcher line) eqn:W.
  - injection H as <- _. exact F.
  - inv_bind H. injection H as <- _. eapply ascii_props_inv; eauto.
Qed.

Lemma ascii_rows_inv size n i props r props' r' :
  ascii_rows n i props r = Ok (props', r') ->
  Forall (prop_inv Q size) props -> Forall (prop_inv Q size) props'.
Proof.
  revert i props r. induction n as [|n IH]; intros i props r H F.
  - injection H as <- _. exact F.
  - cbn [ascii_rows] in H. inv_bind H. destruct a as [props1 r1].
    eapply IH; eauto. eapply ascii_row_inv; eauto.
Qed.

Lemma ascii_elements_inv es r es' r' :
  ascii_elements es r = Ok (es', r') -> Forall (elem_inv Q) es'.
Proof.
  revert r es' r'. induction es as [|elem rest IH]; intros r es' r' H.
  - injection H as <- _. constructor.
  - cbn [ascii_elements] in H. inv_bind H. inv_bind H.
    destruct a0 as [props' r1]. inv_bind H. destruct a0 as [rest' r2].
    injection H as <- _. constructor; [|eapply IH; eauto].
    unfold elem_inv. cbn [Size Properties set_Properties].
    eapply ascii_rows_inv; eauto. eapply alloc_Data_inv; eauto.
Qed.

Lemma parseASCII_inv p p' :
  parseASCII p = Ok p' -> Forall (elem_inv Q) (Elements p').
Proof.
  unfold parseASCII. intros H. inv_bind H. destruct a as [es r].
  injection H as <-. cbn [Elements set_reader set_Elements].
  eapply ascii_elements_inv; eauto.
Qed.
End Text.
End BodyInvariant.

(** What [Load] goes through when it succeeds. *)
Lemma Load_Ok_cases fs fname p0 p :
  Load fs fname p0 = Ok p ->
  exists ph,
    filename ph = fname /\
    ((FileType ph = BinaryBigEndian /\ parseBinaryBigEndian ph = Ok p) \/
     (FileType ph = BinaryLittleEndian /\ parseBinaryLittleEndian ph = Ok p) \/
     (FileType ph = Ascii /\ parseASCII ph = Ok p)).
Proof.
  unfold Load. destruct (fs fname); [|discriminate].
  intros H. apply obind_Ok in H. destruct H as (ph & Eh & H).
  exists ph. split.
  { apply parseHeader_keeps in Eh. destruct Eh as [_ Eh]. exact Eh. }
  destruct (FileType ph =? BinaryBigEndian) eqn:E1;
    [apply Z.eqb_eq in E1; auto|].
  destruct (FileType ph =? BinaryLittleEndian) eqn:E2;
    [apply Z.eqb_eq in E2; auto|].
  destruct (FileType ph =? Ascii) eqn:E3;
    [apply Z.eqb_eq in E3; auto|discriminate].
Qed.

Lemma parseBinary_keeps p p' :
  parseBinary p = Ok p' ->
  FileType p' = FileType p /\ byteOrder p' = byteOrder p /\
  filename p' = filename p.
Proof.
  unfold parseBinary. intros H. inv_bind H. destruct a as [es r].
  injection H as <-. repeat split.
Qed.

Lemma parseASCII_keeps p p' :
  parseASCII p = Ok p' ->
  FileType p' = FileType p /\ byteOrder p' = Some binary.LittleEndian /\
  filename p' = filename p.
Proof.
  unfold parseASCII. intros H. inv_bind H. destruct a as [es r].
  injection H as <-. repeat split.
Qed.

Lemma Load_byteOrder fs fname p0 p :
  Load fs fname p0 = Ok p ->
  byteOrder p =
    Some (if FileType p =? BinaryBigEndian then binary.BigEndian
          else binary.LittleEndian).
Proof.
  intros H. destruct (Load_Ok_cases _ _ _ _ H) as (ph & _ & [C|[C|C]]);
    destruct C as [F E].
  - apply parseBinary_keeps in E. destruct E as (E1 & E2 & _).
    rewrite E2, E1. cbn [FileType byteOrder set_byteOrder]. rewrite F.
    reflexivity.
  - apply parseBinary_keeps in E. destruct E as (E1 & E2 & _).
    rewrite E2, E1. cbn [FileType byteOrder set_byteOrder]. rewrite F.
    reflexivity.
  - apply parseASCII_keeps in E. destruct E as (E1 & E2 & _).
    rewrite E2, E1, F. reflexivity.
Qed.

Lemma Load_inv (Q : Z -> bool -> bytes -> list (option slice) -> Prop)
    (V : bool -> bytes -> option slice -> Prop) :
  (forall size il t, 0 <= size -> Q size il t (repeat None (Z.to_nat size))) ->
  (forall size il t d i v d',
      Q size il t d -> V il t v -> store d i v = Ok d' -> Q size il t d') ->
  (forall order prop r v r',
      binary_prop order prop r = Ok (v, r') ->
      V (IsList prop) (Type_ prop) v) ->
  (forall words cw prop v cw',
      ascii_prop words cw prop = Ok (v, cw') ->
      V (IsList prop) (Type_ prop) v) ->
  forall fs fname p0 p,
    Load fs fname p0 = Ok p -> Forall (elem_inv Q) (Elements p).
Proof.
  intros Qa Qs Vb Va fs fname p0 p H.
  destruct (Load_Ok_cases _ _ _ _ H) as (ph & _ & [C|[C|C]]);
    destruct C as [F E].
  - unfold parseBinaryBigEndian, parseBinary in E. inv_bind E.
    destruct a as [es r]. injection E as <-.
    cbn [Elements set_reader set_Elements].
    eapply (binary_elements_inv Q V Qa Qs Vb); eauto.
  - unfold parseBinaryLittleEndian, parseBinary in E. inv_bind E.
    destruct a as [es r]. injection E as <-.
    cbn [Elements set_reader set_Elements].
    eapply (binary_elements_inv Q V Qa Qs Vb); eauto.
  - eapply (parseASCII_inv Q V Qa Qs Va); eauto.
Qed.

Lemma Load_rows_complete fs fname p0 p :
  Load fs fname p0 = Ok p -> Forall rows_complete (Elements p).
Proof.
  intros H.
  apply (Load_inv (fun size _ _ d => Z.of_nat (length d) = size)
           (fun _ _ _ => True)) in H.
  - exact H.
  - intros size _ _ N. rewrite repeat_length. lia.
  - intros size _ _ d i v d' L _ S0. unfold store in S0.
    destruct (_ || _); [discriminate|]. injection S0 as <-.
    rewrite set_nth_length. exact L.
  - intros. exact I.
  - intros. exact I.
Qed.

(** ** The text decoder stores zero bytes only *)

Lemma Forall_zeros n : Forall (fun b => b = x00) (zeros n).
Proof.
  apply Forall_forall. intros b Hb. apply repeat_spec in Hb. exact Hb.
Qed.

Lemma toType_row_zero w t b : toType w t = Ok b -> row_zero b.
Proof.
  intros H. apply toType_result in H. subst b. unfold row_zero.
  destruct (recognized t); cbn [elems]; [|constructor].
  rewrite contents_make. apply Forall_zeros.
Qed.

Lemma ascii_list_values_zero n words cw t l l' cw' :
  ascii_list_values n words cw t l = Ok (l', cw') -> wf_slice l ->
  Forall (fun b => b = x00) (contents l) ->
  Forall (fun b => b = x00) (contents l').
Proof.
  revert cw l. induction n as [|n IH]; intros cw l H W Z0.
  - injection H as <- _. exact Z0.
  - cbn [ascii_list_values] in H. inv_bind H. inv_bind H.
    destruct (appendBytes_contents l (elems a0) W) as [C W'].
    apply IH in H; [exact H|exact W'|].
    rewrite C. apply Forall_app. split; [exact Z0|].
    apply (toType_row_zero _ _ _ E0).
Qed.

Lemma ascii_prop_zero words cw prop v cw' :
  ascii_prop words cw prop = Ok (v, cw') -> row_zero v.
Proof.
  unfold ascii_prop. intros H. destruct (IsList prop).
  - inv_bind H. inv_bind H. inv_bind H. inv_bind H.
    destruct a2 as [l cw1]. injection H as <- _.
    unfold make_Z in E1. destruct (_ <? 0); [discriminate|].
    injection E1 as <-.
    unfold row_zero. cbn [elems].
    eapply ascii_list_values_zero; [exact E2|apply wf_make|].
    rewrite contents_make. apply Forall_zeros.
  - inv_bind H. inv_bind H. injection H as <- _.
    eapply toType_row_zero; eauto.
Qed.

Lemma parseASCII_rows_zero p p' :
  parseASCII p = Ok p' -> Forall rows_zero (Elements p').
Proof.
  intros H.
  apply (parseASCII_inv (fun _ _ _ d => Forall row_zero d)
           (fun _ _ v => row_zero v)) in H.
  - exact H.
  - intros size _ _ _. apply Forall_forall. intros x Hx.
    apply repeat_spec in Hx. subst x. constructor.
  - intros size _ _ d i v d' F Vv S0.
    eapply store_sound; eauto.
  - intros words cw prop v cw' E. eapply ascii_prop_zero; eauto.
Qed.

(** ** [ReadVertices] *)

Lemma index_in_range {A} (l : list A) i :
  0 <= i < Z.of_nat (length l) -> exists x, index l i = Ok x.
Proof.
  intros H. unfold index.
  replace (i <? 0) with false by (symmetry; apply Z.ltb_ge; lia).
  replace (Z.of_nat (length l) <=? i) with false
    by (symmetry; apply Z.leb_gt; lia).
  cbn [orb].
  destruct (nth_error l (Z.to_nat i)) eqn:E; [eexists; reflexivity|].
  apply nth_error_None in E. lia.
Qed.

Lemma index_past_end {A} (l : list A) :
  index l (Z.of_nat (length l)) =
    Panic (IndexOutOfRange (Z.of_nat (length l)) (Z.of_nat (length l))).
Proof.
  unfold index. rewrite Z.leb_refl, orb_true_r. reflexivity.
Qed.

Lemma read_float32_ok o v x : exists y, read_float32 (Some o) v x = Ok y.
Proof.
  unfold read_float32.
  destruct (elems v) as [|b0 [|b1 [|b2 [|b3 t]]]]; eexists; reflexivity.
Qed.

Lemma read_column_ok o b :
  forall i col,
    0 <= i -> Z.of_nat (length col) = i + Z.of_nat (length b) ->
    exists col',
      read_column (Some o) b i col = Ok col' /\ length col' = length col.
Proof.
  induction b as [|v b IH]; intros i col Hi L.
  - exists col. split; reflexivity.
  - cbn [length] in L. cbn [read_column].
    destruct (index_in_range col i) as (x & Ex); [lia|].
    rewrite Ex. cbn [obind].
    destruct (read_float32_ok o v x) as (y & Ey). rewrite Ey. cbn [obind].
    rewrite store_Ok by lia. cbn [obind].
    destruct (IH (i + 1) (set_nth col (Z.to_nat i) y)) as (col' & E & L');
      [lia|rewrite set_nth_length; lia|].
    exists col'. split; [exact E|].
    rewrite L', set_nth_length. reflexivity.
Qed.

Lemma read_columns_ok p elem o js :
  byteOrder p = Some o -> 0 <= Size elem -> rows_complete elem ->
  Forall (fun j => 0 <= j < Z.of_nat (length (Properties elem))) js ->
  exists cols,
    read_columns p elem js = Ok cols /\
    length cols = length js /\
    Forall (fun c => Z.of_nat (length c) = Size elem) cols.
Proof.
  intros O N C. induction js as [|j js IH]; intros F.
  - exists []. repeat split. constructor.
  - inversion F as [|? ? Fj Fr]; subst.
    destruct (IH Fr) as (cols & E & L & Fc).
    cbn [read_columns].
    destruct (index_in_range (Properties elem) j Fj) as (prop & Ep).
    rewrite Ep. cbn [obind].
    replace (Size elem <? 0) with false by (symmetry; apply Z.ltb_ge; lia).
    cbn [obind]. rewrite O.
    assert (Lp : Z.of_nat (length (Data prop)) = Size elem).
    { unfold rows_complete in C. rewrite Forall_forall in C. apply C.
      unfold index in Ep. destruct (_ || _); [discriminate|].
      destruct (nth_error (Properties elem) (Z.to_nat j)) eqn:En;
        [|discriminate].
      injection Ep as <-. eapply nth_error_In; eauto. }
    destruct (read_column_ok o (Data prop) 0
                (repeat (S754_zero false) (Z.to_nat (Size elem))))
      as (col' & Ec & Lc); [lia|rewrite repeat_length; lia|].
    rewrite Ec. cbn [obind]. rewrite E. cbn [obind].
    exists (col' :: cols). split; [reflexivity|].
    split; [cbn [length]; rewrite L; reflexivity|].
    constructor; [|exact Fc]. rewrite Lc, repeat_length. lia.
Qed.

Lemma rows_complete_Size elem prop :
  rows_complete elem -> In prop (Properties elem) -> 0 <= Size elem.
Proof.
  intros C I. unfold rows_complete in C. rewrite Forall_forall in C.
  rewrite <- (C prop I). lia.
Qed.

Lemma read_columns_short p elem o js1 js2 :
  byteOrder p = Some o -> rows_complete elem ->
  Forall (fun j => 0 <= j < Z.of_nat (length (Properties elem))) js1 ->
  read_columns p elem (js1 ++ Z.of_nat (length (Properties elem)) :: js2) =
    Panic (IndexOutOfRange (Z.of_nat (length (Properties elem)))
                           (Z.of_nat (length (Properties elem)))).
Proof.
  intros O C. induction js1 as [|j js1 IH]; intros F.
  - cbn [app read_columns]. rewrite index_past_end. reflexivity.
  - inversion F as [|? ? Fj Fr]; subst.
    assert (N : 0 <= Size elem).
    { destruct (Properties elem) as [|prop ?] eqn:E;
        [cbn [length] in Fj; lia|].
      apply (rows_complete_Size elem prop C). rewrite E. left. reflexivity. }
    destruct (read_columns_ok p elem o [j] O N C) as (cols & E & L & _);
      [constructor; [exact Fj|constructor]|].
    cbn [read_columns] in E. cbn [app read_columns].
    destruct (index (Properties elem) j) as [prop| | |]; try discriminate.
    cbn [obind] in *.
    destruct (if Size elem <? 0 then _ else _) as [col| | |];
      try discriminate.
    cbn [obind] in *.
    destruct (read_column (byteOrder p) (Data prop) 0 col) as [col'| | |];
      try discriminate.
    cbn [obind]. rewrite (IH Fr). reflexivity.
Qed.

Lemma ascii_props_scalars words cw w i props :
  Forall (fun prop => IsList prop = false) props ->
  index words cw = Ok w ->
  ascii_props words cw i props = ascii_props [w] 0 i props.
Proof.
  intros F E. induction F as [|prop rest L F IH]; [reflexivity|].
  cbn [ascii_props]. unfold ascii_prop. rewrite L, E.
  change (index [w] 0) with (Ok w). cbn [obind].
  destruct (toType w (Type_ prop)) as [b| | |]; try reflexivity.
  cbn [obind]. rewrite IH. reflexivity.
Qed.

(** ** Types the codecs do not know *)

Lemma unrecognized_is_type t :
  recognized t = false ->
  is_type 1 t = false /\ is_type 2 t = false /\ is_type 3 t = false /\
  is_type 4 t = false /\ is_type 5 t = false /\ is_type 6 t = false /\
  is_type 7 t = false /\ is_type 8 t = false.
Proof.
  unfold recognized. cbn [seq existsb]. intros R.
  repeat (apply orb_false_iff in R; destruct R as [? R]).
  repeat split; assumption.
Qed.

(** ** Lists in a text row *)

Lemma index_In {A} (l : list A) k w : index l k = Ok w -> In w l.
Proof.
  unfold index. destruct (_ || _); [discriminate|].
  destruct (nth_error l (Z.to_nat k)) eqn:E; [|discriminate].
  intros H. injection H as <-. eapply nth_error_In; eauto.
Qed.

Lemma index_tail {A} (c : A) (l : list A) k w :
  1 <= k -> index (c :: l) k = Ok w -> In w l.
Proof.
  intros K. unfold index. destruct (_ || _); [discriminate|].
  replace (Z.to_nat k) with (S (Z.to_nat (k - 1))) by lia.
  cbn [nth_error].
  destruct (nth_error l (Z.to_nat (k - 1))) eqn:E; [|discriminate].
  intros H. injection H as <-. eapply nth_error_In; eauto.
Qed.

Lemma ascii_list_values_short t n :
  forall words cw l,
    0 <= cw <= Z.of_nat (length words) ->
    Z.of_nat (length words) - cw < Z.of_nat n ->
    (forall k w, cw <= k -> index words k = Ok w ->
                 exists b, toType w t = Ok b) ->
    ascii_list_values n words cw t l =
      Panic (IndexOutOfRange (Z.of_nat (length words))
                             (Z.of_nat (length words))).
Proof.
  induction n as [|n IH]; intros words cw l R L C; [lia|].
  cbn [ascii_list_values].
  destruct (Z.eq_dec cw (Z.of_nat (length words))) as [->|Ne].
  - rewrite index_past_end. reflexivity.
  - destruct (index_in_range words cw) as (w & Ew); [lia|].
    rewrite Ew. cbn [obind].
    destruct (C cw w (Z.le_refl _) Ew) as (b & Eb). rewrite Eb. cbn [obind].
    apply IH; [lia|lia|].
    intros k w' Hk. apply C. lia.
Qed.

(** ** Counts with a leading zero *)

Lemma octal_digit_value c : octal_digit c = true -> 0 <= bz c - 48 <= 7.
Proof.
  unfold octal_digit. intros H. apply andb_true_iff in H. destruct H as [A B].
  apply Z.leb_le in A, B. lia.
Qed.

Lemma octal_is_digit c : octal_digit c = true -> digit c = true.
Proof.
  unfold octal_digit, digit. intros H.
  apply andb_true_iff in H. destruct H as [A B].
  apply Z.leb_le in A, B. apply andb_true_iff.
  split; apply Z.leb_le; lia.
Qed.

Lemma octal_ge w :
  Forall (fun c => octal_digit c = true) w ->
  forall n, 0 <= n -> n <= octal w n.
Proof.
  induction 1 as [|c w Hc Hw IH]; intros n Hn; cbn [octal]; [lia|].
  apply octal_digit_value in Hc.
  specialize (IH (n * 8 + (bz c - 48))). lia.
Qed.

Lemma ParseUint_loop_octal w :
  Forall (fun c => octal_digit c = true) w ->
  forall n us,
    0 <= n -> octal w n < 2 ^ 31 ->
    strconv.ParseUint_loop true 8 (strconv.maxUint64 / 8 + 1) (2 ^ 64 - 1)
      w n us = inl (octal w n, us).
Proof.
  induction 1 as [|c w Hc Hw IH]; intros n us Hn B; [reflexivity|].
  cbn [strconv.ParseUint_loop octal] in *.
  pose proof (octal_is_digit c Hc) as Dc.
  rewrite (digit_not c "_" Dc eq_refl). cbn [andb].
  change (strconv.is_digit c) with (digit c). rewrite Dc.
  pose proof (octal_digit_value c Hc) as V.
  pose proof (octal_ge w Hw (n * 8 + (bz c - 48)) ltac:(lia)) as G.
  replace (8 <=? bz c - 48) with false by (symmetry; apply Z.leb_gt; lia).
  change (strconv.maxUint64 / 8 + 1) with 2305843009213693952 in *.
  change (2 ^ 64 - 1) with 18446744073709551615 in *.
  change (2 ^ 64) with 18446744073709551616 in *.
  change (2 ^ 31) with 2147483648 in *.
  replace (2305843009213693952 <=? n) with false
    by (symmetry; apply Z.leb_gt; lia).
  rewrite Z.mod_small by lia.
  replace (n * 8 + (bz c - 48) <? n * 8) with false
    by (symmetry; apply Z.ltb_ge; lia).
  replace (18446744073709551615 <? n * 8 + (bz c - 48)) with false
    by (symmetry; apply Z.ltb_ge; lia).
  cbn [orb]. apply IH; lia.
Qed.

Lemma octal_digit_no_prefix c :
  octal_digit c = true ->
  (strconv.lower c =? 98) = false /\ (strconv.lower c =? 111) = false /\
  (strconv.lower c =? 120) = false.
Proof.
  intros H. destruct c; try discriminate H; repeat split; reflexivity.
Qed.

Lemma ParseInt_leading_zero w :
  w <> [] -> Forall (fun c => octal_digit c = true) w ->
  octal w 0 < 2 ^ 31 ->
  strconv.ParseInt ("0" ++ w) 0 32 = Ok (octal w 0).
Proof.
  intros N D B.
  assert (E : strconv.ParseUint_kind ("0" ++ w) 0 64 = inl (octal w 0)).
  { unfold strconv.ParseUint_kind. cbn [app Z.eqb].
    change (Byte.eqb "0" "0") with true. cbv iota.
    destruct w as [|c1 r]; [contradiction|].
    inversion D as [|? ? D1 Dr]; subst.
    destruct (octal_digit_no_prefix c1 D1) as (P1 & P2 & P3).
    assert (L : (if strconv.lower c1 =? 98 then (2, r)
                 else if strconv.lower c1 =? 111 then (8, r)
                 else if strconv.lower c1 =? 120 then (16, r)
                 else (8, c1 :: r)) = (8, c1 :: r))
      by (rewrite P1, P2, P3; reflexivity).
    destruct r as [|c2 r].
    - rewrite (ParseUint_loop_octal [c1] D 0 false) by (assumption || lia).
      reflexivity.
    - rewrite L.
      rewrite (ParseUint_loop_octal (c1 :: c2 :: r) D 0 false)
        by (assumption || lia).
      reflexivity. }
  unfold strconv.ParseInt. cbn [app].
  change (Byte.eqb "0" "+") with false. change (Byte.eqb "0" "-") with false.
  cbv iota. cbn [app] in E. rewrite E.
  pose proof (octal_ge w D 0 ltac:(lia)) as G.
  change (2 ^ (32 - 1)) with 2147483648. change (2 ^ 31) with 2147483648 in B.
  cbn [negb andb].
  replace (2147483648 <=? octal w 0) with false
    by (symmetry; apply Z.leb_gt; lia).
  reflexivity.
Qed.

(** ** The properties of the reader *)

(** C1.  The minimal ASCII document loads, but its vertex does not come out
    as (1.0, 2.0, 3.0): each of the three rows holds four zero bytes, and
    [ReadVertices] returns the columns ([0.0], [0.0], [0.0]). *)
Theorem minimal_ascii_vertices_are_zero :
  exists p,
    Load (one_file minimal_ascii) "a.ply" new_PLY = Ok p /\
    rows_of p 0 0 = [Some (zeros 4)] /\
    rows_of p 0 1 = [Some (zeros 4)] /\
    rows_of p 0 2 = [Some (zeros 4)] /\
    ReadVertices p =
      Ok (Some [[S754_zero false]; [S754_zero false]; [S754_zero false]]) /\
    ReadVertices p <>
      Ok (Some [[float32_of 1]; [float32_of 2]; [float32_of 3]]).
Proof.
  eexists. split; [vm_compute; reflexivity|].
  repeat split; try (vm_compute; reflexivity).
  vm_compute. discriminate.
Qed.

(** In ASCII mode a scalar property does not move on to the next token.
    Here [y] reads the token 200 of [x] and the load fails. *)
Example scalar_properties_read_the_same_token :
  Load (one_file two_scalars) "a.ply" new_PLY =
    Err (NumError "ParseInt" "200" ErrRange).
Proof. vm_compute. reflexivity. Qed.

(** C2.  For the token 1 and the type uint8 the text codec returns one
    zero byte, not the byte 1 that is the little-endian form of the value:
    the value is written into the buffer, behind the bytes that are
    returned.  (The other half of the claim stands: a token out of range or
    not numeric gives the parse error and no bytes.) *)
Theorem toType_returns_zero_bytes :
  toType "1" "uint8" = Ok (Some (make 1)) /\
  contents (make 1) = [x00] /\
  binary.le_bytes 1 1 = [x01] /\
  fst (bytes_Buffer.Write (bytes_Buffer.NewBuffer (make 1)) (binary.le_bytes 1 1))
    = {| arr := [x00; x01]; len := 2 |} /\
  toType "258" "int16" = Ok (Some (make 2)) /\
  contents (make 2) = [x00; x00] /\
  binary.le_bytes 2 258 = [x02; x01] /\
  toType "300" "uint8" = Err (NumError "ParseUint" "300" ErrRange) /\
  toType "abc" "float32" = Err (NumError "ParseFloat" "abc" ErrSyntax).
Proof. repeat split; vm_compute; reflexivity. Qed.

(** C3.  A list declared [property list uint8 int32 ids] with count 3 and
    three 4-byte values decodes to a row of 24 bytes: twelve zero bytes,
    then the twelve bytes of the values.  (With the count in one byte, as
    [uint8] announces, four bytes are still taken for it: the count reads
    as 259 and the row has 2072 bytes.) *)
Theorem list_row_has_24_bytes :
  exists p,
    Load (one_file list_binary) "a.ply" new_PLY = Ok p /\
    rows_of p 0 0 = [Some (zeros 12 ++ three_values)] /\
    length (zeros 12 ++ three_values) = 24%nat /\
    exists q,
      Load (one_file list_binary_uint8) "a.ply" new_PLY = Ok q /\
      map (fun row => length (elems row))
        (match Elements q with
         | [{| Properties := [prop] |}] => Data prop
         | _ => []
         end) = [2072%nat].
Proof.
  eexists. split; [vm_compute; reflexivity|].
  split; [vm_compute; reflexivity|].
  split; [vm_compute; reflexivity|].
  eexists. split; vm_compute; reflexivity.
Qed.

(** C4.  A binary file whose body is one byte short loads without an
    error; the second row is filled up with a zero byte. *)
Theorem truncated_binary_loads :
  exists p,
    Load (one_file truncated_binary) "a.ply" new_PLY = Ok p /\
    rows_of p 0 0 =
      [Some [x00; x00; x80; x3f]; Some [x00; x00; x80; x00]] /\
    bufio.pending (reader p) = [].
Proof.
  eexists. split; [vm_compute; reflexivity|].
  split; vm_compute; reflexivity.
Qed.

(** C5.  After a load that succeeds, in binary and in ASCII mode, every
    row that a list property of a recognized scalar type holds has a
    length that is a multiple of the width of that type. *)
Theorem list_rows_are_multiples_of_width :
  forall fs fname p0 p elem prop row,
    Load fs fname p0 = Ok p ->
    In elem (Elements p) ->
    In prop (Properties elem) ->
    IsList prop = true ->
    recognized (Type_ prop) = true ->
    In (Some row) (Data prop) ->
    (SizeOfType (Type_ prop) | Z.of_nat (length (contents row))).
Proof.
  intros fs fname p0 p elem prop row HL He Hp L R Hr.
  apply Load_sound in HL.
  rewrite Forall_forall in HL. specialize (HL elem He).
  unfold elem_sound in HL. rewrite Forall_forall in HL.
  specialize (HL prop Hp L R). rewrite Forall_forall in HL.
  exact (HL (Some row) Hr row eq_refl).
Qed.

Lemma list_rows_are_multiples_of_width_witness :
  (SizeOfType "int32" | Z.of_nat (length (zeros 12 ++ three_values))).
Proof.
  apply (list_rows_are_multiples_of_width (one_file list_binary) "a.ply"
           new_PLY loaded_list
           (hd new_Element (Elements loaded_list))
           (hd new_Property (Properties (hd new_Element (Elements loaded_list))))
           {| arr := zeros 12 ++ three_values ++ zeros 8; len := 24 |}).
  - vm_compute. reflexivity.
  - left. reflexivity.
  - left. reflexivity.
  - reflexivity.
  - reflexivity.
  - left. reflexivity.
Defined.



(** C7.  In binary mode the length of a list is read as four bytes, taken
    as an unsigned number in the byte order of the file, whatever count
    type [lst] the header declared: with four bytes pending, the value of
    the property is the list of that many values read from what follows;
    with fewer, the read fails with an end-of-file error.  The big-endian
    pass decodes with the order [BigEndian], the little-endian pass with
    [LittleEndian]. *)
Theorem list_count_is_four_bytes :
  forall (order : binary.ByteOrder) (name ty lst : bytes)
         (data : list (option slice)) (ps : Z) (r : bufio.Reader),
    (forall b0 b1 b2 b3 rest,
        bufio.pending r = b0 :: b1 :: b2 :: b3 :: rest ->
        exists r',
          bufio.pending r' = rest /\
          binary_prop (Some order) (list_property name ty lst data ps) r =
            binary_list (uint32_of order b0 b1 b2 b3) ty r') /\
    ((length (bufio.pending r) < 4)%nat ->
        binary_prop (Some order) (list_property name ty lst data ps) r = Err EOF \/
        binary_prop (Some order) (list_property name ty lst data ps) r =
          Err ErrUnexpectedEOF) /\
    (forall p,
        parseBinaryBigEndian p =
          ('(es, r) <-
             binary_elements (Some binary.BigEndian) (Elements p) (reader p) ;;
           Ok (set_reader
                 (set_Elements (set_byteOrder p binary.BigEndian) es) r)) /\
        parseBinaryLittleEndian p =
          ('(es, r) <-
             binary_elements (Some binary.LittleEndian) (Elements p)
               (reader p) ;;
           Ok (set_reader
                 (set_Elements (set_byteOrder p binary.LittleEndian) es) r))).
Proof.
  intros order name ty lst data ps r.
  split; [|split; [|intros p; split; reflexivity]].
  - intros b0 b1 b2 b3 rest P.
    destruct (ReadFull_loop_enough 5 4 [] r [b0; b1; b2; b3] rest)
      as (r' & E & P'); [exact P|reflexivity|lia|].
    exists r'. split; [exact P'|].
    unfold binary_prop, list_property. cbn [IsList Type_].
    unfold binary.Read_uint32, io.ReadFull. rewrite E. cbn [app obind].
    rewrite Uint32_value. reflexivity.
  - intros Hs. unfold binary_prop, list_property. cbn [IsList Type_].
    unfold binary.Read_uint32, io.ReadFull.
    destruct (ReadFull_loop_short 5 4 [] r Hs) as [E|E]; [lia| |];
      rewrite E; [left|right]; reflexivity.
Qed.

Lemma list_count_is_four_bytes_witness :
  exists r',
    bufio.pending r' = three_values /\
    binary_prop (Some binary.LittleEndian)
      (list_property "ids" "int32" "uint8" [None] 0)
      (bufio.NewReader ([x03; x00; x00; x00] ++ three_values)) =
      binary_list 3 "int32" r'.
Proof.
  exact (proj1 (list_count_is_four_bytes binary.LittleEndian "ids" "int32"
                  "uint8" [None] 0
                  (bufio.NewReader ([x03; x00; x00; x00] ++ three_values)))
           x03 x00 x00 x00 three_values eq_refl).
Defined.

(** C9.  In ASCII mode a row whose line holds no numeric token reports no
    error and stores nothing: the properties are handed on unchanged, the
    decoding goes on with the next row, and when it ends well row [i] of
    every property is still unset. *)
Theorem empty_line_leaves_row_unset :
  forall (n : nat) (i : Z) (props : list Property) (r r1 : bufio.Reader)
         (line : bytes),
    0 <= i ->
    readLine r = Ok (line, r1) ->
    FindAllStringSubmatch numMatcher line = [] ->
    row_unset i props ->
    ascii_row i props r = Ok (props, r1) /\
    ascii_rows (S n) i props r = ascii_rows n (i + 1) props r1 /\
    forall props' r',
      ascii_rows (S n) i props r = Ok (props', r') -> row_unset i props'.
Proof.
  intros n i props r r1 line Hi HL HW HU.
  assert (R : ascii_row i props r = Ok (props, r1)).
  { unfold ascii_row. rewrite HL. cbn [obind]. rewrite HW. reflexivity. }
  assert (N : ascii_rows (S n) i props r = ascii_rows n (i + 1) props r1).
  { cbn [ascii_rows]. rewrite R. reflexivity. }
  split; [exact R|]. split; [exact N|].
  intros props' r' H. rewrite N in H.
  apply (ascii_rows_frame n (i + 1) props r1 props' r' i H); [lia|exact HU].
Qed.

Lemma empty_line_leaves_row_unset_witness :
  ascii_row 0 one_unset_row empty_line_body =
    Ok (one_unset_row,
        {| bufio.rbuf := "1.0" ++ nl; bufio.rsrc := [] |}) /\
  ascii_rows 2 0 one_unset_row empty_line_body =
    ascii_rows 1 (0 + 1) one_unset_row
      {| bufio.rbuf := "1.0" ++ nl; bufio.rsrc := [] |} /\
  forall props' r',
    ascii_rows 2 0 one_unset_row empty_line_body = Ok (props', r') ->
    row_unset 0 props'.
Proof.
  apply (empty_line_leaves_row_unset 1 0 one_unset_row empty_line_body
           {| bufio.rbuf := "1.0" ++ nl; bufio.rsrc := [] |} []).
  - lia.
  - vm_compute. reflexivity.
  - vm_compute. reflexivity.
  - repeat constructor.
Defined.

(** C8.  For a well-formed header -- the line [ply], a [format] line,
    [element] lines each followed by its [property] lines, with comments
    and [obj_info] lines anywhere among them, and [end_header] -- header
    parsing succeeds and the schema is the sequence of the declared
    elements, in the order of the header, each with its name, its count
    and its properties in their order with their names and types. *)
Theorem header_schema_matches_declarations :
  forall (ft : Z) (es : list ElemDecl) (text body : bytes) (p : PLY),
    header_text ft es text ->
    is_mode ft ->
    forallb wf_elem es = true ->
    Elements p = [] ->
    bufio.pending (reader p) = text ++ body ->
    exists p',
      parseHeader p = Ok p' /\
      Elements p' = map schema_elem es /\
      FileType p' = ft /\
      bufio.pending (reader p') = body /\
      length (Elements p') = length es /\
      map Element_Name (Elements p') = map ed_name es /\
      map Size (Elements p') = map (fun e => decimal (ed_count e) 0) es /\
      map (fun el => map Name (Properties el)) (Elements p') =
        map (fun e => map pd_name (ed_props e)) es.
Proof.
  intros ft es text body p (lf & te & le & Sf & Et & Se & ->) M W E0 P.
  assert (Tf : Forall (fun w => is_token w = true)
                 ["format"; mode_name ft; "1.0"]).
  { destruct M as [->|[->| ->]]; repeat constructor. }
  replace (("ply" ++ x0a :: lf ++ x0a :: te ++ le ++ [x0a]) ++ body)
    with ("ply" ++ x0a :: (lf ++ x0a :: (te ++ (le ++ x0a :: body)))) in P
    by (cbn [app]; rewrite <- !app_assoc; cbn [app];
        rewrite <- !app_assoc; reflexivity).
  destruct (readLine_line (reader p) "ply" _ P) as (r1 & E1 & P1).
  { intros I. repeat (destruct I as [I|I]; [discriminate|]). exact I. }
  destruct (readLine_line r1 lf _ P1 (spaced_no_newline _ _ Sf Tf))
    as (r2 & E2 & P2).
  pose proof (line_tokens _ _ Sf Tf) as TL.
  set (p2 := set_FileType (next_line (next_line p r1) r2) ft).
  set (st0 := {| hs_ply := p2; currentElem := -1; propPos := 0 |}).
  assert (A0 : at_state st0 [] (Z.of_nat (length (@nil Element)) - 1) 0 ft
                 (te ++ (le ++ x0a :: body))).
  { repeat split; try assumption. }
  destruct (elems_run es te Et W st0 [] 0 ft _ A0)
    as (st1 & k & Hk & Hrun & ce & pp & A1).
  cbn [app] in A1.
  destruct (end_step st1 le body _ ce pp ft Se A1)
    as (p' & Hend & R1 & R2 & R3).
  assert (HP : parseHeader p = Ok p').
  { unfold parseHeader. rewrite E1. cbn [obind].
    change (strip ("ply" ++ [x0a])) with ("ply" : bytes).
    change ("ply" == "ply") with true. cbn [negb].
    cbn [reader next_line]. rewrite E2. cbn [obind].
    fold (tokens (strip (lf ++ [x0a]))). rewrite TL.
    cbn [length Nat.eqb negb].
    change (index ["format"; mode_name ft; "1.0"] 0)
      with (Ok (A := bytes) "format").
    cbn [obind]. change ("format" == "format") with true. cbn [negb].
    change (index ["format"; mode_name ft; "1.0"] 1) with (Ok (mode_name ft)).
    cbn [obind].
    assert (HM :
      (if mode_name ft == "ascii"
       then Ok (set_FileType (next_line (next_line p r1) r2) Ascii)
       else if mode_name ft == "binary_big_endian"
       then Ok (set_FileType (next_line (next_line p r1) r2) BinaryBigEndian)
       else if mode_name ft == "binary_little_endian"
       then Ok (set_FileType (next_line (next_line p r1) r2)
                  BinaryLittleEndian)
       else Err (incorrect_format (next_line (next_line p r1) r2)))
      = Ok p2).
    { subst p2. destruct M as [->|[->| ->]]; reflexivity. }
    rewrite HM. cbn [obind]. fold st0.
    assert (HF : exists f,
               S (length (bufio.pending (reader p2))) = (k + S f)%nat).
    { exists (length (bufio.pending (reader p2)) - k)%nat.
      subst p2. cbn [reader set_FileType next_line]. rewrite P2.
      rewrite length_app. lia. }
    destruct HF as (f & ->). rewrite Hrun. apply Hend. }
  exists p'. rewrite R1.
  split; [exact HP|]. split; [reflexivity|]. split; [exact R2|].
  split; [exact R3|]. split; [apply length_map|].
  split; [rewrite map_map; reflexivity|].
  split; [rewrite map_map; reflexivity|].
  rewrite map_map. apply map_ext. intros e. cbn [schema_elem Properties].
  generalize 0. induction (ed_props e) as [|d ds IH]; intros z;
    [reflexivity|].
  cbn [schema_props map schema_prop Name]. f_equal. apply IH.
Qed.

Lemma header_schema_matches_declarations_witness :
  exists p',
    parseHeader (set_reader new_PLY (bufio.NewReader minimal_ascii)) = Ok p' /\
    Elements p' = map schema_elem minimal_decls /\
    FileType p' = Ascii /\
    bufio.pending (reader p') = "1.0 2.0 3.0" ++ nl /\
    length (Elements p') = length minimal_decls /\
    map Element_Name (Elements p') = map ed_name minimal_decls /\
    map Size (Elements p') =
      map (fun e => decimal (ed_count e) 0) minimal_decls /\
    map (fun el => map Name (Properties el)) (Elements p') =
      map (fun e => map pd_name (ed_props e)) minimal_decls.
Proof.
  apply (header_schema_matches_declarations Ascii minimal_decls
           minimal_header ("1.0 2.0 3.0" ++ nl)
           (set_reader new_PLY (bufio.NewReader minimal_ascii))).
  - exists "format ascii 1.0",
      ("element vertex 1" ++ nl ++ "property float32 x" ++ nl ++
       "property float32 y" ++ nl ++ "property float32 z" ++ nl),
      "end_header".
    split; [|split; [|split; [|reflexivity]]].
    + apply (spaced_cons [] "format" " " ["ascii"; "1.0"] "ascii 1.0");
        [constructor|reflexivity|].
      apply (spaced_cons [] "ascii" " " ["1.0"] "1.0");
        [constructor|reflexivity|].
      apply (spaced_last [] "1.0"). constructor.
    + apply (elems_cons
               {| ed_name := "vertex"; ed_count := "1";
                  ed_props :=
                    [{| pd_list := None; pd_type := "float32"; pd_name := "x" |};
                     {| pd_list := None; pd_type := "float32"; pd_name := "y" |};
                     {| pd_list := None; pd_type := "float32"; pd_name := "z" |}] |}
               [] "element vertex 1"
               ("property float32 x" ++ nl ++ "property float32 y" ++ nl ++
                "property float32 z" ++ nl) []).
      * apply (spaced_cons [] "element" " " ["vertex"; "1"] "vertex 1");
          [constructor|reflexivity|].
        apply (spaced_cons [] "vertex" " " ["1"] "1");
          [constructor|reflexivity|].
        apply (spaced_last [] "1"). constructor.
      * apply (props_cons
                 {| pd_list := None; pd_type := "float32"; pd_name := "x" |}
                 _ "property float32 x"
                 ("property float32 y" ++ nl ++ "property float32 z" ++ nl)).
        { apply (spaced_cons [] "property" " " ["float32"; "x"] "float32 x");
            [constructor|reflexivity|].
          apply (spaced_cons [] "float32" " " ["x"] "x");
            [constructor|reflexivity|].
          apply (spaced_last [] "x"). constructor. }
        apply (props_cons
                 {| pd_list := None; pd_type := "float32"; pd_name := "y" |}
                 _ "property float32 y" ("property float32 z" ++ nl)).
        { apply (spaced_cons [] "property" " " ["float32"; "y"] "float32 y");
            [constructor|reflexivity|].
          apply (spaced_cons [] "float32" " " ["y"] "y");
            [constructor|reflexivity|].
          apply (spaced_last [] "y"). constructor. }
        apply (props_cons
                 {| pd_list := None; pd_type := "float32"; pd_name := "z" |}
                 _ "property float32 z" []).
        { apply (spaced_cons [] "property" " " ["float32"; "z"] "float32 z");
            [constructor|reflexivity|].
          apply (spaced_cons [] "float32" " " ["z"] "z");
            [constructor|reflexivity|].
          apply (spaced_last [] "z"). constructor. }
        apply props_nil.
      * apply elems_nil.
    + apply (spaced_last [] "end_header"). constructor.
  - left. reflexivity.
  - reflexivity.
  - reflexivity.
  - reflexivity.
Defined.

(** C10.  There is a header with a [property] line before any [element]
    line on which header parsing faults: the index -1 is out of range for
    the empty sequence of elements. *)
Theorem property_before_element_faults :
  exists content,
    parseHeader
      (set_reader new_PLY (bufio.NewReader content)) =
      Panic (IndexOutOfRange (-1) 0) /\
    Load (one_file content) "a.ply" new_PLY = Panic (IndexOutOfRange (-1) 0).
Proof.
  exists property_first. split; vm_compute; reflexivity.
Qed.

(** ** Further properties of the reader *)

(** X1.  [appendBytes] appends: the elements of the result are those of
    the slice followed by the data.  The capacity stays when it suffices
    and otherwise becomes twice the new length. *)
Theorem appendBytes_appends :
  forall (s : slice) (data : bytes),
    wf_slice s ->
    contents (appendBytes s data) = contents s ++ data /\
    wf_slice (appendBytes s data) /\
    cap (appendBytes s data) =
      if (cap s <? len s + length data)%nat
      then ((len s + length data) * 2)%nat
      else cap s.
Proof.
  intros s data W. destruct (appendBytes_contents s data W) as [C W'].
  split; [exact C|]. split; [exact W'|]. apply appendBytes_cap. exact W.
Qed.

Lemma appendBytes_appends_witness :
  contents (appendBytes (make 2) [x07]) = contents (make 2) ++ [x07] /\
  wf_slice (appendBytes (make 2) [x07]) /\
  cap (appendBytes (make 2) [x07]) =
    if (cap (make 2) <? len (make 2) + length [x07])%nat
    then ((len (make 2) + length [x07]) * 2)%nat
    else cap (make 2).
Proof.
  apply (appendBytes_appends (make 2) [x07]). apply wf_make.
Defined.

(** X2.  Whatever token parses, the bytes that [toType] returns do not
    depend on it: no bytes for a type it does not know, and as many zero
    bytes as the type is wide for a type it knows. *)
Theorem toType_result_is_zero :
  forall (data typeName : bytes) (b : option slice),
    toType data typeName = Ok b ->
    b = (if recognized typeName
         then Some (make (type_width typeName))
         else None) /\
    elems b = zeros (if recognized typeName then type_width typeName else 0).
Proof.
  intros data t b H. apply toType_result in H. subst b.
  split; [reflexivity|].
  destruct (recognized t); [apply contents_make|reflexivity].
Qed.

Lemma toType_result_is_zero_witness :
  Some (make 4) =
    (if recognized "int32" then Some (make (type_width "int32")) else None) /\
  elems (Some (make 4)) =
    zeros (if recognized "int32" then type_width "int32" else 0).
Proof.
  apply (toType_result_is_zero "-77" "int32" (Some (make 4))).
  vm_compute. reflexivity.
Defined.

(** X3.  [toBType] delivers the next bytes of the input, as many as the
    type is wide, when the buffer holds that many, or when the buffer is
    empty and the file holds that many; they are then taken off the
    input. *)
Theorem toBType_reads_width_bytes :
  forall (rd : bufio.Reader) (typeName : bytes),
    recognized typeName = true ->
    (type_width typeName <= length (bufio.rbuf rd))%nat \/
    (bufio.rbuf rd = [] /\
     (type_width typeName <= length (bufio.rsrc rd))%nat) ->
    exists s rd',
      toBType rd typeName = Ok (Some s, rd') /\
      contents s = firstn (type_width typeName) (bufio.pending rd) /\
      bufio.pending rd' = skipn (type_width typeName) (bufio.pending rd).
Proof.
  intros rd t R H. pose proof (type_width_pos t R) as P.
  rewrite toBType_read_value by exact R. unfold bufio.pending.
  destruct H as [H|[B H]].
  - rewrite read_value_buffered by lia. do 2 eexists.
    split; [reflexivity|]. cbn [bufio.rbuf bufio.rsrc]. split.
    + unfold contents. cbn [arr len].
      rewrite firstn_app.
      replace (type_width t - length (bufio.rbuf rd))%nat with 0%nat by lia.
      rewrite firstn_O, app_nil_r. apply firstn_all2.
      rewrite length_firstn. lia.
    + rewrite skipn_app.
      replace (type_width t - length (bufio.rbuf rd))%nat with 0%nat by lia.
      reflexivity.
  - destruct (read_value_unbuffered (type_width t) rd B) as (r' & E & Pr);
      [lia|].
    rewrite E. do 2 eexists. split; [reflexivity|].
    rewrite B. cbn [app]. split; [|exact Pr].
    unfold contents. cbn [arr len]. apply firstn_all2.
    rewrite length_firstn. lia.
Qed.

Lemma toBType_reads_width_bytes_witness :
  exists s rd',
    toBType five_buffered "float32" = Ok (Some s, rd') /\
    contents s = firstn (type_width "float32") (bufio.pending five_buffered) /\
    bufio.pending rd' =
      skipn (type_width "float32") (bufio.pending five_buffered).
Proof.
  apply (toBType_reads_width_bytes five_buffered "float32").
  - reflexivity.
  - left. vm_compute. lia.
Defined.

(** X4.  When the buffer holds some bytes but fewer than the type is
    wide, [toBType] returns those bytes filled up with zeros and reports no
    error, even though the file may go on: the bytes left in the file are
    not looked at. *)
Theorem toBType_short_at_buffer_end :
  forall (rd : bufio.Reader) (typeName : bytes),
    recognized typeName = true ->
    (0 < length (bufio.rbuf rd) < type_width typeName)%nat ->
    toBType rd typeName =
      Ok (Some {| arr := bufio.rbuf rd ++
                         zeros (type_width typeName - length (bufio.rbuf rd));
                  len := type_width typeName |},
          {| bufio.rbuf := []; bufio.rsrc := bufio.rsrc rd |}).
Proof.
  intros rd t R H. rewrite toBType_read_value by exact R.
  apply read_value_short. exact H.
Qed.

Lemma toBType_short_at_buffer_end_witness :
  toBType half_buffered "int32" =
    Ok (Some {| arr := [x01; x02] ++ zeros (type_width "int32" - 2);
                len := type_width "int32" |},
        {| bufio.rbuf := []; bufio.rsrc := [x03; x04; x05] |}).
Proof.
  apply (toBType_short_at_buffer_end half_buffered "int32").
  - reflexivity.
  - vm_compute. lia.
Defined.

(** X5.  In binary mode a row of scalar properties of recognized types is
    copied from the input as it stands, each property taking the next
    bytes of its width in the order of the properties, when the buffer
    holds the whole row. *)
Theorem binary_row_copies_scalars :
  forall (order : option binary.ByteOrder) (i : Z) (props : list Property)
         (r : bufio.Reader),
    Forall (scalar_at i) props ->
    (row_width props <= length (bufio.rbuf r))%nat ->
    binary_row order i props r =
      Ok (scalar_row i props (bufio.rbuf r),
          {| bufio.rbuf := skipn (row_width props) (bufio.rbuf r);
             bufio.rsrc := bufio.rsrc r |}).
Proof. intros order i props r F W. apply binary_row_scalar; assumption. Qed.

Lemma binary_row_copies_scalars_witness :
  binary_row (Some binary.LittleEndian) 0 two_floats five_buffered =
    Ok (scalar_row 0 two_floats (bufio.rbuf five_buffered),
        {| bufio.rbuf := skipn (row_width two_floats) (bufio.rbuf five_buffered);
           bufio.rsrc := bufio.rsrc five_buffered |}).
Proof.
  apply (binary_row_copies_scalars (Some binary.LittleEndian) 0 two_floats
           five_buffered).
  - repeat constructor; simpl; lia.
  - vm_compute. lia.
Defined.

(** X6.  In binary mode the row of a list of [num] values starts with as
    many zero bytes as the values take, and the values follow: the row is
    twice as long as the values. *)
Theorem binary_list_row_shape :
  forall (num : Z) (typeName : bytes) (r r' : bufio.Reader) (l : slice),
    binary_list num typeName r = Ok (Some l, r') ->
    exists vals,
      contents l = zeros (Z.to_nat (num * SizeOfType typeName)) ++ vals /\
      Z.of_nat (length vals) = num * SizeOfType typeName /\
      Z.of_nat (length (contents l)) = 2 * (num * SizeOfType typeName).
Proof.
  intros num t r r' l H. unfold binary_list in H.
  inv_bind H. inv_bind H. destruct a0 as [l1 r1]. injection H as <- <-.
  pose proof (make_Z_spec _ _ E) as [W L0].
  unfold make_Z in E. destruct (num * SizeOfType t <? 0) eqn:N;
    [discriminate|]. injection E as <-. apply Z.ltb_ge in N.
  destruct (binary_list_values_contents _ _ _ _ _ _ E0 W) as (vals & C & Lv).
  rewrite contents_make in C.
  assert (Lv' : Z.of_nat (length vals) = num * SizeOfType t).
  { rewrite Lv. destruct (Z.lt_ge_cases num 0) as [Neg|Pos];
      [|rewrite Z2Nat.id by lia; reflexivity].
    replace (Z.to_nat num) with 0%nat by lia.
    assert (SizeOfType t = 0).
    { destruct (recognized t) eqn:R.
      - apply recognized_size in R. nia.
      - apply unrecognized_size. exact R. }
    nia. }
  exists vals. split; [exact C|]. split; [exact Lv'|].
  rewrite C, length_app, length_zeros. lia.
Qed.

Lemma binary_list_row_shape_witness :
  exists vals,
    contents {| arr := zeros 12 ++ three_values ++ zeros 8; len := 24 |} =
      zeros (Z.to_nat (3 * SizeOfType "int32")) ++ vals /\
    Z.of_nat (length vals) = 3 * SizeOfType "int32" /\
    Z.of_nat
      (length (contents {| arr := zeros 12 ++ three_values ++ zeros 8;
                           len := 24 |})) = 2 * (3 * SizeOfType "int32").
Proof.
  apply (binary_list_row_shape 3 "int32" (bufio.NewReader three_values)
           {| bufio.rbuf := []; bufio.rsrc := [] |}).
  vm_compute. reflexivity.
Defined.

(** X7.  [readLine] returns the text before the first newline, with the
    white space around it removed, and leaves exactly the bytes after that
    newline to be read, wherever the line lies with respect to the buffer
    of the reader. *)
Theorem readLine_returns_first_line :
  forall (r : bufio.Reader) (l rest : bytes),
    bufio.pending r = l ++ x0a :: rest ->
    ~ In x0a l ->
    exists r',
      readLine r = Ok (strings.TrimSpace (l ++ [x0a]), r') /\
      bufio.pending r' = rest.
Proof.
  intros r l rest P N.
  destruct (readLine_line r l rest P N) as (r' & E & P').
  exists r'. split; [exact E|exact P'].
Qed.

Lemma readLine_returns_first_line_witness :
  exists r',
    readLine {| bufio.rbuf := "pl"; bufio.rsrc := "y" ++ nl ++ "format" |} =
      Ok (strings.TrimSpace ("ply" ++ [x0a]), r') /\
    bufio.pending r' = "format".
Proof.
  apply (readLine_returns_first_line
           {| bufio.rbuf := "pl"; bufio.rsrc := "y" ++ nl ++ "format" |}
           "ply" "format").
  - reflexivity.
  - no_newline.
Defined.

(** X8.  [readLine] answers [io.EOF] exactly when no newline is left to
    read: the text after the last newline of a file is never returned. *)
Theorem readLine_EOF_iff_no_newline :
  forall r : bufio.Reader,
    readLine r = Err EOF <-> ~ In x0a (bufio.pending r).
Proof.
  intros r. split.
  - intros E I.
    destruct (first_occurrence x0a _ I) as (l & rest & P & N).
    destruct (readLine_line r l rest P N) as (r' & E' & _).
    rewrite E' in E. discriminate.
  - apply readLine_EOF.
Qed.

(** X9.  The pattern of [parseHeader] splits a header line into its words:
    a line of identifiers and numerals set apart by blanks, possibly with
    a carriage return before the newline, yields exactly these words. *)
Theorem header_line_splits_into_words :
  forall (ws : list bytes) (l : bytes),
    spaced ws l ->
    Forall (fun w => is_token w = true) ws ->
    FindAllStringSubmatch wordMatcher (strip (l ++ [x0a])) = ws.
Proof.
  intros ws l Sp T. exact (line_tokens ws l Sp T).
Qed.

Lemma header_line_splits_into_words_witness :
  FindAllStringSubmatch wordMatcher
    (strip (("element" ++ " " ++ "vertex" ++ [x09] ++ "8" ++ [x0d]) ++ [x0a]))
  = ["element"; "vertex"; "8"].
Proof.
  apply (header_line_splits_into_words ["element"; "vertex"; "8"]
           ("element" ++ " " ++ "vertex" ++ [x09] ++ "8" ++ [x0d])).
  - apply (spaced_cons [] "element" " " ["vertex"; "8"]
             ("vertex" ++ [x09] ++ "8" ++ [x0d]));
      [constructor|reflexivity|].
    apply (spaced_cons [] "vertex" x09 ["8"] ("8" ++ [x0d]));
      [constructor|reflexivity|].
    apply (spaced_cons [] "8" x0d [] []); [constructor|reflexivity|].
    apply spaced_nil. constructor.
  - repeat constructor.
Defined.

(** X10.  When the second line of the file does not consist of three
    words, the first of them [format] and the second one of the three
    encodings, [parseHeader] fails and names line 2 of the file. *)
Theorem bad_format_line_is_rejected :
  forall (p : PLY) (l2 rest : bytes),
    bufio.pending (reader p) = "ply" ++ x0a :: l2 ++ x0a :: rest ->
    ~ In x0a l2 ->
    format_ok (FindAllStringSubmatch wordMatcher (strip (l2 ++ [x0a])))
      = false ->
    parseHeader p =
      Err (errorString ("Incorrect format in " ++ filename p ++
                        " at line " ++ itoa (currentLine p + 2))).
Proof.
  intros p l2 rest P N F.
  destruct (parseHeader_two_lines p l2 rest P N) as (r1 & r2 & _ & H).
  rewrite H. cbv zeta. clear H.
  assert (I : incorrect_format (next_line (next_line p r1) r2) =
              errorString ("Incorrect format in " ++ filename p ++
                           " at line " ++ itoa (currentLine p + 2))).
  { unfold incorrect_format. cbn [filename currentLine next_line].
    rewrite <- Z.add_assoc. reflexivity. }
  rewrite I. clear I. unfold tokens.
  destruct (FindAllStringSubmatch wordMatcher (strip (l2 ++ [x0a])))
    as [|a [|b [|c [|d ws]]]]; try reflexivity.
  cbn [length Nat.eqb negb].
  change (index [a; b; c] 0) with (Ok a). cbn [obind].
  unfold format_ok in F.
  destruct (a == "format"); [|reflexivity]. cbn [negb andb] in *.
  change (index [a; b; c] 1) with (Ok b). cbn [obind].
  destruct (b == "ascii"); [discriminate F|].
  destruct (b == "binary_big_endian"); [discriminate F|].
  destruct (b == "binary_little_endian"); [discriminate F|].
  reflexivity.
Qed.

Lemma bad_format_line_is_rejected_witness :
  parseHeader
    (set_reader new_PLY
       (bufio.NewReader ("ply" ++ nl ++ "format text 1.0" ++ nl))) =
    Err (errorString
           ("Incorrect format in " ++
            filename (set_reader new_PLY
              (bufio.NewReader ("ply" ++ nl ++ "format text 1.0" ++ nl))) ++
            " at line " ++
            itoa (currentLine (set_reader new_PLY
              (bufio.NewReader ("ply" ++ nl ++ "format text 1.0" ++ nl)))
              + 2))).
Proof.
  apply (bad_format_line_is_rejected
           (set_reader new_PLY
              (bufio.NewReader ("ply" ++ nl ++ "format text 1.0" ++ nl)))
           "format text 1.0" []).
  - reflexivity.
  - no_newline.
  - vm_compute. reflexivity.
Defined.

(** X11.  A file that ends before [end_header] is reached, after any
    number of well-formed declarations, makes [parseHeader] answer
    [io.EOF]. *)
Theorem header_without_end_is_EOF :
  forall (p : PLY) (ft : Z) (lf : bytes) (es : list ElemDecl) (te : bytes),
    bufio.pending (reader p) = "ply" ++ x0a :: lf ++ x0a :: te ->
    spaced ["format"; mode_name ft; "1.0"] lf -> is_mode ft ->
    elems_text es te -> forallb wf_elem es = true ->
    Elements p = [] ->
    parseHeader p = Err EOF.
Proof.
  intros p ft lf es te P Sf M Et W HE.
  rewrite <- (app_nil_r te) in P.
  destruct (header_prefix_run p ft lf es te [] P Sf M Et W HE)
    as (st' & f & ce' & pp' & H & _ & (_ & _ & _ & _ & A)).
  rewrite H. cbn [header_loop].
  rewrite readLine_EOF; [reflexivity|]. rewrite A. intros [].
Qed.

Lemma header_without_end_is_EOF_witness :
  parseHeader
    (set_reader new_PLY
       (bufio.NewReader
          ("ply" ++ nl ++ "format ascii 1.0" ++ nl ++ "comment" ++ nl)))
  = Err EOF.
Proof.
  apply (header_without_end_is_EOF
           (set_reader new_PLY
              (bufio.NewReader
                 ("ply" ++ nl ++ "format ascii 1.0" ++ nl ++ "comment" ++ nl)))
           Ascii "format ascii 1.0" [] ("comment" ++ nl)).
  - reflexivity.
  - apply (spaced_cons [] "format" " " ["ascii"; "1.0"] "ascii 1.0");
      [constructor|reflexivity|].
    apply (spaced_cons [] "ascii" " " ["1.0"] "1.0");
      [constructor|reflexivity|].
    apply (spaced_last [] "1.0"). constructor.
  - left. reflexivity.
  - apply (elems_noise "comment" [] []); [|constructor].
    apply (comment_bare []). constructor.
  - reflexivity.
  - reflexivity.
Defined.

(** X12.  A blank line among the declarations of the header makes
    [parseHeader] fault: the first word of the line is looked up in an
    empty list of words. *)
Theorem blank_header_line_faults :
  forall (p : PLY) (ft : Z) (lf : bytes) (es : list ElemDecl)
         (te g more : bytes),
    bufio.pending (reader p) =
      "ply" ++ x0a :: lf ++ x0a :: te ++ g ++ x0a :: more ->
    spaced ["format"; mode_name ft; "1.0"] lf -> is_mode ft ->
    elems_text es te -> forallb wf_elem es = true ->
    Elements p = [] ->
    gap g ->
    parseHeader p = Panic (IndexOutOfRange 0 0).
Proof.
  intros p ft lf es te g more P Sf M Et W HE G.
  destruct (header_prefix_run p ft lf es te (g ++ x0a :: more) P Sf M Et W HE)
    as (st' & f & ce' & pp' & H & _ & (_ & _ & _ & _ & A)).
  rewrite H. cbn [header_loop].
  destruct (readLine_line _ g more A (gap_no_newline g G)) as (r' & E & _).
  rewrite E. cbn [obind].
  change (FindAllStringSubmatch wordMatcher (strip (g ++ [x0a])))
    with (tokens (strip (g ++ [x0a]))).
  rewrite (line_tokens [] g (spaced_nil g G) (Forall_nil _)).
  reflexivity.
Qed.

Lemma blank_header_line_faults_witness :
  parseHeader
    (set_reader new_PLY
       (bufio.NewReader
          ("ply" ++ nl ++ "format ascii 1.0" ++ nl ++ "comment" ++ nl ++
           " " ++ nl ++ "end_header" ++ nl)))
  = Panic (IndexOutOfRange 0 0).
Proof.
  apply (blank_header_line_faults
           (set_reader new_PLY
              (bufio.NewReader
                 ("ply" ++ nl ++ "format ascii 1.0" ++ nl ++ "comment" ++ nl ++
                  " " ++ nl ++ "end_header" ++ nl)))
           Ascii "format ascii 1.0" [] ("comment" ++ nl) " "
           ("end_header" ++ nl)).
  - reflexivity.
  - apply (spaced_cons [] "format" " " ["ascii"; "1.0"] "ascii 1.0");
      [constructor|reflexivity|].
    apply (spaced_cons [] "ascii" " " ["1.0"] "1.0");
      [constructor|reflexivity|].
    apply (spaced_last [] "1.0"). constructor.
  - left. reflexivity.
  - apply (elems_noise "comment" [] []); [|constructor].
    apply (comment_bare []). constructor.
  - reflexivity.
  - reflexivity.
  - repeat constructor.
Defined.

(** X13.  A property declared before any element, whatever comments and
    [obj_info] lines come before it, makes [parseHeader] fault with the
    index -1 into the empty list of elements. *)
Theorem property_without_element_faults :
  forall (p : PLY) (ft : Z) (lf te l more : bytes) (d : PropDecl),
    bufio.pending (reader p) =
      "ply" ++ x0a :: lf ++ x0a :: te ++ l ++ x0a :: more ->
    spaced ["format"; mode_name ft; "1.0"] lf -> is_mode ft ->
    elems_text [] te ->
    Elements p = [] ->
    spaced (prop_words d) l -> wf_prop d = true ->
    parseHeader p = Panic (IndexOutOfRange (-1) 0).
Proof.
  intros p ft lf te l more d P Sf M Et HE Sp W.
  destruct (header_noise_run p ft lf te (l ++ x0a :: more) P Sf M Et)
    as (st' & f & H & _ & (A1 & A2 & _ & _ & A)).
  rewrite H. cbn [header_loop].
  pose proof (prop_words_tokens d W) as T.
  destruct (readLine_line _ l more A (spaced_no_newline _ _ Sp T))
    as (r' & E & _).
  rewrite E. cbn [obind].
  change (FindAllStringSubmatch wordMatcher (strip (l ++ [x0a])))
    with (tokens (strip (l ++ [x0a]))).
  rewrite (line_tokens _ l Sp T).
  rewrite (header_line_property_first d); [reflexivity|exact W| |exact A2].
  cbn [hs_ply Elements next_line]. rewrite A1. exact HE.
Qed.

Lemma property_without_element_faults_witness :
  parseHeader
    (set_reader new_PLY
       (bufio.NewReader
          ("ply" ++ nl ++ "format ascii 1.0" ++ nl ++ "comment" ++ nl ++
           "property list uchar int vertex_indices" ++ nl)))
  = Panic (IndexOutOfRange (-1) 0).
Proof.
  apply (property_without_element_faults
           (set_reader new_PLY
              (bufio.NewReader
                 ("ply" ++ nl ++ "format ascii 1.0" ++ nl ++ "comment" ++ nl ++
                  "property list uchar int vertex_indices" ++ nl)))
           Ascii "format ascii 1.0" ("comment" ++ nl)
           "property list uchar int vertex_indices" []
           {| pd_list := Some "uchar"; pd_type := "int";
              pd_name := "vertex_indices" |}).
  - reflexivity.
  - apply (spaced_cons [] "format" " " ["ascii"; "1.0"] "ascii 1.0");
      [constructor|reflexivity|].
    apply (spaced_cons [] "ascii" " " ["1.0"] "1.0");
      [constructor|reflexivity|].
    apply (spaced_last [] "1.0"). constructor.
  - left. reflexivity.
  - apply (elems_noise "comment" [] []); [|constructor].
    apply (comment_bare []). constructor.
  - reflexivity.
  - apply (spaced_cons [] "property" " "
             ["list"; "uchar"; "int"; "vertex_indices"]
             "list uchar int vertex_indices");
      [constructor|reflexivity|].
    apply (spaced_cons [] "list" " " ["uchar"; "int"; "vertex_indices"]
             "uchar int vertex_indices");
      [constructor|reflexivity|].
    apply (spaced_cons [] "uchar" " " ["int"; "vertex_indices"]
             "int vertex_indices");
      [constructor|reflexivity|].
    apply (spaced_cons [] "int" " " ["vertex_indices"] "vertex_indices");
      [constructor|reflexivity|].
    apply (spaced_last [] "vertex_indices"). constructor.
  - reflexivity.
Defined.



(** X15.  A header that [parseHeader] accepts leaves the document with one
    of the three encodings and with the file name it had: the last branch
    of the switch of [Load] cannot be reached. *)
Theorem parsed_header_has_an_encoding :
  forall p p' : PLY,
    parseHeader p = Ok p' ->
    is_mode (FileType p') /\ filename p' = filename p.
Proof.
  intros p p' H. exact (parseHeader_keeps p p' H).
Qed.

Lemma parsed_header_has_an_encoding_witness :
  exists p',
    parseHeader (set_reader new_PLY (bufio.NewReader minimal_ascii)) = Ok p' /\
    is_mode (FileType p') /\
    filename p' = filename (set_reader new_PLY (bufio.NewReader minimal_ascii)).
Proof.
  eexists. split.
  - vm_compute. reflexivity.
  - apply (parsed_header_has_an_encoding
             (set_reader new_PLY (bufio.NewReader minimal_ascii))).
    vm_compute. reflexivity.
Defined.

(** X16.  After a successful [Load] the byte order of the document is set:
    big-endian for a [binary_big_endian] file, little-endian for a
    [binary_little_endian] file and for a text file alike. *)
Theorem Load_sets_the_byte_order :
  forall (fs : file_system) (fname : bytes) (p0 p : PLY),
    Load fs fname p0 = Ok p ->
    GetByteOrder p =
      Some (if FileType p =? BinaryBigEndian then binary.BigEndian
            else binary.LittleEndian).
Proof.
  intros fs fname p0 p H. exact (Load_byteOrder fs fname p0 p H).
Qed.

Lemma Load_sets_the_byte_order_witness :
  exists p,
    Load (one_file minimal_ascii) "a.ply" new_PLY = Ok p /\
    GetByteOrder p =
      Some (if FileType p =? BinaryBigEndian then binary.BigEndian
            else binary.LittleEndian).
Proof.
  eexists. split.
  - vm_compute. reflexivity.
  - apply (Load_sets_the_byte_order (one_file minimal_ascii) "a.ply" new_PLY).
    vm_compute. reflexivity.
Defined.

(** X17.  After a successful [Load] every property of every element has
    exactly as many rows as the element has instances, in either
    encoding. *)
Theorem Load_gives_one_row_per_instance :
  forall (fs : file_system) (fname : bytes) (p0 p : PLY),
    Load fs fname p0 = Ok p ->
    Forall (fun elem =>
              Forall (fun prop => Z.of_nat (length (Data prop)) = Size elem)
                (Properties elem))
      (Elements p).
Proof.
  intros fs fname p0 p H. exact (Load_rows_complete fs fname p0 p H).
Qed.

Lemma Load_gives_one_row_per_instance_witness :
  exists p,
    Load (one_file truncated_binary) "a.ply" new_PLY = Ok p /\
    Forall (fun elem =>
              Forall (fun prop => Z.of_nat (length (Data prop)) = Size elem)
                (Properties elem))
      (Elements p).
Proof.
  eexists. split.
  - vm_compute. reflexivity.
  - apply (Load_gives_one_row_per_instance (one_file truncated_binary)
             "a.ply" new_PLY).
    vm_compute. reflexivity.
Defined.

(** X18.  After a successful [Load], when the first element named
    [vertex] has at least three properties, [ReadVertices] returns three
    columns, each with one number for every vertex. *)
Theorem ReadVertices_gives_three_columns :
  forall (fs : file_system) (fname : bytes) (p0 p : PLY) (elem : Element),
    Load fs fname p0 = Ok p ->
    GetVertices p = Some elem ->
    (3 <= length (Properties elem))%nat ->
    exists c0 c1 c2,
      ReadVertices p = Ok (Some [c0; c1; c2]) /\
      Z.of_nat (length c0) = Size elem /\
      Z.of_nat (length c1) = Size elem /\
      Z.of_nat (length c2) = Size elem.
Proof.
  intros fs fname p0 p elem H G L.
  pose proof (Load_byteOrder _ _ _ _ H) as O.
  pose proof (Load_rows_complete _ _ _ _ H) as C.
  unfold GetVertices in G.
  assert (Ce : rows_complete elem).
  { rewrite Forall_forall in C. apply C.
    apply find_some in G. destruct G as [G _]. exact G. }
  assert (N : 0 <= Size elem).
  { destruct (Properties elem) as [|prop ?] eqn:E; [cbn [length] in L; lia|].
    apply (rows_complete_Size elem prop Ce). rewrite E. left. reflexivity. }
  destruct (read_columns_ok p elem _ [0; 1; 2] O N Ce)
    as (cols & E & Lc & Fc).
  { repeat constructor; lia. }
  destruct cols as [|c0 [|c1 [|c2 [|c3 cols]]]]; try discriminate Lc.
  exists c0, c1, c2. unfold ReadVertices. rewrite G, E. cbn [obind].
  inversion Fc as [|? ? F0 Fc1]; subst.
  inversion Fc1 as [|? ? F1 Fc2]; subst.
  inversion Fc2 as [|? ? F2 _]; subst.
  repeat split; assumption.
Qed.

Lemma ReadVertices_gives_three_columns_witness :
  exists p elem,
    Load (one_file minimal_ascii) "a.ply" new_PLY = Ok p /\
    GetVertices p = Some elem /\
    exists c0 c1 c2,
      ReadVertices p = Ok (Some [c0; c1; c2]) /\
      Z.of_nat (length c0) = Size elem /\
      Z.of_nat (length c1) = Size elem /\
      Z.of_nat (length c2) = Size elem.
Proof.
  eexists. eexists. split; [vm_compute; reflexivity|].
  split; [vm_compute; reflexivity|].
  apply (ReadVertices_gives_three_columns (one_file minimal_ascii) "a.ply"
           new_PLY).
  - vm_compute. reflexivity.
  - vm_compute. reflexivity.
  - vm_compute. lia.
Defined.

(** X19.  After a successful [Load], when the first element named
    [vertex] has fewer than three properties, [ReadVertices] faults: it
    indexes the properties of the element one past the last. *)
Theorem ReadVertices_faults_below_three_properties :
  forall (fs : file_system) (fname : bytes) (p0 p : PLY) (elem : Element),
    Load fs fname p0 = Ok p ->
    GetVertices p = Some elem ->
    (length (Properties elem) < 3)%nat ->
    ReadVertices p =
      Panic (IndexOutOfRange (Z.of_nat (length (Properties elem)))
                             (Z.of_nat (length (Properties elem)))).
Proof.
  intros fs fname p0 p elem H G L.
  pose proof (Load_byteOrder _ _ _ _ H) as O.
  pose proof (Load_rows_complete _ _ _ _ H) as C.
  unfold GetVertices in G.
  assert (Ce : rows_complete elem).
  { rewrite Forall_forall in C. apply C.
    apply find_some in G. destruct G as [G _]. exact G. }
  unfold ReadVertices. rewrite G.
  assert (K : length (Properties elem) = 0%nat \/
              length (Properties elem) = 1%nat \/
              length (Properties elem) = 2%nat) by lia.
  destruct K as [K|[K|K]].
  - pose proof (read_columns_short p elem _ [] [1; 2] O Ce (Forall_nil _))
      as R.
    rewrite K in *. change (Z.of_nat 0) with 0 in *. cbn [app] in R.
    rewrite R. reflexivity.
  - assert (F : Forall
                  (fun j => 0 <= j < Z.of_nat (length (Properties elem)))
                  [0]) by (rewrite K; repeat constructor; lia).
    pose proof (read_columns_short p elem _ [0] [2] O Ce F) as R.
    clear F. rewrite K in *. change (Z.of_nat 1) with 1 in *.
    cbn [app] in R. rewrite R. reflexivity.
  - assert (F : Forall
                  (fun j => 0 <= j < Z.of_nat (length (Properties elem)))
                  [0; 1]) by (rewrite K; repeat constructor; lia).
    pose proof (read_columns_short p elem _ [0; 1] [] O Ce F) as R.
    clear F. rewrite K in *. change (Z.of_nat 2) with 2 in *.
    cbn [app] in R. rewrite R. reflexivity.
Qed.

Lemma ReadVertices_faults_below_three_properties_witness :
  exists p elem,
    Load (one_file truncated_binary) "a.ply" new_PLY = Ok p /\
    GetVertices p = Some elem /\
    ReadVertices p =
      Panic (IndexOutOfRange (Z.of_nat (length (Properties elem)))
                             (Z.of_nat (length (Properties elem)))).
Proof.
  eexists. eexists. split; [vm_compute; reflexivity|].
  split; [vm_compute; reflexivity|].
  apply (ReadVertices_faults_below_three_properties
           (one_file truncated_binary) "a.ply" new_PLY).
  - vm_compute. reflexivity.
  - vm_compute. reflexivity.
  - vm_compute. lia.
Defined.

(** X20.  After a successful [Load] of a text file every row of every
    property holds zero bytes only, whatever numbers the file holds. *)
Theorem ascii_Load_stores_zero_bytes :
  forall (fs : file_system) (fname : bytes) (p0 p : PLY),
    Load fs fname p0 = Ok p ->
    FileType p = Ascii ->
    Forall (fun elem =>
              Forall (fun prop =>
                        Forall (fun row =>
                                  Forall (fun b => b = x00) (elems row))
                          (Data prop))
                (Properties elem))
      (Elements p).
Proof.
  intros fs fname p0 p H A.
  destruct (Load_Ok_cases _ _ _ _ H) as (ph & _ & [C|[C|C]]);
    destruct C as [F E].
  - apply parseBinary_keeps in E. destruct E as (E & _).
    cbn [FileType set_byteOrder] in E. rewrite E, F in A. discriminate.
  - apply parseBinary_keeps in E. destruct E as (E & _).
    cbn [FileType set_byteOrder] in E. rewrite E, F in A. discriminate.
  - exact (parseASCII_rows_zero ph p E).
Qed.

Lemma ascii_Load_stores_zero_bytes_witness :
  exists p,
    Load (one_file minimal_ascii) "a.ply" new_PLY = Ok p /\
    FileType p = Ascii /\
    Forall (fun elem =>
              Forall (fun prop =>
                        Forall (fun row =>
                                  Forall (fun b => b = x00) (elems row))
                          (Data prop))
                (Properties elem))
      (Elements p).
Proof.
  eexists. split; [vm_compute; reflexivity|].
  split; [vm_compute; reflexivity|].
  apply (ascii_Load_stores_zero_bytes (one_file minimal_ascii) "a.ply"
           new_PLY).
  - vm_compute. reflexivity.
  - vm_compute. reflexivity.
Defined.

(** X21.  In a text row the scalar properties all read the same token:
    [currWord] moves on for the values of a list only, so a row of scalar
    properties is decoded as if the line held its first token alone. *)
Theorem scalar_properties_share_one_token :
  forall (words : list bytes) (currWord : Z) (w : bytes) (i : Z)
         (props : list Property),
    Forall (fun prop => IsList prop = false) props ->
    index words currWord = Ok w ->
    ascii_props words currWord i props = ascii_props [w] 0 i props.
Proof.
  intros words cw w i props F E.
  exact (ascii_props_scalars words cw w i props F E).
Qed.

Lemma scalar_properties_share_one_token_witness :
  ascii_props ["1.5"; "2.5"] 0 0 two_floats =
  ascii_props ["1.5"] 0 0 two_floats.
Proof.
  apply (scalar_properties_share_one_token ["1.5"; "2.5"] 0 "1.5" 0
           two_floats).
  - repeat constructor.
  - reflexivity.
Defined.

(** X22.  The loop of [parseHeader] comes to an end on every file: it
    takes at most one turn for each byte left to read, so whatever the
    file holds, [Load] answers with a document, an error or a fault. *)
Theorem Load_always_answers :
  forall (fs : file_system) (fname : bytes) (p : PLY),
    Load fs fname p <> OutOfFuel.
Proof.
  intros fs fname p. apply Load_answers.
Qed.

(** X23.  What [print] writes for a property that a header declared is a
    line that the pattern of [parseHeader] splits into the words of that
    declaration again. *)
Theorem printed_property_splits_into_its_declaration :
  forall (k : Z) (d : PropDecl),
    wf_prop d = true ->
    FindAllStringSubmatch wordMatcher
      (strip (Property_print (schema_prop k d))) = prop_words d.
Proof.
  intros k d W. pose proof (prop_words_tokens d W) as T.
  unfold Property_print, schema_prop, prop_words in *.
  cbn [IsList ListSizeType Type_ Name].
  destruct (pd_list d) as [ct|].
  - assert (Sp : spaced ["property"; "list"; ct; pd_type d; pd_name d]
                   ([x09] ++ "property" ++ (" " : byte) ::
                    ([] ++ "list" ++ (" " : byte) ::
                     ([] ++ ct ++ (" " : byte) ::
                      ([] ++ pd_type d ++ (" " : byte) ::
                       ([] ++ pd_name d)))))).
    { apply spaced_cons; [repeat constructor|reflexivity|].
      apply spaced_cons; [constructor|reflexivity|].
      apply spaced_cons; [constructor|reflexivity|].
      apply spaced_cons; [constructor|reflexivity|].
      apply spaced_last. constructor. }
    rewrite <- (line_tokens _ _ Sp T). unfold tokens. do 2 f_equal.
    cbn [app]. do 15 f_equal.
    rewrite <- !app_assoc. cbn [app]. do 2 f_equal.
    rewrite <- !app_assoc. reflexivity.
  - assert (Sp : spaced ["property"; pd_type d; pd_name d]
                   ([x09] ++ "property" ++ (" " : byte) ::
                    ([] ++ pd_type d ++ (" " : byte) ::
                     ([] ++ pd_name d)))).
    { apply spaced_cons; [repeat constructor|reflexivity|].
      apply spaced_cons; [constructor|reflexivity|].
      apply spaced_last. constructor. }
    rewrite <- (line_tokens _ _ Sp T). unfold tokens. do 2 f_equal.
    cbn [app]. do 10 f_equal.
    rewrite <- !app_assoc. reflexivity.
Qed.

Lemma printed_property_splits_into_its_declaration_witness :
  FindAllStringSubmatch wordMatcher
    (strip (Property_print
              (schema_prop 0
                 {| pd_list := Some "uchar"; pd_type := "int";
                    pd_name := "vertex_indices" |}))) =
  prop_words {| pd_list := Some "uchar"; pd_type := "int";
                pd_name := "vertex_indices" |}.
Proof.
  apply (printed_property_splits_into_its_declaration 0
           {| pd_list := Some "uchar"; pd_type := "int";
              pd_name := "vertex_indices" |}).
  reflexivity.
Defined.

(** X24.  A type name that is not in the tables is accepted in silence:
    the text codec returns no bytes and no error for any token, the binary
    codec returns no bytes and no error and reads nothing, and the width
    looked up for the type is 0. *)
Theorem unknown_types_are_accepted :
  forall (typeName : bytes),
    recognized typeName = false ->
    (forall data, toType data typeName = Ok None) /\
    (forall rd, toBType rd typeName = Ok (None, rd)) /\
    SizeOfType typeName = 0.
Proof.
  intros t R.
  destruct (unrecognized_is_type t R)
    as (T1 & T2 & T3 & T4 & T5 & T6 & T7 & T8).
  split; [|split].
  - intros data. unfold toType.
    rewrite T1, T2, T3, T4, T5, T6, T7, T8. reflexivity.
  - intros rd. unfold toBType.
    rewrite T1, T2, T3, T4, T5, T6, T7, T8. reflexivity.
  - apply unrecognized_size. exact R.
Qed.

Lemma unknown_types_are_accepted_witness :
  (forall data, toType data "int64" = Ok None) /\
  (forall rd, toBType rd "int64" = Ok (None, rd)) /\
  SizeOfType "int64" = 0.
Proof.
  apply (unknown_types_are_accepted "int64"). reflexivity.
Defined.

(** X25.  In a text row, a list whose count is larger than the number of
    tokens that follow it on the line makes the decoder fault: it indexes
    the tokens of the line one past the last. *)
Theorem short_list_row_faults :
  forall (c : bytes) (vals : list bytes) (prop : Property) (num : Z),
    IsList prop = true ->
    strconv.ParseInt c 10 32 = Ok num ->
    Z.of_nat (length vals) < num ->
    Forall (fun w => exists b, toType w (Type_ prop) = Ok b) vals ->
    ascii_prop (c :: vals) 0 prop =
      Panic (IndexOutOfRange (Z.of_nat (length (c :: vals)))
                             (Z.of_nat (length (c :: vals)))).
Proof.
  intros c vals prop num L E N C. unfold ascii_prop. rewrite L.
  change (index (c :: vals) 0) with (Ok c). cbn [obind]. rewrite E.
  cbn [obind].
  assert (S0 : 0 <= SizeOfType (Type_ prop)).
  { destruct (recognized (Type_ prop)) eqn:R.
    - apply recognized_size in R. lia.
    - apply unrecognized_size in R. lia. }
  unfold make_Z.
  replace (num * SizeOfType (Type_ prop) <? 0) with false
    by (symmetry; apply Z.ltb_ge; nia).
  cbn [obind].
  rewrite (ascii_list_values_short (Type_ prop) (Z.to_nat num) (c :: vals)
             (0 + 1)); [reflexivity| | |].
  - cbn [length]. lia.
  - cbn [length]. lia.
  - intros k w K I. apply index_tail in I; [|lia].
    rewrite Forall_forall in C. apply C. exact I.
Qed.

Lemma short_list_row_faults_witness :
  ascii_prop ["3"; "7"; "8"] 0
    {| Name := "ids"; IsList := true; Data := [None]; Type_ := "int32";
       ListSizeType := "uint8"; pos := 0 |} =
  Panic (IndexOutOfRange (Z.of_nat (length ["3"; "7"; "8"]))
                         (Z.of_nat (length ["3"; "7"; "8"]))).
Proof.
  apply (short_list_row_faults "3" ["7"; "8"]
           {| Name := "ids"; IsList := true; Data := [None];
              Type_ := "int32"; ListSizeType := "uint8"; pos := 0 |} 3).
  - reflexivity.
  - vm_compute. reflexivity.
  - vm_compute. reflexivity.
  - repeat constructor; eexists; vm_compute; reflexivity.
Defined.

(** X26.  In a text row, a negative count of a list of a known type makes
    the decoder fault when it allocates the row. *)
Theorem negative_list_count_faults :
  forall (words : list bytes) (currWord : Z) (c : bytes) (prop : Property)
         (num : Z),
    IsList prop = true ->
    index words currWord = Ok c ->
    strconv.ParseInt c 10 32 = Ok num ->
    num < 0 ->
    recognized (Type_ prop) = true ->
    ascii_prop words currWord prop =
      Panic (MakeSliceLen (num * SizeOfType (Type_ prop))).
Proof.
  intros words cw c prop num L I E N R. unfold ascii_prop.
  rewrite L, I. cbn [obind]. rewrite E. cbn [obind].
  apply recognized_size in R. unfold make_Z.
  replace (num * SizeOfType (Type_ prop) <? 0) with true
    by (symmetry; apply Z.ltb_lt; nia).
  reflexivity.
Qed.

Lemma negative_list_count_faults_witness :
  ascii_prop ["-2"; "7"; "8"] 0
    {| Name := "ids"; IsList := true; Data := [None]; Type_ := "int32";
       ListSizeType := "uint8"; pos := 0 |} =
  Panic (MakeSliceLen
           (-2 * SizeOfType
                   (Type_ {| Name := "ids"; IsList := true; Data := [None];
                             Type_ := "int32"; ListSizeType := "uint8";
                             pos := 0 |}))).
Proof.
  apply (negative_list_count_faults ["-2"; "7"; "8"] 0 "-2"
           {| Name := "ids"; IsList := true; Data := [None];
              Type_ := "int32"; ListSizeType := "uint8"; pos := 0 |} (-2)).
  - reflexivity.
  - reflexivity.
  - vm_compute. reflexivity.
  - lia.
  - reflexivity.
Defined.

(** X27.  The count of an element is read in base 0: a count written
    with a leading zero and octal digits is taken as an octal number. *)
Theorem leading_zero_count_is_octal :
  forall (name w : bytes) (st : header_state),
    w <> [] ->
    Forall (fun c => octal_digit c = true) w ->
    octal w 0 < 2 ^ 31 ->
    exists st',
      header_line ["element"; name; "0" ++ w] st = Ok (Some st') /\
      Elements (hs_ply st') =
        Elements (hs_ply st) ++
        [{| Element_Name := name; Properties := []; Size := octal w 0 |}].
Proof.
  intros name w st N D B.
  eexists. split.
  - exact (header_line_element name ("0" ++ w) (octal w 0) st
             (ParseInt_leading_zero w N D B)).
  - reflexivity.
Qed.

Lemma leading_zero_count_is_octal_witness :
  exists st',
    header_line ["element"; "vertex"; "0" ++ "10"]
      {| hs_ply := new_PLY; currentElem := -1; propPos := 0 |} =
      Ok (Some st') /\
    Elements (hs_ply st') =
      Elements (hs_ply {| hs_ply := new_PLY; currentElem := -1;
                          propPos := 0 |}) ++
      [{| Element_Name := "vertex"; Properties := [];
          Size := octal "10" 0 |}].
Proof.
  apply (leading_zero_count_is_octal "vertex" "10"
           {| hs_ply := new_PLY; currentElem := -1; propPos := 0 |}).
  - discriminate.
  - repeat constructor.
  - vm_compute. reflexivity.
Defined.
